(** * UnisonMap backend: route resolution and caching subsystem

    A shallow embedding of [app/services/ors_routing.py],
    [app/services/cache_service.py] and [app/services/rutas.py], and the
    properties of the specification checked against it.

    Conventions of the embedding.
    - Python [int] is [Z]; a finite Python [float] is the rational it denotes
      ([Q]); [str] is [string], read as a sequence of code points below 256.
    - JSON-like data is the tree type [json]; mutable Python objects that are
      shared between the cache and its callers live in an explicit heap.
    - A Python function that can raise returns a [pyres]; [await]ed calls that
      can suspend for ever return an [outcome] with a [Blocked] case. *)

From Stdlib Require Import ZArith QArith Qround Qminmax Lia List Bool Ascii String DecimalString.
From stdpp Require Import base option list gmap strings.

Set Warnings "-register-all".

Local Open Scope string_scope.
Local Open Scope list_scope.
Local Open Scope Z_scope.

(* ===================================================================== *)
(** * Part I: definitions                                                 *)
(* ===================================================================== *)

(** ** Python strings *)

Module PyStr.

(** The characters of a [str], by code point. *)
Definition chars (s : string) : list ascii := list_ascii_of_string s.
Definition of_chars (l : list ascii) : string := string_of_list_ascii l.

(** [str.isspace] (and the regular expression class [\s]) on the code
    points below 256: TAB..CR, FS..US, SPACE, NEL and NBSP. *)
Definition isspace (c : ascii) : bool :=
  let n := N_of_ascii c in
  ((9 <=? n) && (n <=? 13) || (28 <=? n) && (n <=? 32)
   || (n =? 133) || (n =? 160))%N.

(** [str.lower] on one code point below 256: A..Z and the accented capitals
    U+00C0..U+00DE (except the multiplication sign U+00D7) move up by 32. *)
Definition lower_char (c : ascii) : ascii :=
  let n := N_of_ascii c in
  if ((65 <=? n) && (n <=? 90)
      || (192 <=? n) && (n <=? 222) && negb (n =? 215))%N
  then ascii_of_N (n + 32) else c.

Definition lower (s : list ascii) : list ascii := map lower_char s.

Fixpoint lstrip (s : list ascii) : list ascii :=
  match s with
  | c :: r => if isspace c then lstrip r else s
  | [] => []
  end.

Definition rstrip (s : list ascii) : list ascii := rev (lstrip (rev s)).

Definition strip (s : list ascii) : list ascii := rstrip (lstrip s).

Fixpoint startswith (p s : list ascii) : bool :=
  match p, s with
  | [], _ => true
  | a :: p', b :: s' => Ascii.eqb a b && startswith p' s'
  | _ :: _, [] => false
  end.

(** [needle in hay] *)
Fixpoint contains (needle hay : list ascii) : bool :=
  startswith needle hay ||
  match hay with
  | [] => false
  | _ :: r => contains needle r
  end.

(** Number of positions of [hay] at which [needle] starts. *)
Fixpoint occurrences (needle hay : list ascii) : nat :=
  ((if startswith needle hay then 1 else 0) +
   match hay with
   | [] => 0
   | _ :: r => occurrences needle r
   end)%nat.

(** [re.sub(r"\s+", " ", s)]: [in_run] tells that the previous character
    was white space, already replaced. *)
Fixpoint re_sub_ws (in_run : bool) (s : list ascii) : list ascii :=
  match s with
  | [] => []
  | c :: r =>
      if isspace c
      then (if in_run then re_sub_ws true r else " "%char :: re_sub_ws true r)
      else c :: re_sub_ws false r
  end.

(** [str(n)] for an [int]. *)
Definition str_of_int (n : Z) : list ascii :=
  chars (NilZero.string_of_int (Z.to_int n)).

End PyStr.

(** ** Python floats *)

(** A float is the rational it denotes, or one of the three special values;
    arithmetic on the finite ones is exact. *)
Inductive pyfloat : Type :=
| Finite (q : Q)
| PosInf
| NegInf
| NaN.

(** ** JSON-like values *)

Inductive json : Type :=
| JNull
| JBool (b : bool)
| JInt (n : Z)
| JFloat (f : pyfloat)
| JStr (s : string)
| JList (l : list json)
| JDict (d : list (string * json)).

(** [d.get(k)] / [k in d] on a dict given by its items. *)
Fixpoint dict_get {A} (k : string) (d : list (string * A)) : option A :=
  match d with
  | [] => None
  | (k', v) :: r => if String.eqb k k' then Some v else dict_get k r
  end.

(** [d[k] = v]: replaces in place, or appends a new key. *)
Fixpoint dict_set {A} (k : string) (v : A) (d : list (string * A))
  : list (string * A) :=
  match d with
  | [] => [(k, v)]
  | (k', v') :: r =>
      if String.eqb k k' then (k, v) :: r else (k', v') :: dict_set k v r
  end.

(** [d.update(items)] *)
Definition dict_update {A} (d items : list (string * A)) : list (string * A) :=
  fold_left (fun acc kv => dict_set (fst kv) (snd kv) acc) items d.

(** ** Configuration ([app/core/config.py], the fields the subsystem reads) *)

Record Settings := {
  ORS_API_KEY : string;
  ORS_BASE_URL : string;
  ORS_MAX_RETRIES : Z;
  ORS_BACKOFF_FACTOR : Q;
  ORS_ALLOWED_PROFILES : list string;
  CACHE_TTL_SECONDS : Z;
  CACHE_MAX_TTL_SECONDS : Z;
  CACHE_LOCK_TIMEOUT_SECONDS : Z
}.

Definition DEFAULT_PROFILE : string := "foot-walking".
Definition MAX_STEP_TEXT_LENGTH : nat := 240.
Definition MAX_ROUTE_STEPS : nat := 200.

(** ** Step text ([ors_routing.py], [_normalize_step_text]) *)

Section StepText.
Import PyStr.

(** [str(x).strip() if isinstance(x, str) else ""] *)
Definition stripped_if_str (x : json) : list ascii :=
  match x with
  | JStr s => strip (chars s)
  | _ => []
  end.

(** The text before white space is collapsed: the fallback for an empty
    instruction, then the name appended unless it is already there. *)
Definition step_text_raw (instruction name : json) (step_index : Z)
  : list ascii :=
  let raw_instruction := stripped_if_str instruction in
  let step_name := stripped_if_str name in
  let raw_instruction :=
    match raw_instruction with
    | [] => chars "Paso " ++ str_of_int step_index
    | _ => raw_instruction
    end in
  match step_name with
  | [] => raw_instruction
  | _ =>
      if negb (contains (lower step_name) (lower raw_instruction))
      then match raw_instruction with
           | [] => chars "Contin" ++ [ascii_of_N 250] ++ chars "a en "
                   ++ step_name
           | _ => raw_instruction ++ chars " en " ++ step_name
           end
      else raw_instruction
  end.

(** [normalized[: MAX - 3].rstrip() + "..."] when longer than [MAX]. *)
Definition truncate_text (normalized : list ascii) : list ascii :=
  if (MAX_STEP_TEXT_LENGTH <? length normalized)%nat
  then rstrip (take (MAX_STEP_TEXT_LENGTH - 3) normalized) ++ chars "..."
  else normalized.

Definition _normalize_step_text (instruction name : json) (step_index : Z)
  : string :=
  let raw_instruction := step_text_raw instruction name step_index in
  let normalized := strip (re_sub_ws false raw_instruction) in
  of_chars (truncate_text normalized).

End StepText.

(** ** Cache TTL ([ors_routing.py], [_resolve_cache_ttl]) *)

(** The override is an [Optional[int]], so [int(override_ttl)] cannot fail
    and the [except] branch is not reachable. *)
Definition _resolve_cache_ttl (settings : Settings) (override_ttl : option Z)
  : Z :=
  let ttl := CACHE_TTL_SECONDS settings in
  let ttl :=
    match override_ttl with
    | Some o => Z.max 0 o
    | None => ttl
    end in
  if (ttl =? 0)%Z then 0 else Z.min ttl (CACHE_MAX_TTL_SECONDS settings).

(** ** Exceptions *)

(** The [detail] of a FastAPI [HTTPException]: a plain string or a dict. *)
Inductive detail : Type :=
| DetailStr (s : string)
| DetailDict (d : list (string * json)).

(** The exceptions the subsystem meets. [UnicodeDecodeError] is a
    [ValueError] in Python: a handler of [ValueError] catches it. *)
Inductive exn : Type :=
| HTTPException (status_code : Z) (d : detail)
| KeyError
| IndexError
| TypeError
| ValueError
| AttributeError
| OverflowError
| RuntimeError
| AssertionError (msg : string)
| BackendError (msg : string)
| UnicodeDecodeError.

(** The result of a call that either returns or raises. *)
Inductive pyres (A : Type) : Type :=
| Ok (a : A)
| Err (e : exn).
Arguments Ok {A} a.
Arguments Err {A} e.

Definition pybind {A B} (r : pyres A) (k : A -> pyres B) : pyres B :=
  match r with
  | Ok a => k a
  | Err e => Err e
  end.

(** ** The graph engine ([rutas.py], [dijkstra]) *)

Section Dijkstra.

(** Edge weights are Python floats ([Conexion.peso]); the algorithm only
    adds them and compares them, so they are kept abstract: [W] with the
    float [0], [float("inf")], [+], [<] and [==]. *)
Variable W : Type.
Variable zero inf : W.
Variable add : W -> W -> W.
Variable ltb eqb : W -> W -> bool.

(** [grafo]: the adjacency dict built by [construir_grafo], from a node id
    to the list of its [(vecino, peso)] pairs. *)
Definition grafo_t := gmap Z (list (Z * W)).

(** Python's comparison of the tuples [(dist, nodo)] kept in the heap: the
    first components decide unless they are equal. *)
Definition tuple_lt (a b : W * Z) : bool :=
  if eqb (fst a) (fst b) then (snd a <? snd b)%Z else ltb (fst a) (fst b).

(** [heapq]: the queue is kept as the list of its items; [heappop] takes
    out the least one. *)
Definition heappush (cola : list (W * Z)) (item : W * Z) : list (W * Z) :=
  item :: cola.

Fixpoint pop_min (x : W * Z) (rest : list (W * Z)) : (W * Z) * list (W * Z) :=
  match rest with
  | [] => (x, [])
  | y :: r =>
      if tuple_lt y x
      then let '(m, l) := pop_min y r in (m, x :: l)
      else let '(m, l) := pop_min x r in (m, y :: l)
  end.

Definition heappop (cola : list (W * Z)) : option ((W * Z) * list (W * Z)) :=
  match cola with
  | [] => None
  | x :: r => Some (pop_min x r)
  end.

Record dstate := {
  distancias : gmap Z W;
  anterior : gmap Z Z;
  cola : list (W * Z)
}.

(** The [for vecino, peso in grafo[actual_nodo]] loop. [distancias[vecino]]
    raises [KeyError] for a neighbour that is not a key of the graph. *)
Fixpoint relax (actual_dist : W) (actual_nodo : Z) (vecinos : list (Z * W))
         (st : dstate) : pyres dstate :=
  match vecinos with
  | [] => Ok st
  | (vecino, peso) :: r =>
      let distancia := add actual_dist peso in
      match distancias st !! vecino with
      | None => Err KeyError
      | Some dv =>
          if ltb distancia dv
          then relax actual_dist actual_nodo r
                 {| distancias := <[vecino := distancia]> (distancias st);
                    anterior := <[vecino := actual_nodo]> (anterior st);
                    cola := heappush (cola st) (distancia, vecino) |}
          else relax actual_dist actual_nodo r st
      end
  end.

(** The [while cola] loop; [None] when [fuel] iterations were not enough. *)
Fixpoint dijkstra_loop (fuel : nat) (grafo : grafo_t) (destino : Z)
         (st : dstate) : option (pyres dstate) :=
  match fuel with
  | O => None
  | S fuel' =>
      match heappop (cola st) with
      | None => Some (Ok st)
      | Some ((actual_dist, actual_nodo), cola') =>
          let st := {| distancias := distancias st;
                       anterior := anterior st;
                       cola := cola' |} in
          if (actual_nodo =? destino)%Z then Some (Ok st)
          else
            match grafo !! actual_nodo with
            | None => Some (Err KeyError)
            | Some vecinos =>
                match relax actual_dist actual_nodo vecinos st with
                | Err e => Some (Err e)
                | Ok st' => dijkstra_loop fuel' grafo destino st'
                end
            end
      end
  end.

(** The [while actual in anterior] loop: returns the node it stops at and
    the route collected so far. *)
Fixpoint walk_back (fuel : nat) (ant : gmap Z Z) (actual : Z)
         (ruta : list Z) : option (Z * list Z) :=
  match fuel with
  | O => None
  | S fuel' =>
      match ant !! actual with
      | Some previo => walk_back fuel' ant previo (actual :: ruta)
      | None => Some (actual, ruta)
      end
  end.

Definition dijkstra (fuel : nat) (grafo : grafo_t) (inicio destino : Z)
  : option (pyres (list Z)) :=
  let distancias := <[inicio := zero]> ((fun _ => inf) <$> grafo) in
  let st := {| distancias := distancias; anterior := ∅;
               cola := [(zero, inicio)] |} in
  match dijkstra_loop fuel grafo destino st with
  | None => None
  | Some (Err e) => Some (Err e)
  | Some (Ok st) =>
      match walk_back fuel (anterior st) destino [] with
      | None => None
      | Some (actual, ruta) =>
          if (actual =? inicio)%Z then Some (Ok (inicio :: ruta))
          else Some (Ok [])
      end
  end.

(** The weight of the edge [u -> v] (the first one listed). *)
Definition edge_weight (grafo : grafo_t) (u v : Z) : option W :=
  match grafo !! u with
  | None => None
  | Some vecinos => snd <$> List.find (fun e => (fst e =? v)%Z) vecinos
  end.

(** The total weight of a route, [None] if it uses a missing edge. *)
Fixpoint route_weight (grafo : grafo_t) (ruta : list Z) : option W :=
  match ruta with
  | u :: ((v :: _) as r) =>
      match edge_weight grafo u v, route_weight grafo r with
      | Some w, Some t => Some (add w t)
      | _, _ => None
      end
  | _ => Some zero
  end.

(** [destino] can be reached from [inicio] along directed edges. *)
Inductive reachable (grafo : grafo_t) (inicio : Z) : Z -> Prop :=
| reach_refl : reachable grafo inicio inicio
| reach_step u v w vecinos :
    reachable grafo inicio u ->
    grafo !! u = Some vecinos -> In (v, w) vecinos ->
    reachable grafo inicio v.

(** Every neighbour listed in the graph is itself a key of the graph (what
    the foreign keys of [conexiones] give [construir_grafo]). *)
Definition grafo_closed (grafo : grafo_t) : Prop :=
  forall u vecinos v w,
    grafo !! u = Some vecinos -> In (v, w) vecinos -> is_Some (grafo !! v).

End Dijkstra.

(** Weights for the examples: the non-negative integers with an infinity. *)
Inductive enat : Type :=
| Fin (n : N)
| Inf.

Definition enat_add (a b : enat) : enat :=
  match a, b with
  | Fin x, Fin y => Fin (x + y)
  | _, _ => Inf
  end.

Definition enat_ltb (a b : enat) : bool :=
  match a, b with
  | Fin x, Fin y => (x <? y)%N
  | Fin _, Inf => true
  | Inf, _ => false
  end.

Definition enat_eqb (a b : enat) : bool :=
  match a, b with
  | Fin x, Fin y => (x =? y)%N
  | Inf, Inf => true
  | _, _ => false
  end.

Definition dijkstra_enat :=
  dijkstra enat (Fin 0) Inf enat_add enat_ltb enat_eqb.

(** The graph of the specification's example. *)
Definition grafo_ejemplo : gmap Z (list (Z * enat)) :=
  <[1 := [(2, Fin 5); (3, Fin 20)]]> (<[2 := [(3, Fin 5)]]> (<[3 := []]> ∅)).

(** ** The object heap *)

(** Values as Python hands them around: immutable atoms, or a reference to a
    mutable [list] or [dict] in the heap. *)
Inductive pval : Type :=
| VNull
| VBool (b : bool)
| VInt (n : Z)
| VFloat (f : pyfloat)
| VStr (s : string)
| VRef (l : nat).

Inductive pobj : Type :=
| OList (items : list pval)
| ODict (items : list (string * pval)).

Definition heap := list pobj.

Definition obj_vals (o : pobj) : list pval :=
  match o with
  | OList vs => vs
  | ODict kvs => map snd kvs
  end.

(** ** Awaited calls *)

(** An awaited call returns, raises, or stays suspended ([Blocked]): no other
    task is interleaved with the call that is followed, so a wait for
    something only another task can do never ends. *)
Inductive outcome (A : Type) : Type :=
| Return (a : A)
| Raise (e : exn)
| Blocked.
Arguments Return {A} a.
Arguments Raise {A} e.
Arguments Blocked {A}.

(** [json.dumps] of an object graph, read back as a tree: [None] when the
    graph is deeper than [fuel] (a cyclic one is, for every [fuel]). *)
Fixpoint reify (fuel : nat) (h : heap) (v : pval) {struct fuel} : option json :=
  match v with
  | VNull => Some JNull
  | VBool b => Some (JBool b)
  | VInt n => Some (JInt n)
  | VFloat f => Some (JFloat f)
  | VStr s => Some (JStr s)
  | VRef l =>
      match fuel with
      | O => None
      | S fuel' =>
          match h !! l with
          | None => None
          | Some (OList vs) => JList <$> mapM (reify fuel' h) vs
          | Some (ODict kvs) =>
              JDict <$> mapM (fun kv => pair (fst kv) <$> reify fuel' h (snd kv)) kvs
          end
      end
  end.

(** Copies the values of a container one after the other, threading the heap. *)
Fixpoint copy_values (cp : heap -> pval -> option (heap * pval))
         (h : heap) (vs : list pval) : option (heap * list pval) :=
  match vs with
  | [] => Some (h, [])
  | v :: r =>
      match cp h v with
      | None => None
      | Some (h1, v') =>
          match copy_values cp h1 r with
          | None => None
          | Some (h2, r') => Some (h2, v' :: r')
          end
      end
  end.

(** [copy.deepcopy] on JSON-like data: atoms are shared, every list and dict
    reached is rebuilt at a fresh address. The payloads of the cache are
    trees, so the memo table of [deepcopy] (which keeps shared and cyclic
    sub-objects shared) is left out; [None] when the graph is deeper than
    [fuel]. *)
Fixpoint deepcopy (fuel : nat) (h : heap) (v : pval) {struct fuel}
  : option (heap * pval) :=
  match v with
  | VRef l =>
      match fuel with
      | O => None
      | S fuel' =>
          match h !! l with
          | None => None
          | Some (OList vs) =>
              match copy_values (deepcopy fuel') h vs with
              | None => None
              | Some (h', vs') => Some (h' ++ [OList vs'], VRef (length h'))
              end
          | Some (ODict kvs) =>
              match copy_values (deepcopy fuel') h (map snd kvs) with
              | None => None
              | Some (h', vs') =>
                  Some (h' ++ [ODict (zip (map fst kvs) vs')], VRef (length h'))
              end
          end
      end
  | _ => Some (h, v)
  end.

(** Builds a JSON tree in the heap (what [json.loads], or the construction of
    a result dict, does): children first, then the container. *)
Fixpoint alloc_json (j : json) (h : heap) : heap * pval :=
  match j with
  | JNull => (h, VNull)
  | JBool b => (h, VBool b)
  | JInt n => (h, VInt n)
  | JFloat f => (h, VFloat f)
  | JStr s => (h, VStr s)
  | JList l =>
      let '(h', vs) :=
        (fix go (l : list json) (h : heap) : heap * list pval :=
           match l with
           | [] => (h, [])
           | x :: r =>
               let '(h1, v) := alloc_json x h in
               let '(h2, vs) := go r h1 in (h2, v :: vs)
           end) l h in
      (h' ++ [OList vs], VRef (length h'))
  | JDict d =>
      let '(h', kvs) :=
        (fix go (d : list (string * json)) (h : heap)
           : heap * list (string * pval) :=
           match d with
           | [] => (h, [])
           | (k, x) :: r =>
               let '(h1, v) := alloc_json x h in
               let '(h2, kvs) := go r h1 in (h2, (k, v) :: kvs)
           end) d h in
      (h' ++ [ODict kvs], VRef (length h'))
  end.

(** ** The cache service ([cache_service.py]) *)

Definition _LOCK_KEY_PREFIX : string := "lock:route:".

(** The abstract base class [CacheService]: the operations every backend
    gives. [get] and [set] take and return the heap, since payloads are
    objects; the lock operations only touch the backend. *)
Class CacheService (S : Type) := {
  cs_get : string -> S -> heap -> outcome (option pval) * S * heap;
  cs_set : string -> pval -> Z -> S -> heap -> outcome unit * S * heap;
  cs_acquire_lock : string -> Z -> S -> outcome (option string) * S;
  cs_release_lock : string -> string -> S -> outcome unit * S;
  cs_wait_for_value : string -> S -> heap -> outcome (option pval) * S * heap
}.

(** [CacheService.wait_for_value]: polls [get] up to [attempts] times. The
    [asyncio.sleep(delay)] between two polls changes nothing here, as no other
    task runs in between. *)
Fixpoint wait_for_value {S} (get : string -> S -> heap -> outcome (option pval) * S * heap)
         (attempts : nat) (key : string) (c : S) (h : heap)
  : outcome (option pval) * S * heap :=
  match attempts with
  | O => (Return None, c, h)
  | S n =>
      match get key c h with
      | (Return (Some cached), c', h') => (Return (Some cached), c', h')
      | (Return None, c', h') => wait_for_value get n key c' h'
      | (Raise e, c', h') => (Raise e, c', h')
      | (Blocked, c', h') => (Blocked, c', h')
      end
  end.

(** *** [asyncio.Lock] *)

(** The state of an [asyncio.Lock] is whether it is locked. [acquire] takes a
    free lock and returns [True]; on a locked one it waits until the holder
    releases it. [release] on a free lock raises [RuntimeError]. *)
Definition Lock := bool.

Definition Lock_acquire (lock : Lock) : outcome bool * Lock :=
  if lock then (Blocked, lock) else (Return true, true).

Definition Lock_release (lock : Lock) : outcome unit * Lock :=
  if lock then (Return tt, false) else (Raise RuntimeError, lock).

Definition Lock_locked (lock : Lock) : bool := lock.

(** *** [SQLiteCache] *)

(** The table [routes_cache] maps a key to its payload (the JSON document the
    BLOB holds) and [expires_at]; [_locks] is the registry of per-key locks;
    [sqlite_now] is what [int(time.time())] reads. *)
Record SQLiteCache := {
  routes_cache : gmap string (json * Z);
  _locks : gmap string Lock;
  sqlite_now : Z
}.

Definition SQLiteCache_get (key : string) (c : SQLiteCache) (h : heap)
  : outcome (option pval) * SQLiteCache * heap :=
  match routes_cache c !! key with
  | None => (Return None, c, h)
  | Some (payload, expires_at) =>
      if (expires_at <=? sqlite_now c)%Z
      then (Return None,
            {| routes_cache := delete key (routes_cache c);
               _locks := _locks c; sqlite_now := sqlite_now c |}, h)
      else let '(h', v) := alloc_json payload h in (Return (Some v), c, h')
  end.

(** The integers of a column of SQLite have 64 bits. *)
Definition sqlite_integer (n : Z) : bool :=
  (- 2 ^ 63 <=? n) && (n <? 2 ^ 63).

(** [_serialize_payload] is [json.dumps] (and gzip, undone on reading): it
    raises [ValueError] on an object graph that is not a tree. Binding
    [expires_at] to the statement raises [OverflowError] when it does not
    fit the column. *)
Definition SQLiteCache_set (key : string) (payload : pval) (ttl_seconds : Z)
           (c : SQLiteCache) (h : heap) : outcome unit * SQLiteCache * heap :=
  let expires_at := sqlite_now c + ttl_seconds in
  match reify (length h) h payload with
  | None => (Raise ValueError, c, h)
  | Some data =>
      if sqlite_integer expires_at
      then (Return tt,
            {| routes_cache := <[key := (data, expires_at)]> (routes_cache c);
               _locks := _locks c; sqlite_now := sqlite_now c |}, h)
      else (Raise OverflowError, c, h)
  end.

(** The backend [elapsed] seconds later: only the clock has moved. *)
Definition sqlite_later (elapsed : Z) (c : SQLiteCache) : SQLiteCache :=
  {| routes_cache := routes_cache c; _locks := _locks c;
     sqlite_now := sqlite_now c + elapsed |}.

(** [ttl_seconds] is not used. The guard [_locks_guard] is only held for the
    lookup and is free again before [lock.acquire()] is awaited. *)
Definition SQLiteCache_acquire_lock (key : string) (ttl_seconds : Z)
           (c : SQLiteCache) : outcome (option string) * SQLiteCache :=
  let lock := default false (_locks c !! key) in
  match Lock_acquire lock with
  | (Return acquired, lock') =>
      (Return (if acquired then Some key else None),
       {| routes_cache := routes_cache c;
          _locks := <[key := lock']> (_locks c); sqlite_now := sqlite_now c |})
  | (Raise e, lock') =>
      (Raise e,
       {| routes_cache := routes_cache c;
          _locks := <[key := lock']> (_locks c); sqlite_now := sqlite_now c |})
  | (Blocked, lock') =>
      (Blocked,
       {| routes_cache := routes_cache c;
          _locks := <[key := lock']> (_locks c); sqlite_now := sqlite_now c |})
  end.

(** [token] is not used. *)
Definition SQLiteCache_release_lock (key token : string) (c : SQLiteCache)
  : outcome unit * SQLiteCache :=
  match _locks c !! key with
  | Some lock =>
      if Lock_locked lock
      then match Lock_release lock with
           | (r, lock') =>
               (r, {| routes_cache := routes_cache c;
                      _locks := <[key := lock']> (_locks c);
                      sqlite_now := sqlite_now c |})
           end
      else (Return tt, c)
  | None => (Return tt, c)
  end.

#[export] Instance SQLiteCache_service : CacheService SQLiteCache := {
  cs_get := SQLiteCache_get;
  cs_set := SQLiteCache_set;
  cs_acquire_lock := SQLiteCache_acquire_lock;
  cs_release_lock := SQLiteCache_release_lock;
  cs_wait_for_value := wait_for_value SQLiteCache_get 10
}.

(** *** [RedisCache] *)

(** The server's keyspace: a value (a payload document, or a lock token as a
    string) with the time its [ex] runs out; [redis_up] is whether the
    server answers; [uuid_counter] stands for the randomness of [uuid4].

    The instance is one on which [initialize] has run (lines 86-98).
    [from_url(..., encoding=None, ...)] gives a client whose encoder has no
    encoding: [ping] goes through, as it has no argument, and then
    [register_script], which encodes the text of the script, raises
    [TypeError] ([str.encode(None, ...)]). So [initialize] raises,
    [_client] is set and [_lock_release_script] stays [None]. *)
Record RedisCache := {
  redis_data : gmap string (json * Z);
  redis_now : Z;
  redis_up : bool;
  uuid_counter : N
}.

(** [GET] on the server: the value, unless the key is missing or has run
    out. *)
Definition redis_GET (key : string) (c : RedisCache) : option json :=
  match redis_data c !! key with
  | Some (v, expires) => if (redis_now c <? expires)%Z then Some v else None
  | None => None
  end.

Definition redis_down : exn := BackendError "ConnectionError".

(** A command of this client with a [str] among its arguments (a key, a
    token): the client takes a connection, which raises when the server does
    not answer, and then fails to encode the [str], with [TypeError], before
    anything is sent. *)
Definition redis_command {A} (c : RedisCache) : outcome A :=
  if redis_up c then Raise TypeError else Raise redis_down.

Definition RedisCache_get (key : string) (c : RedisCache) (h : heap)
  : outcome (option pval) * RedisCache * heap :=
  (redis_command c, c, h).

(** [_serialize_payload] comes first. *)
Definition RedisCache_set (key : string) (payload : pval) (ttl_seconds : Z)
           (c : RedisCache) (h : heap) : outcome unit * RedisCache * heap :=
  match reify (length h) h payload with
  | None => (Raise ValueError, c, h)
  | Some data => (redis_command c, c, h)
  end.

Definition uuid4 (c : RedisCache) : string * RedisCache :=
  (PyStr.of_chars (PyStr.str_of_int (Z.of_N (uuid_counter c))),
   {| redis_data := redis_data c; redis_now := redis_now c;
      redis_up := redis_up c; uuid_counter := N.succ (uuid_counter c) |}).

(** The token is drawn, and then [SET lock_key token NX EX ttl] fails as
    every command with a [str] does. *)
Definition RedisCache_acquire_lock (key : string) (ttl_seconds : Z)
           (c : RedisCache) : outcome (option string) * RedisCache :=
  let lock_key := _LOCK_KEY_PREFIX +:+ key in
  let '(token, c) := uuid4 c in
  (redis_command c, c).

(** [if self._lock_release_script is None: return] *)
Definition RedisCache_release_lock (key token : string) (c : RedisCache)
  : outcome unit * RedisCache :=
  (Return tt, c).

#[export] Instance RedisCache_service : CacheService RedisCache := {
  cs_get := RedisCache_get;
  cs_set := RedisCache_set;
  cs_acquire_lock := RedisCache_acquire_lock;
  cs_release_lock := RedisCache_release_lock;
  cs_wait_for_value := wait_for_value RedisCache_get 10
}.

(** *** The stubs of [tests/test_ors_cache.py] *)

Record CacheHitStub := {
  hit_payload : option pval;
  hit_requests : list (string * string)
}.

#[export] Instance CacheHitStub_service : CacheService CacheHitStub := {
  cs_get key c h :=
    (Return (hit_payload c),
     {| hit_payload := hit_payload c;
        hit_requests := hit_requests c ++ [("get", key)] |}, h);
  cs_set key payload ttl c h :=
    (Raise (AssertionError "No deberia persistir en cache cuando hay hit"), c, h);
  cs_acquire_lock key ttl c := (Return None, c);
  cs_release_lock key token c := (Return tt, c);
  cs_wait_for_value key c h := (Return None, c, h)
}.

Record CacheMissStub := {
  set_calls : list (string * pval * Z);
  lock_acquired : bool;
  released : bool
}.

#[export] Instance CacheMissStub_service : CacheService CacheMissStub := {
  cs_get key c h := (Return None, c, h);
  cs_set key payload ttl c h :=
    (Return tt,
     {| set_calls := set_calls c ++ [(key, payload, ttl)];
        lock_acquired := lock_acquired c; released := released c |}, h);
  cs_acquire_lock key ttl c :=
    (Return (Some "token"),
     {| set_calls := set_calls c; lock_acquired := true;
        released := released c |});
  cs_release_lock key token c :=
    (Return tt,
     {| set_calls := set_calls c; lock_acquired := lock_acquired c;
        released := true |});
  cs_wait_for_value key c h := (Return None, c, h)
}.

(** The effective TTL as the specification words it. *)
Definition ttl_as_specified (settings : Settings) (override_ttl : option Z) : Z :=
  Z.min (default (CACHE_TTL_SECONDS settings) override_ttl)
        (CACHE_MAX_TTL_SECONDS settings).

(** The settings of [test_cache_ttl_respected]. *)
Definition settings_test : Settings :=
  {| ORS_API_KEY := "key"; ORS_BASE_URL := "https://ors/v2/directions/foot-walking";
     ORS_MAX_RETRIES := 2; ORS_BACKOFF_FACTOR := 3 # 4;
     ORS_ALLOWED_PROFILES := ["foot-walking"; "driving-car"; "cycling-regular"];
     CACHE_TTL_SECONDS := 10; CACHE_MAX_TTL_SECONDS := 60;
     CACHE_LOCK_TIMEOUT_SECONDS := 30 |}.

(** A local backend in which the lock of ["route:k"] is held, and one in
    which no lock exists. *)
Definition sqlite_held : SQLiteCache :=
  {| routes_cache := ∅; _locks := {[ "route:k" := true ]}; sqlite_now := 0 |}.

Definition sqlite_empty : SQLiteCache :=
  {| routes_cache := ∅; _locks := ∅; sqlite_now := 0 |}.

(** ** Python operations on JSON values *)

(** Library functions that are used but not defined in the repository:
    [float(s)] and [int(s)] on a string ([None]: [ValueError]), the hex
    digest of SHA-256, the format [f"{x:.6f}"], [polyline.decode] ([None]: it
    raises) and [str(e)] of an exception. *)
Record PyLib := {
  float_of_str : string -> option pyfloat;
  int_of_str : string -> option Z;
  sha256_hexdigest : string -> string;
  format_6f : pyfloat -> string;
  polyline_decode : string -> option (list (pyfloat * pyfloat));
  str_of_exn : exn -> string
}.

(** The one-character string of a code point, for the accented letters of
    the messages. *)
Definition chr (n : N) : string := String (ascii_of_N n) EmptyString.

Definition str_strip (s : string) : string :=
  PyStr.of_chars (PyStr.strip (PyStr.chars s)).

Definition str_lower (s : string) : string :=
  PyStr.of_chars (PyStr.lower (PyStr.chars s)).

Definition str_of_Z (n : Z) : string := PyStr.of_chars (PyStr.str_of_int n).

(** [a <= b] on floats: false as soon as a NaN is compared. *)
Definition float_le (a b : pyfloat) : bool :=
  match a, b with
  | NaN, _ | _, NaN => false
  | NegInf, _ => true
  | _, PosInf => true
  | Finite x, Finite y => Qle_bool x y
  | _, _ => false
  end.

Definition float_is_zero (f : pyfloat) : bool :=
  match f with
  | Finite q => Qeq_bool q 0
  | _ => false
  end.

(** [bool(x)] *)
Definition py_truthy (x : json) : bool :=
  match x with
  | JNull => false
  | JBool b => b
  | JInt n => negb (n =? 0)%Z
  | JFloat f => negb (float_is_zero f)
  | JStr s => negb (String.eqb s "")
  | JList l => match l with [] => false | _ => true end
  | JDict d => match d with [] => false | _ => true end
  end.

(** [len(x)] *)
Definition py_len (x : json) : pyres nat :=
  match x with
  | JStr s => Ok (String.length s)
  | JList l => Ok (length l)
  | JDict d => Ok (length d)
  | _ => Err TypeError
  end.

(** [x[i]] for an integer index [i >= 0] *)
Definition py_index (x : json) (i : nat) : pyres json :=
  match x with
  | JList l => match l !! i with Some v => Ok v | None => Err IndexError end
  | JStr s => match String.get i s with
              | Some c => Ok (JStr (String c EmptyString))
              | None => Err IndexError
              end
  | JDict _ => Err KeyError
  | _ => Err TypeError
  end.

(** [k in x] for a string [k] *)
Definition py_in (k : string) (x : json) : pyres bool :=
  match x with
  | JDict d => Ok (bool_decide (is_Some (dict_get k d)))
  | JList l => Ok (existsb (fun e => match e with
                                     | JStr s => String.eqb s k
                                     | _ => false
                                     end) l)
  | JStr s => Ok (PyStr.contains (PyStr.chars k) (PyStr.chars s))
  | _ => Err TypeError
  end.

(** [x[k]] for a string [k] *)
Definition py_getitem (x : json) (k : string) : pyres json :=
  match x with
  | JDict d => match dict_get k d with Some v => Ok v | None => Err KeyError end
  | _ => Err TypeError
  end.

(** [x.get(k, dflt)]: only dicts have the method. *)
Definition py_get (x : json) (k : string) (dflt : json) : pyres json :=
  match x with
  | JDict d => Ok (default dflt (dict_get k d))
  | _ => Err AttributeError
  end.

(** [for e in x] *)
Definition py_iter (x : json) : pyres (list json) :=
  match x with
  | JList l => Ok l
  | JStr s => Ok (map (fun c => JStr (String c EmptyString)) (PyStr.chars s))
  | JDict d => Ok (map (fun kv => JStr (fst kv)) d)
  | _ => Err TypeError
  end.

Definition float_of_bool (b : bool) : pyfloat :=
  Finite (if b then 1 else 0)%Q.

(** The largest power of two that is not a double any more: a float
    computed as [2^1024] or more is [inf], and an [int] from there on cannot
    be converted to a float. *)
Definition FLOAT_LIMIT : Z := 2 ^ 1024.

(** [float(n)] for an [int]: the nearest double, ties to the even one, with
    [OverflowError] when that is beyond the doubles. Up to [2^53] it is [n]
    itself. *)
Definition float_of_int (n : Z) : pyres pyfloat :=
  let a := Z.abs n in
  let shift := Z.max 0 (Z.log2 a - 52) in
  let q := a / 2 ^ shift in
  let r := a mod 2 ^ shift in
  let half := 2 ^ shift / 2 in
  let q' := if (half <? r) || ((r =? half) && (0 <? shift) && Z.odd q)
            then q + 1 else q in
  let m := q' * 2 ^ shift in
  if FLOAT_LIMIT <=? m then Err OverflowError
  else Ok (Finite (inject_Z (Z.sgn n * m))).

(** [float(x)] *)
Definition py_float (lib : PyLib) (x : json) : pyres pyfloat :=
  match x with
  | JInt n => float_of_int n
  | JBool b => Ok (float_of_bool b)
  | JFloat f => Ok f
  | JStr s => match float_of_str lib s with
              | Some f => Ok f
              | None => Err ValueError
              end
  | _ => Err TypeError
  end.

(** [int(f)] of a float: towards zero. *)
Definition int_of_float (f : pyfloat) : pyres Z :=
  match f with
  | Finite q => Ok (if Qle_bool 0 q then Qfloor q else Qceiling q)
  | NaN => Err ValueError
  | _ => Err OverflowError
  end.

(** To the nearest integer, ties to the even one. *)
Definition round_half_even (q : Q) : Z :=
  let fl := Qfloor q in
  match (q - inject_Z fl ?= 1 # 2)%Q with
  | Lt => fl
  | Gt => fl + 1
  | Eq => if Z.even fl then fl else fl + 1
  end.

(** [round(f)] of a float *)
Definition py_round (f : pyfloat) : pyres Z :=
  match f with
  | Finite q => Ok (round_half_even q)
  | NaN => Err ValueError
  | _ => Err OverflowError
  end.

(** [int(x)] *)
Definition py_int (lib : PyLib) (x : json) : pyres Z :=
  match x with
  | JInt n => Ok n
  | JBool b => Ok (if b then 1 else 0)
  | JFloat f => int_of_float f
  | JStr s => match int_of_str lib s with
              | Some n => Ok n
              | None => Err ValueError
              end
  | _ => Err TypeError
  end.

(** [isinstance(x, (int, float))] *)
Definition is_number (x : json) : bool :=
  match x with
  | JInt _ | JBool _ | JFloat _ => true
  | _ => false
  end.

(** ** Validation ([ors_routing.py]) *)

Definition invalid_payload (message : string) : exn :=
  HTTPException 400
    (DetailDict [("code", JStr "invalid_payload");
                 ("message", JStr message);
                 ("field", JStr "coordinates")]).

(** The loop of [_validate_coordinates] over the pairs, [idx] counting them. *)
Fixpoint validate_pairs (lib : PyLib) (context : string) (idx : Z)
         (pairs : list json) : pyres (list (list pyfloat)) :=
  match pairs with
  | [] => Ok []
  | par :: rest =>
      let numero := "Coordenada #" +:+ str_of_Z (idx + 1) in
      match par with
      | JList (x0 :: x1 :: _) =>
          match py_float lib x0, py_float lib x1 with
          | Ok lon, Ok lat =>
              if negb (float_le (Finite (-180)) lon && float_le lon (Finite 180))
                 || negb (float_le (Finite (-90)) lat && float_le lat (Finite 90))
              then Err (invalid_payload
                          (numero +:+ " fuera de rango lon/lat" +:+ context))
              else pybind (validate_pairs lib context (idx + 1) rest)
                          (fun sanitized => Ok ([lon; lat] :: sanitized))
          | Err TypeError, _ | Err ValueError, _ | Err UnicodeDecodeError, _
          | Ok _, Err TypeError | Ok _, Err ValueError
          | Ok _, Err UnicodeDecodeError =>
              Err (invalid_payload
                     (numero +:+ " contiene valores no num" +:+ chr 233
                      +:+ "ricos" +:+ context))
          | Err e, _ => Err e
          | Ok _, Err e => Err e
          end
      | _ =>
          Err (invalid_payload
                 (numero +:+ " inv" +:+ chr 225 +:+ "lida; se esperaba [lon, lat]"
                  +:+ context))
      end
  end.

Definition _validate_coordinates (lib : PyLib) (coordenadas : json)
           (source : string) : pyres (list (list pyfloat)) :=
  let context := if String.eqb source "" then "" else " (" +:+ source +:+ ")" in
  match coordenadas with
  | JList (p0 :: p1 :: rest) => validate_pairs lib context 0 (p0 :: p1 :: rest)
  | _ => Err (invalid_payload
                ("Se requieren al menos dos puntos [lon, lat]" +:+ context))
  end.

(** The sanitized coordinates, as the JSON body sent (and validated again). *)
Definition coords_json (coordenadas : list (list pyfloat)) : json :=
  JList (map (fun par => JList (map JFloat par)) coordenadas).

Definition normalize_allowed_profiles (settings : Settings)
           (allowed_profiles : option (list string)) : list string :=
  let profiles := default (ORS_ALLOWED_PROFILES settings) allowed_profiles in
  let normalized :=
    map (fun profile => str_lower (str_strip profile))
        (filter (fun profile => str_strip profile <> "") profiles) in
  match normalized with
  | [] => [DEFAULT_PROFILE]
  | _ => normalized
  end.

Definition normalize_profile (settings : Settings) (profile : option string)
           (allowed_profiles : option (list string)) : pyres string :=
  let normalized_allowed := normalize_allowed_profiles settings allowed_profiles in
  let fallback := default "" (head normalized_allowed) in
  let candidate :=
    match profile with
    | Some p => if String.eqb (str_strip p) "" then fallback
                else str_lower (str_strip p)
    | None => fallback
    end in
  if bool_decide (candidate ∈ normalized_allowed) then Ok candidate
  else Err (HTTPException 400
              (DetailDict [("code", JStr "invalid_profile");
                           ("allowed", JList (map JStr normalized_allowed));
                           ("received", JStr candidate)])).

(** ** The cache key ([ors_routing.py], [_build_cache_key]) *)

Definition _format_coord_pair (lib : PyLib) (lng lat : pyfloat) : string :=
  format_6f lib lng +:+ "," +:+ format_6f lib lat.

Definition _build_cache_key (lib : PyLib) (profile : string)
           (coordenadas : list (list pyfloat)) (variant : string)
  : pyres string :=
  match head coordenadas, last coordenadas with
  | Some (o0 :: o1 :: _), Some (d0 :: d1 :: _) =>
      let raw_key :=
        variant +:+ "|" +:+ profile +:+ "|" +:+ _format_coord_pair lib o0 o1
        +:+ "|" +:+ _format_coord_pair lib d0 d1 in
      Ok ("route:" +:+ sha256_hexdigest lib raw_key)
  | _, _ => Err ValueError
  end.

(** ** The upstream client ([ors_routing.py], [ORSService._hacer_peticion_ors]) *)

(** What [client.post] gives for one attempt: one of the two exceptions of
    [httpx] that are handled, or a response. [Response] carries its status,
    the JSON its body decodes to ([None] when [response.json()] raises
    [JSONDecodeError]) and its text. [ResponseUndecodable] is a response
    whose body is not text in UTF-8, 16 or 32: [response.json()] raises
    [UnicodeDecodeError], which is no [JSONDecodeError], while
    [response.text] replaces what it cannot decode. *)
Inductive http_reply : Type :=
| TimeoutException
| RequestError
| Response (status_code : Z) (body : option json) (text : string)
| ResponseUndecodable (status_code : Z) (text : string).

(** The provider: its reply to the [attempt]-th request of a call, given the
    profile (which selects the URL) and the coordinates posted. *)
Definition upstream := string -> list (list pyfloat) -> Z -> http_reply.

(** What a call does that can be seen from outside, in order. *)
Inductive event : Type :=
| EvPost (attempt : Z)
| EvSleep (seconds : Q)
| EvCacheGet (key : string)
| EvCacheSet (key : string) (payload : pval) (ttl_seconds : Z)
| EvAcquireLock (key : string)
| EvLockAcquired (key token : string)
| EvReleaseLock (key token : string)
| EvWaitForValue (key : string).

Definition _extract_ors_error_detail (status_code : Z) (body : option json)
           (text : string) : list (string * json) :=
  let detail :=
    [("code", JStr "ors_error");
     ("message", JStr ("OpenRouteService devolvi" +:+ chr 243 +:+ " estado "
                       +:+ str_of_Z status_code));
     ("ors_status", JInt status_code)] in
  match body with
  | None =>
      let body_preview := String.substring 0 200 text in
      if String.eqb body_preview "" then detail
      else dict_set "raw" (JStr body_preview) detail
  | Some (JDict payload) =>
      let detail :=
        match dict_get "error" payload with
        | Some (JDict error_payload) =>
            let detail :=
              match dict_get "message" error_payload with
              | Some (JStr message) =>
                  if String.eqb (str_strip message) "" then detail
                  else dict_set "message" (JStr (str_strip message)) detail
              | _ => detail
              end in
            let detail :=
              match dict_get "code" error_payload with
              | Some (JInt n) => dict_set "ors_code" (JInt n) detail
              | Some (JBool b) => dict_set "ors_code" (JBool b) detail
              | Some (JStr s) => dict_set "ors_code" (JStr s) detail
              | _ => detail
              end in
            match dict_get "details" error_payload with
            | Some (JList l) => dict_set "details" (JList l) detail
            | Some (JDict d) => dict_set "details" (JDict d) detail
            | _ => detail
            end
        | Some (JStr error_payload) =>
            if String.eqb (str_strip error_payload) "" then detail
            else dict_set "message" (JStr (str_strip error_payload)) detail
        | _ => detail
        end in
      let detail :=
        match dict_get "message" detail, dict_get "message" payload with
        | None, Some (JStr m) => dict_set "message" (JStr (str_strip m)) detail
        | _, _ => detail
        end in
      match dict_get "details" detail, dict_get "details" payload with
      | None, Some (JList l) => dict_set "details" (JList l) detail
      | None, Some (JDict d) => dict_set "details" (JDict d) detail
      | _, _ => detail
      end
  | Some _ => detail
  end.

(** [ors_detail.update({"code": code, "message": ors_detail.get("message", dflt)})] *)
Definition with_code (ors_detail : list (string * json)) (code dflt : string)
  : detail :=
  DetailDict
    (dict_update ors_detail
       [("code", JStr code);
        ("message", default (JStr dflt) (dict_get "message" ors_detail))]).

(** [backoff_factor * (2 ** (attempt - 1))]: the power is an [int], which is
    converted to a float for the product, with [OverflowError] when it is
    [2^1024] or more. The product of a double by a power of two is exact,
    unless it is beyond the doubles, and then it is [inf]. *)
Definition backoff_sleep (backoff_factor : Q) (attempt : Z) : pyres pyfloat :=
  if (FLOAT_LIMIT <=? 2 ^ (attempt - 1))%Z then Err OverflowError
  else
    let product := (backoff_factor * inject_Z (2 ^ (attempt - 1)))%Q in
    if Qle_bool (inject_Z FLOAT_LIMIT) product then Ok PosInf
    else if Qle_bool product (- inject_Z FLOAT_LIMIT) then Ok NegInf
    else Ok (Finite product).

(** [x or 1.0] on a float: only zero is falsy. *)
Definition or_one (x : pyfloat) : pyfloat :=
  if float_is_zero x then Finite 1 else x.

(** [x > 0] on a float. *)
Definition float_pos (x : pyfloat) : bool :=
  match x with
  | Finite q => negb (Qle_bool q 0)
  | PosInf => true
  | _ => false
  end.

(** [await asyncio.sleep(delay)]: the sleep it makes when it returns. With
    [inf] the timer never fires and the call stays suspended; a delay that is
    not positive returns at once; [nan] is refused with [ValueError]. *)
Definition asyncio_sleep (delay : pyfloat) : outcome (list event) :=
  match delay with
  | Finite seconds => Return [EvSleep seconds]
  | PosInf => Blocked
  | NegInf => Return []
  | NaN => Raise ValueError
  end.

(** The wait before the next attempt: after a timeout or a connection error
    [guarded] by [if sleep_seconds > 0], after a 429 or a 5xx with the
    fallback [or 1.0]. *)
Definition retry_wait (guarded : bool) (backoff_factor : Q) (attempt : Z)
  : outcome (list event) :=
  match backoff_sleep backoff_factor attempt with
  | Err e => Raise e
  | Ok sleep_seconds =>
      if guarded
      then if float_pos sleep_seconds then asyncio_sleep sleep_seconds
           else Return []
      else asyncio_sleep (or_one sleep_seconds)
  end.

(** The [for attempt in range(1, attempts + 1)] loop, [n] attempts being
    left; it gives the outcome of the call and the requests and sleeps made
    (a sleep is recorded when it ends). A loop that runs out without
    returning makes the function return [None]. *)
Fixpoint peticion_loop (n : nat) (attempt attempts : Z) (backoff_factor : Q)
         (post : Z -> http_reply) : outcome json * list event :=
  match n with
  | O => (Return JNull, [])
  | S n' =>
      let next (guarded : bool) : outcome json * list event :=
        match retry_wait guarded backoff_factor attempt with
        | Return sleeps =>
            let '(r, evs) :=
              peticion_loop n' (attempt + 1) attempts backoff_factor post in
            (r, EvPost attempt :: sleeps ++ evs)
        | Raise e => (Raise e, [EvPost attempt])
        | Blocked => (Blocked, [EvPost attempt])
        end in
      let fail (e : exn) : outcome json * list event :=
        (Raise e, [EvPost attempt]) in
      match post attempt with
      | TimeoutException =>
          if (attempt <? attempts)%Z
          then next true
          else fail (HTTPException 504
                       (DetailDict
                          [("code", JStr "ors_timeout");
                           ("message",
                            JStr "Timeout al conectar con OpenRouteService");
                           ("attempts", JInt attempt)]))
      | RequestError =>
          if (attempt <? attempts)%Z
          then next true
          else fail (HTTPException 502
                       (DetailDict
                          [("code", JStr "ors_connection_error");
                           ("message",
                            JStr ("Error de conexi" +:+ chr 243
                                  +:+ "n con OpenRouteService"));
                           ("attempts", JInt attempt)]))
      | ResponseUndecodable status_code text =>
          (* [response.json()], at line 375 for a 200 and inside
             [_extract_ors_error_detail] otherwise *)
          fail UnicodeDecodeError
      | Response status_code body text =>
          if (status_code =? 200)%Z
          then match body with
               | Some payload => (Return payload, [EvPost attempt])
               | None =>
                   fail (HTTPException 502
                           (DetailDict
                              [("code", JStr "ors_invalid_json");
                               ("message",
                                JStr ("Respuesta inv" +:+ chr 225
                                      +:+ "lida de OpenRouteService"))]))
               end
          else
            let ors_detail := _extract_ors_error_detail status_code body text in
            if (status_code =? 400)%Z
            then fail (HTTPException 400
                         (with_code ors_detail "ors_invalid_request"
                            ("Par" +:+ chr 225 +:+ "metros inv" +:+ chr 225
                             +:+ "lidos en petici" +:+ chr 243
                             +:+ "n a OpenRouteService")))
            else if (status_code =? 401)%Z
            then fail (HTTPException 500
                         (with_code ors_detail "ors_invalid_key"
                            ("API Key de OpenRouteService inv" +:+ chr 225
                             +:+ "lida o expirada")))
            else if (status_code =? 403)%Z
            then fail (HTTPException 503
                         (with_code ors_detail "ors_forbidden"
                            ("OpenRouteService rechaz" +:+ chr 243
                             +:+ " la petici" +:+ chr 243 +:+ "n (forbidden)")))
            else if (status_code =? 429)%Z
            then
              if (attempt <? attempts)%Z
              then next false
              else fail (HTTPException 503
                           (with_code ors_detail "ors_rate_limited"
                              ("L" +:+ chr 237
                               +:+ "mite de solicitudes a OpenRouteService excedido")))
            else if (status_code =? 404)%Z
            then fail (HTTPException 404
                         (with_code ors_detail "ors_not_found"
                            ("OpenRouteService no encontr" +:+ chr 243
                             +:+ " ruta para las coordenadas dadas")))
            else if ((500 <=? status_code) && (status_code <? 600)
                     || bool_decide (status_code ∈ [502; 503; 504]))%Z
            then
              if (attempt <? attempts)%Z
              then next false
              else fail (HTTPException 502
                           (with_code ors_detail "ors_unavailable"
                              ("OpenRouteService no est" +:+ chr 225
                               +:+ " disponible")))
            else fail (HTTPException 502 (DetailDict ors_detail))
      end
  end.

Definition _hacer_peticion_ors (lib : PyLib) (settings : Settings)
           (server : upstream) (coordenadas : list (list pyfloat))
           (profile : string) : outcome json * list event :=
  match _validate_coordinates lib (coords_json coordenadas) "internal" with
  | Err e => (Raise e, [])
  | Ok normalized_coords =>
      let attempts := Z.max 1 (ORS_MAX_RETRIES settings + 1) in
      let backoff_factor := Qmax 0 (ORS_BACKOFF_FACTOR settings) in
      peticion_loop (Z.to_nat attempts) 1 attempts backoff_factor
                    (server profile normalized_coords)
  end.

(** ** The response normalizer ([ors_routing.py]) *)

Definition punto (lat lng : json) : json := JDict [("lat", lat); ("lng", lng)].

(** The two [float] conversions of a point, under one [try] that handles
    [TypeError] and [ValueError] by [on_error]. *)
Definition float_pair (lib : PyLib) (lng lat : json)
           (on_error : pyres (option json)) : pyres (option json) :=
  match py_float lib lng with
  | Ok flng =>
      match py_float lib lat with
      | Ok flat => Ok (Some (punto (JFloat flat) (JFloat flng)))
      | Err TypeError | Err ValueError | Err UnicodeDecodeError => on_error
      | Err e => Err e
      end
  | Err TypeError | Err ValueError | Err UnicodeDecodeError => on_error
  | Err e => Err e
  end.

Definition _extract_step_location (lib : PyLib) (step : list (string * json))
           (ruta_coordenadas : list json) : pyres (option json) :=
  let from_coordinate : pyres (option json) :=
    match dict_get "coordinate" step with
    | Some (JList (c0 :: c1 :: _)) => float_pair lib c0 c1 (Ok None)
    | _ => Ok None
    end in
  let by_index (candidate : Z) : pyres (option json) :=
    if (0 <=? candidate)%Z && (candidate <? Z.of_nat (length ruta_coordenadas))%Z
    then match ruta_coordenadas !! Z.to_nat candidate with
         | Some (JDict coord) =>
             match dict_get "lat" coord, dict_get "lng" coord with
             | Some lat, Some lng =>
                 if is_number lat && is_number lng
                 then float_pair lib lng lat (Err TypeError)
                 else from_coordinate
             | _, _ => from_coordinate
             end
         | _ => from_coordinate
         end
    else from_coordinate in
  match dict_get "way_points" step with
  | Some (JList (JInt candidate :: _)) => by_index candidate
  | Some (JList (JBool b :: _)) => by_index (if b then 1 else 0)
  | _ => from_coordinate
  end.

(** [max(0, int(round(float(x or 0))))], [0] on [TypeError] or [ValueError]. *)
Definition step_quantity (lib : PyLib) (x : json) : pyres Z :=
  let x := if py_truthy x then x else JInt 0 in
  match pybind (py_float lib x) py_round with
  | Ok n => Ok (Z.max 0 n)
  | Err TypeError | Err ValueError | Err UnicodeDecodeError => Ok 0
  | Err e => Err e
  end.

(** The loop of [_parse_steps]; [parsed] is the number of steps kept so far. *)
Fixpoint parse_steps_loop (lib : PyLib) (ruta_coordenadas : list json)
         (idx : Z) (parsed : nat) (raw_steps : list json) : pyres (list json) :=
  match raw_steps with
  | [] => Ok []
  | JDict step :: rest =>
      let texto :=
        _normalize_step_text (default JNull (dict_get "instruction" step))
                             (default JNull (dict_get "name" step)) (idx + 1) in
      pybind (step_quantity lib (default (JInt 0) (dict_get "distance" step)))
        (fun distance =>
      pybind (step_quantity lib (default (JInt 0) (dict_get "duration" step)))
        (fun duration =>
      pybind (_extract_step_location lib step ruta_coordenadas)
        (fun location =>
      let parsed_step :=
        JDict [("orden", JInt idx); ("texto", JStr texto);
               ("distance_m", JInt distance); ("duration_s", JInt duration);
               ("location", default JNull location)] in
      if (MAX_ROUTE_STEPS <=? S parsed)%nat then Ok [parsed_step]
      else pybind (parse_steps_loop lib ruta_coordenadas (idx + 1) (S parsed) rest)
                  (fun more => Ok (parsed_step :: more)))))
  | _ :: rest => parse_steps_loop lib ruta_coordenadas (idx + 1) parsed rest
  end.

Definition _parse_steps (lib : PyLib) (raw_steps : json)
           (ruta_coordenadas : list json) : pyres (list json) :=
  match raw_steps with
  | JList l => parse_steps_loop lib ruta_coordenadas 0 0 l
  | _ => Ok []
  end.

Definition _decodificar_polyline (lib : PyLib) (encoded_polyline : string)
  : pyres (list json) :=
  match polyline_decode lib encoded_polyline with
  | Some coordinates =>
      Ok (map (fun p => punto (JFloat (fst p)) (JFloat (snd p))) coordinates)
  | None =>
      Err (HTTPException 500
             (DetailStr ("Error decodificando geometr" +:+ chr 237
                         +:+ "a de ruta")))
  end.

(** The loop over [geometry["coordinates"]]. *)
Fixpoint geojson_points (coordinates : list json) : pyres (list json) :=
  match coordinates with
  | [] => Ok []
  | coord :: rest =>
      pybind (py_len coord) (fun n =>
      if (2 <=? n)%nat
      then pybind (py_index coord 0) (fun lng =>
           pybind (py_index coord 1) (fun lat =>
           pybind (geojson_points rest) (fun more =>
           Ok (punto lat lng :: more))))
      else geojson_points rest)
  end.

(** The body of the [try] of [_procesar_respuesta_ors]. *)
Definition procesar_body (lib : PyLib) (ors_response : json) : pyres json :=
  match ors_response with
  | JDict response =>
      match dict_get "routes" response with
      | None =>
          Err (HTTPException 500
                 (DetailStr ("Estructura de respuesta inv" +:+ chr 225
                             +:+ "lida de OpenRouteService")))
      | Some routes =>
          if negb (py_truthy routes)
          then Err (HTTPException 404
                      (DetailStr "No se pudo calcular ruta entre las ubicaciones"))
          else
            pybind (py_len routes) (fun n =>
            if (n =? 0)%nat
            then Err (HTTPException 404
                        (DetailStr "No se pudo calcular ruta entre las ubicaciones"))
            else
            pybind (py_index routes 0) (fun route =>
            pybind (py_in "geometry" route) (fun has_geometry =>
            if negb has_geometry
            then Err (HTTPException 500
                        (DetailStr ("Geometr" +:+ chr 237
                                    +:+ "a de ruta no disponible")))
            else
            pybind (py_getitem route "geometry") (fun geometry =>
            pybind
              (match geometry with
              | JStr encoded => _decodificar_polyline lib encoded
              | JDict g =>
                  match dict_get "coordinates" g with
                  | Some coordinates =>
                      pybind (py_iter coordinates) geojson_points
                  | None =>
                      Err (HTTPException 500
                             (DetailStr ("Formato de geometr" +:+ chr 237
                                         +:+ "a no soportado")))
                  end
              | _ =>
                  Err (HTTPException 500
                         (DetailStr ("Formato de geometr" +:+ chr 237
                                     +:+ "a no soportado")))
               end)
              (fun ruta_coordenadas =>
            pybind (py_in "summary" route) (fun has_summary =>
            if negb has_summary
            then Err (HTTPException 500
                        (DetailStr "Resumen de ruta no disponible"))
            else
            pybind (py_getitem route "summary") (fun summary =>
            pybind (pybind (py_get summary "distance" (JInt 0)) (py_int lib))
              (fun distancia_m =>
            pybind (pybind (py_get summary "duration" (JInt 0)) (py_int lib))
              (fun duracion_s =>
            pybind (py_get route "segments" JNull) (fun segments =>
            pybind
              (match segments with
              | JList (JDict seg0 :: _) =>
                  _parse_steps lib (default JNull (dict_get "steps" seg0))
                               ruta_coordenadas
              | JList (_ :: _) => _parse_steps lib JNull ruta_coordenadas
              | _ => Ok []
               end)
              (fun steps =>
            Ok (JDict [("ruta", JList ruta_coordenadas);
                       ("distancia_m", JInt distancia_m);
                       ("duracion_s", JInt duracion_s);
                       ("instrucciones", JList steps);
                       ("steps_count", JInt (Z.of_nat (length steps)));
                       ("current_step_index", JInt 0)]))))))))))))
      end
  | _ =>
      Err (HTTPException 500
             (DetailStr "Formato de respuesta inesperado de OpenRouteService"))
  end.

(** [except (KeyError, IndexError, TypeError, ValueError)]: turned into a
    500 whose detail is a text; anything else goes through. *)
Definition _procesar_respuesta_ors (lib : PyLib) (ors_response : json)
  : pyres json :=
  match procesar_body lib ors_response with
  | Err ((KeyError | IndexError | TypeError | ValueError
          | UnicodeDecodeError) as e) =>
      Err (HTTPException 500
             (DetailStr ("Error procesando respuesta de OpenRouteService: "
                         +:+ str_of_exn lib e)))
  | r => r
  end.

(** ** The orchestrator ([ors_routing.py], [obtener_ruta_ors_por_coordenadas]) *)

(** The state a call runs in: the object heap, the cache service it uses
    ([cache_service], or the singleton of the factory when none is passed;
    [None] when there is none), and the events so far. *)
Record world (S : Type) := {
  w_heap : heap;
  w_cache : option S;
  w_trace : list event
}.
Arguments w_heap {S} w.
Arguments w_cache {S} w.
Arguments w_trace {S} w.

(** Computations of a call: they read and change the world and return, raise
    or stay suspended. *)
Definition M (S A : Type) : Type := world S -> outcome A * world S.

Definition mret {S A} (a : A) : M S A := fun w => (Return a, w).

Definition mraise {S A} (e : exn) : M S A := fun w => (Raise e, w).

Definition mbind {S A B} (m : M S A) (k : A -> M S B) : M S B :=
  fun w =>
    match m w with
    | (Return a, w') => k a w'
    | (Raise e, w') => (Raise e, w')
    | (Blocked, w') => (Blocked, w')
    end.

Notation "'let!' x ':=' m 'in' k" := (mbind m (fun x => k))
  (at level 10, x name, m at level 100, k at level 200).

Notation "'do!' m 'in' k" := (mbind m (fun _ => k))
  (at level 10, m at level 100, k at level 200).

(** [try: m except Exception as exc: handler] *)
Definition try_except {S A} (m : M S A) (handler : exn -> M S A) : M S A :=
  fun w =>
    match m w with
    | (Raise e, w') => handler e w'
    | r => r
    end.

Definition emit {S} (ev : event) : M S unit :=
  fun w => (Return tt, {| w_heap := w_heap w; w_cache := w_cache w;
                          w_trace := w_trace w ++ [ev] |}).

Definition emit_all {S} (evs : list event) : M S unit :=
  fun w => (Return tt, {| w_heap := w_heap w; w_cache := w_cache w;
                          w_trace := w_trace w ++ evs |}).

Definition lift_pyres {S A} (r : pyres A) : M S A :=
  match r with
  | Ok a => mret a
  | Err e => mraise e
  end.

(** The outcome of an awaited call that does not touch the world. *)
Definition lift_outcome {S A} (r : outcome A) : M S A := fun w => (r, w).

(** A method of the cache that works on the heap, and one that does not. *)
Definition call_heap {S A} (op : S -> heap -> outcome A * S * heap) : M S A :=
  fun w =>
    match w_cache w with
    | None => (Raise AttributeError, w)
    | Some c =>
        let '(r, c', h') := op c (w_heap w) in
        (r, {| w_heap := h'; w_cache := Some c'; w_trace := w_trace w |})
    end.

Definition call_cache {S A} (op : S -> outcome A * S) : M S A :=
  call_heap (fun c h => let '(r, c') := op c in (r, c', h)).

(** [deepcopy(v)]; the depth of an object graph without cycles is below the
    number of objects, which bounds the recursion. On a cyclic graph the
    model raises, where Python would copy the cycle. *)
Definition m_deepcopy {S} (v : pval) : M S pval :=
  fun w =>
    match deepcopy (length (w_heap w)) (w_heap w) v with
    | Some (h', v') =>
        (Return v', {| w_heap := h'; w_cache := w_cache w;
                       w_trace := w_trace w |})
    | None => (Raise RuntimeError, w)
    end.

Definition m_alloc {S} (j : json) : M S pval :=
  fun w =>
    let '(h', v) := alloc_json j (w_heap w) in
    (Return v, {| w_heap := h'; w_cache := w_cache w; w_trace := w_trace w |}).

(** [ORSService()]: the constructor checks the configuration; [Some msg] is
    the [ValueError] it raises. *)
Definition ORSService_init (settings : Settings) : option string :=
  if String.eqb (ORS_API_KEY settings) ""
  then Some ("ORS_API_KEY no est" +:+ chr 225
             +:+ " configurada en las variables de entorno")
  else if String.eqb (ORS_BASE_URL settings) ""
  then Some ("ORS_BASE_URL no est" +:+ chr 225
             +:+ " configurada en las variables de entorno")
  else None.

(** [cache is not None and ttl_seconds > 0] *)
Definition caching_enabled {S} (cache : option S) (ttl_seconds : Z) : bool :=
  bool_decide (is_Some cache) && (0 <? ttl_seconds)%Z.

Section Orchestrator.

Context {S : Type} `{CacheService S}.
Variable lib : PyLib.
Variable settings : Settings.
Variable server : upstream.

(** Lines 755-764: the lookup. [inl v]: the call returns [v]; [inr key]: it
    goes on with this [cache_key]. *)
Definition lookup_block (enabled : bool) (normalized_profile : string)
           (sanitized_coords : list (list pyfloat))
  : M S (pval + option string) :=
  if enabled
  then try_except
         (let! cache_key := lift_pyres
            (_build_cache_key lib normalized_profile sanitized_coords "coords") in
          do! emit (EvCacheGet cache_key) in
          let! cached_payload := call_heap (cs_get cache_key) in
          match cached_payload with
          | Some payload => let! copy := m_deepcopy payload in mret (inl copy)
          | None => mret (inr (Some cache_key))
          end)
         (fun exc => mret (inr None))
  else mret (inr None).

(** Lines 769-780: the lock. [inl v]: the call returns [v]; [inr token]: it
    goes on with this [lock_token]. *)
Definition lock_block (enabled : bool) (cache_key : option string)
  : M S (pval + option string) :=
  match enabled, cache_key with
  | true, Some cache_key =>
      try_except
        (do! emit (EvAcquireLock cache_key) in
         let! lock_token := call_cache
           (cs_acquire_lock cache_key (CACHE_LOCK_TIMEOUT_SECONDS settings)) in
         match lock_token with
         | Some token =>
             do! emit (EvLockAcquired cache_key token) in
             mret (inr (Some token))
         | None =>
             do! emit (EvWaitForValue cache_key) in
             let! cached_payload := call_heap (cs_wait_for_value cache_key) in
             match cached_payload with
             | Some payload => let! copy := m_deepcopy payload in mret (inl copy)
             | None => mret (inr None)
             end
         end)
        (fun exc => mret (inr None))
  | _, _ => mret (inr None)
  end.

(** [await cache.release_lock(...)] under its own [try]. *)
Definition release_block (cache_key lock_token : string) : M S unit :=
  try_except
    (do! emit (EvReleaseLock cache_key lock_token) in
     call_cache (cs_release_lock cache_key lock_token))
    (fun exc => mret tt).

(** Lines 804-821: the write to the cache and the release of the lock. *)
Definition store_block (enabled : bool) (ttl_seconds : Z)
           (cache_key lock_token : option string) (resultado : pval)
  : M S unit :=
  match enabled, cache_key with
  | true, Some cache_key =>
      do! try_except
             (do! emit (EvCacheSet cache_key resultado ttl_seconds) in
              call_heap (cs_set cache_key resultado ttl_seconds))
             (fun exc => mret tt) in
      match lock_token with
      | Some token => release_block cache_key token
      | None => mret tt
      end
  | _, _ =>
      fun w =>
        match w_cache w, lock_token, cache_key with
        | Some _, Some token, Some cache_key => release_block cache_key token w
        | _, _, _ => mret tt w
        end
  end.

(** Lines 782-802: the request, the normalization, and the fields added to
    the result, which is then an object of the heap. *)
Definition resolve_block (normalized_profile : string)
           (sanitized_coords : list (list pyfloat)) : M S pval :=
  do! match ORSService_init settings with
      | Some msg => mraise (HTTPException 500 (DetailStr msg))
      | None => mret tt
      end in
  let '(response, evs) :=
    _hacer_peticion_ors lib settings server sanitized_coords normalized_profile in
  do! emit_all evs in
  let! ors_response := lift_outcome response in
  let! resultado := lift_pyres (_procesar_respuesta_ors lib ors_response) in
  match resultado, head sanitized_coords, last sanitized_coords with
  | JDict d, Some (o0 :: o1 :: _), Some (d0 :: d1 :: _) =>
      let d := dict_set "origen" (punto (JFloat o1) (JFloat o0)) d in
      let d := dict_set "destino" (punto (JFloat d1) (JFloat d0)) d in
      let d := dict_set "perfil" (JStr normalized_profile) d in
      m_alloc (JDict d)
  | JDict _, _, _ => mraise IndexError
  | _, _, _ => mraise TypeError
  end.

Definition obtener_ruta_ors_por_coordenadas (coordenadas : json)
           (profile : option string) (cache_ttl : option Z)
           (allowed_profiles : option (list string)) : M S pval :=
  let! sanitized_coords := lift_pyres (_validate_coordinates lib coordenadas "payload") in
  let ttl_seconds := _resolve_cache_ttl settings cache_ttl in
  let! normalized_profile := lift_pyres
    (normalize_profile settings profile allowed_profiles) in
  fun w =>
  let enabled := caching_enabled (w_cache w) ttl_seconds in
  (let! looked := lookup_block enabled normalized_profile sanitized_coords in
   match looked with
   | inl copy => mret copy
   | inr cache_key =>
       let! cache_key :=
         match enabled, cache_key with
         | true, None =>
             let! key := lift_pyres
               (_build_cache_key lib normalized_profile sanitized_coords "coords") in
             mret (Some key)
         | _, _ => mret cache_key
         end in
       let! locked := lock_block enabled cache_key in
       match locked with
       | inl copy => mret copy
       | inr lock_token =>
           let! resultado := resolve_block normalized_profile sanitized_coords in
           do! store_block enabled ttl_seconds cache_key lock_token resultado in
           m_deepcopy resultado
       end
   end) w.

End Orchestrator.

(** ** Observations on the events of a call *)

(** The events of the upstream client. *)
Definition is_client_event (ev : event) : bool :=
  match ev with
  | EvPost _ | EvSleep _ => true
  | _ => false
  end.

Definition is_post (ev : event) : bool :=
  match ev with
  | EvPost _ => true
  | _ => false
  end.

Definition is_cache_write (ev : event) : bool :=
  match ev with
  | EvCacheSet _ _ _ => true
  | _ => false
  end.

Definition is_release (ev : event) : bool :=
  match ev with
  | EvReleaseLock _ _ => true
  | _ => false
  end.

(** The sleeps of a call, in order. *)
Fixpoint sleeps_of (evs : list event) : list Q :=
  match evs with
  | [] => []
  | EvSleep s :: r => s :: sleeps_of r
  | _ :: r => sleeps_of r
  end.

(** Each sleep is strictly longer than the one before. *)
Fixpoint strictly_increasing (l : list Q) : Prop :=
  match l with
  | a :: ((b :: _) as r) => (a < b)%Q /\ strictly_increasing r
  | _ => True
  end.

(** ** Shapes of error details *)

(** A dict with a string under ["code"] and a non-empty string under
    ["message"]. *)
Definition has_code_and_message (d : detail) : Prop :=
  exists items code message,
    d = DetailDict items /\
    dict_get "code" items = Some (JStr code) /\
    dict_get "message" items = Some (JStr message) /\ message <> "".

(** A detail dict with a code and a non-empty message. *)
Definition good_detail (d : list (string * json)) : Prop :=
  exists code message,
    dict_get "code" d = Some (JStr code) /\
    dict_get "message" d = Some (JStr message) /\ message <> "".

(** An exception that is not an HTTP error with a dict for detail: its
    detail, if it has one, is a text. *)
Definition text_detail_exn (e : exn) : Prop :=
  match e with
  | HTTPException _ (DetailDict _) => False
  | _ => True
  end.

Definition text_detail_res {A} (r : pyres A) : Prop :=
  match r with
  | Err e => text_detail_exn e
  | Ok _ => True
  end.

(** The detail of the error of [normalize_profile]: a code, the allow-list
    and the value received, and no message. *)
Definition is_invalid_profile_detail (d : detail) : Prop :=
  exists allowed received,
    d = DetailDict [("code", JStr "invalid_profile");
                    ("allowed", JList (map JStr allowed));
                    ("received", JStr received)].

(** ** Library functions for the examples *)

(** [f"{x:.6f}"] on the floats of the model. *)
Definition format_6f_exact (f : pyfloat) : string :=
  match f with
  | Finite q =>
      let n := Z.abs (round_half_even (q * inject_Z (10 ^ 6))) in
      let frac := str_of_Z (10 ^ 6 + n mod 10 ^ 6) in
      (if Qle_bool 0 q then "" else "-")
      +:+ str_of_Z (n / 10 ^ 6) +:+ "."
      +:+ String.substring 1 6 frac
  | PosInf => "inf"
  | NegInf => "-inf"
  | NaN => "nan"
  end.

(** For the examples, strings are never numbers, polylines never decode and
    the digest is the text itself (any injective function would do). *)
Definition lib_test : PyLib :=
  {| float_of_str := fun _ => None;
     int_of_str := fun _ => None;
     sha256_hexdigest := fun s => s;
     format_6f := format_6f_exact;
     polyline_decode := fun _ => None;
     str_of_exn := fun _ => "error" |}.

Definition coord (lon lat : Q) : json :=
  JList [JFloat (Finite lon); JFloat (Finite lat)].

(** The request of the tests: from (-110.0, 29.0) to (-110.1, 29.1). *)
Definition coords_test : json :=
  JList [coord (-110) 29; coord (-1101 # 10) (291 # 10)].

(** The same end points through a waypoint. *)
Definition coords_test_via : json :=
  JList [coord (-110) 29; coord (-11005 # 100) (2905 # 100);
         coord (-1101 # 10) (291 # 10)].

(** A provider that has no route ([404]), and one that always answers
    [503]. *)
Definition server_404 : upstream :=
  fun _ _ _ => Response 404 None "Not Found".

Definition server_503 : upstream :=
  fun _ _ _ => Response 503 None "Service Unavailable".

(** A provider that answers with a two-point route. *)
Definition route_response : json :=
  JDict [("routes",
          JList [JDict [("geometry",
                         JDict [("coordinates",
                                 JList [coord (-110) 29;
                                        coord (-1101 # 10) (291 # 10)])]);
                        ("summary",
                         JDict [("distance", JInt 80); ("duration", JInt 40)]);
                        ("segments", JList [JDict []])]])].

Definition server_ok : upstream :=
  fun _ _ _ => Response 200 (Some route_response) "".

Definition world0 {S} (cache : option S) : world S :=
  {| w_heap := []; w_cache := cache; w_trace := [] |}.

(** ** What the upstream client is expected to do under a failing provider *)

(** Every reply of the provider is a response with a 5xx status. *)
Definition always_5xx (post : Z -> http_reply) : Prop :=
  forall attempt, exists status_code body text,
    post attempt = Response status_code body text /\
    500 <= status_code < 600.

(** The sleep after the failed attempt [attempt], before the next one:
    [backoff_factor * 2 ** (attempt - 1)], or one second when that is zero. *)
Definition retry_sleep (backoff_factor : Q) (attempt : Z) : Q :=
  let product := (backoff_factor * inject_Z (2 ^ (attempt - 1)))%Q in
  if Qeq_bool product 0 then 1%Q else product.

(** The requests and sleeps of [n] failed attempts, from [attempt] on: a
    sleep after each request but the last. *)
Fixpoint retry_events (n : nat) (attempt : Z) (backoff_factor : Q) : list event :=
  match n with
  | O => []
  | S O => [EvPost attempt]
  | S n' =>
      EvPost attempt :: EvSleep (retry_sleep backoff_factor attempt)
      :: retry_events n' (attempt + 1) backoff_factor
  end.

(** The sleep computed after the attempt [attempt] is a finite double: the
    power of two can be converted to a float, and the product is below
    [2^1024]. *)
Definition sleep_in_range (backoff_factor : Q) (attempt : Z) : Prop :=
  2 ^ (attempt - 1) < FLOAT_LIMIT /\
  (backoff_factor * inject_Z (2 ^ (attempt - 1)) < inject_Z FLOAT_LIMIT)%Q.

(** The configuration keeps every sleep of the client a finite double: at
    most 1024 retries, and the longest sleep, the one before the last retry,
    below [2^1024] seconds. *)
Definition backoff_in_range (settings : Settings) : Prop :=
  ORS_MAX_RETRIES settings <= 1024 /\
  (Qmax 0 (ORS_BACKOFF_FACTOR settings)
   * inject_Z (2 ^ (ORS_MAX_RETRIES settings - 1)) < inject_Z FLOAT_LIMIT)%Q.

(** The settings of the tests with a backoff factor of 0. *)
Definition settings_no_backoff : Settings :=
  {| ORS_API_KEY := "key"; ORS_BASE_URL := "https://ors/v2/directions/foot-walking";
     ORS_MAX_RETRIES := 2; ORS_BACKOFF_FACTOR := 0;
     ORS_ALLOWED_PROFILES := ["foot-walking"; "driving-car"; "cycling-regular"];
     CACHE_TTL_SECONDS := 10; CACHE_MAX_TTL_SECONDS := 60;
     CACHE_LOCK_TIMEOUT_SECONDS := 30 |}.

(** Settings with 1025 retries and no backoff. *)
Definition settings_many_retries : Settings :=
  {| ORS_API_KEY := "key"; ORS_BASE_URL := "https://ors/v2/directions/foot-walking";
     ORS_MAX_RETRIES := 1025; ORS_BACKOFF_FACTOR := 0;
     ORS_ALLOWED_PROFILES := ["foot-walking"; "driving-car"; "cycling-regular"];
     CACHE_TTL_SECONDS := 10; CACHE_MAX_TTL_SECONDS := 60;
     CACHE_LOCK_TIMEOUT_SECONDS := 30 |}.

(** The sanitized coordinates of [coords_test]. *)
Definition sanitized_test : list (list pyfloat) :=
  [[Finite (-110); Finite 29]; [Finite (-1101 # 10); Finite (291 # 10)]].

(** ** Observations on step texts *)

(** White space is collapsed: every white-space character is a single
    space, and the character after it, if any, is not white space. *)
Fixpoint ws_collapsed (s : list ascii) : Prop :=
  match s with
  | [] => True
  | c :: r =>
      (PyStr.isspace c = true ->
       c = " "%char /\
       match r with
       | [] => True
       | d :: _ => PyStr.isspace d = false
       end) /\
      ws_collapsed r
  end.

(** The instruction the name may be appended to: the stripped instruction,
    or the generic ["Paso <n>"]. *)
Definition step_base (instruction : json) (step_index : Z) : list ascii :=
  match stripped_if_str instruction with
  | [] => PyStr.chars "Paso " ++ PyStr.str_of_int step_index
  | raw_instruction => raw_instruction
  end.

(** Neither the first nor the last character is white space. *)
Definition stripped (s : list ascii) : Prop :=
  (forall c, head s = Some c -> PyStr.isspace c = false) /\
  (forall c, last s = Some c -> PyStr.isspace c = false).

(** An instruction of 300 letters. *)
Definition long_instruction : json :=
  JStr (PyStr.of_chars (repeat "a"%char 300)).

(** ** Observations on what a call raises *)

(** Every exception a computation raises satisfies [P]. *)
Definition raises_only {S A} (P : exn -> Prop) (m : M S A) : Prop :=
  forall w e w', m w = (Raise e, w') -> P e.

(** The three shapes the detail of an HTTP error of the subsystem has. *)
Definition detail_shape (d : detail) : Prop :=
  has_code_and_message d \/ is_invalid_profile_detail d \/
  exists s, d = DetailStr s.

Definition error_shape (e : exn) : Prop :=
  match e with
  | HTTPException _ d => detail_shape d
  | _ => True
  end.

(** ** Observations on the events of the orchestrator *)

(** A computation only adds events, and all of them satisfy [Q]. *)
Definition emits_only {S A} (Q : event -> Prop) (m : M S A) : Prop :=
  forall w r w', m w = (r, w') ->
    exists evs, w_trace w' = w_trace w ++ evs /\ Forall Q evs.

(** Neither a write to the cache nor a release of a lock. *)
Definition quiet (ev : event) : Prop :=
  is_cache_write ev = false /\ is_release ev = false.

(** Quiet, and not the acquisition of a lock either. *)
Definition before_lock (ev : event) : Prop :=
  quiet ev /\ forall key token, ev <> EvLockAcquired key token.

(** The configuration is there, and the upstream request, or else the
    normalization of its response, fails with the error [e]. *)
Definition upstream_fails (lib : PyLib) (settings : Settings) (server : upstream)
           (coordenadas : list (list pyfloat)) (profile : string) (e : exn)
  : Prop :=
  ORSService_init settings = None /\
  ((exists evs,
       _hacer_peticion_ors lib settings server coordenadas profile = (Raise e, evs)) \/
   (exists ors_response evs,
       _hacer_peticion_ors lib settings server coordenadas profile
         = (Return ors_response, evs) /\
       _procesar_respuesta_ors lib ors_response = Err e)).

(** ** A failing provider behind the local backend *)

(** The error of the client when the provider answers [404 Not Found]. *)
Definition error_404 : exn :=
  HTTPException 404
    (with_code (_extract_ors_error_detail 404 None "Not Found")
       "ors_not_found"
       ("OpenRouteService no encontr" +:+ chr 243
        +:+ " ruta para las coordenadas dadas")).

(** The key of the request of the tests under [lib_test]. *)
Definition key_test : string :=
  "route:coords|foot-walking|-110.000000,29.000000|-110.100000,29.100000".

(** The request of the tests against a provider without route, with the
    local backend as cache. *)
Definition failing_call : M SQLiteCache pval :=
  obtener_ruta_ors_por_coordenadas lib_test settings_test server_404
    coords_test None None None.

(** A Redis server that answers and holds nothing yet. *)
Definition redis_empty : RedisCache :=
  {| redis_data := ∅; redis_now := 0; redis_up := true; uuid_counter := 0 |}.

(** The nesting depth of a JSON tree: atoms have depth 0. *)
Fixpoint json_depth (j : json) : nat :=
  match j with
  | JList l => S (list_max (map json_depth l))
  | JDict d => S (list_max (map (fun kv => json_depth (snd kv)) d))
  | _ => O
  end.

(** What building a JSON tree in the heap is to give: the heap grows at its
    end, by at least the depth of the tree, and the new value reads back as
    the tree. *)
Definition alloc_ok (j : json) : Prop :=
  forall h, exists ext,
    (alloc_json j h).1 = h ++ ext /\ (json_depth j <= length ext)%nat /\
    reify (json_depth j) (h ++ ext) (alloc_json j h).2 = Some j.

(** A heap that holds one small payload, at address 0, and the document it
    reads as. *)
Definition heap_test : heap := [ODict [("perfil", VStr "foot-walking")]].

Definition data_test : json := JDict [("perfil", JStr "foot-walking")].

(** A pair of finite floats, a longitude and a latitude in their ranges. *)
Definition valid_pair (par : list pyfloat) : Prop :=
  exists lon lat : Q,
    par = [Finite lon; Finite lat] /\
    (-180 <= lon)%Q /\ (lon <= 180)%Q /\ (-90 <= lat)%Q /\ (lat <= 90)%Q.

(** Two lists of pairs whose first pairs, and whose last pairs, are written
    alike by [f"{x:.6f}"]. *)
Definition same_endpoints (lib : PyLib) (c1 c2 : list (list pyfloat)) : Prop :=
  match head c1, head c2, last c1, last c2 with
  | Some (a0 :: a1 :: _), Some (b0 :: b1 :: _),
    Some (y0 :: y1 :: _), Some (z0 :: z1 :: _) =>
      format_6f lib a0 = format_6f lib b0 /\ format_6f lib a1 = format_6f lib b1 /\
      format_6f lib y0 = format_6f lib z0 /\ format_6f lib y1 = format_6f lib z1
  | _, _, _, _ => False
  end.

(** The sanitized coordinates of [coords_test_via]. *)
Definition sanitized_test_via : list (list pyfloat) :=
  [[Finite (-110); Finite 29]; [Finite (-11005 # 100); Finite (2905 # 100)];
   [Finite (-1101 # 10); Finite (291 # 10)]].

(** A profile in the form [normalize_profile] gives it a result: stripped,
    in lower case and not empty. *)
Definition canonical_profile (p : string) : Prop :=
  str_strip p = p /\ str_lower p = p /\ p <> "".

(** The attempts posted by a call, in order. *)
Fixpoint posts_of (evs : list event) : list Z :=
  match evs with
  | [] => []
  | EvPost attempt :: r => attempt :: posts_of r
  | _ :: r => posts_of r
  end.

(** [list(range(first, first + n))] *)
Fixpoint py_range (first : Z) (n : nat) : list Z :=
  match n with
  | O => []
  | S n' => first :: py_range (first + 1) n'
  end.

(** What one run of the loop with [S n] attempts left gives: it posts the
    attempts from [attempt] on, one after the other, up to some attempt that
    is its last event; it sleeps at most once between two posts; and it
    returns a payload only when that last attempt was answered 200 with it. *)
Definition loop_outcome (post : Z -> http_reply) (attempt : Z) (n : nat)
           (r : outcome json) (evs : list event) : Prop :=
  exists k : nat,
    (k <= n)%nat /\
    posts_of evs = py_range attempt (S k) /\
    last evs = Some (EvPost (attempt + Z.of_nat k)) /\
    (length (sleeps_of evs) <= k)%nat /\
    match r with
    | Return payload =>
        exists text, post (attempt + Z.of_nat k) = Response 200 (Some payload) text
    | _ => True
    end.

(** The statuses of the provider that end a call at once, with the status
    and the code of the error raised for each. *)
Definition final_status (status_code : Z) : option (Z * string) :=
  if status_code =? 400 then Some (400, "ors_invalid_request")
  else if status_code =? 401 then Some (500, "ors_invalid_key")
  else if status_code =? 403 then Some (503, "ors_forbidden")
  else if status_code =? 404 then Some (404, "ors_not_found")
  else None.

(** Parsed steps: each one a dict of the five fields, with an [orden] from
    [first] on and below [bound], larger than the one before it, and a
    distance and a duration that are not negative. *)
Fixpoint steps_from (first bound : Z) (steps : list json) : Prop :=
  match steps with
  | [] => True
  | step :: rest =>
      exists (orden distance duration : Z) (texto : string) (location : json),
        step = JDict [("orden", JInt orden); ("texto", JStr texto);
                      ("distance_m", JInt distance); ("duration_s", JInt duration);
                      ("location", location)] /\
        first <= orden < bound /\ 0 <= distance /\ 0 <= duration /\
        steps_from (orden + 1) bound rest
  end.

(** Raw steps as the provider sends them: a step, something that is not a
    step, and a step with a negative distance. *)
Definition steps_test : json :=
  JList [JDict [("instruction", JStr "Gira a la derecha");
                ("name", JStr "Pasillo A");
                ("distance", JFloat (Finite (253 # 10)));
                ("duration", JInt 12);
                ("way_points", JList [JInt 0; JInt 1])];
         JStr "no es un paso";
         JDict [("distance", JInt (-3))]].

(** ** What the normalizer gives *)

(** An HTTP error of the normalizer has status 404 or 500. *)
Definition normalizer_status (e : exn) : Prop :=
  match e with
  | HTTPException status_code _ => status_code = 404 \/ status_code = 500
  | _ => True
  end.

Definition status_res {A} (r : pyres A) : Prop :=
  match r with
  | Err e => normalizer_status e
  | Ok _ => True
  end.

(** A normalized route: the six fields, in this order, with as many
    [instrucciones] as [steps_count] says, at most [MAX_ROUTE_STEPS], and the
    first step as the current one. *)
Definition is_route (result : json) : Prop :=
  exists (ruta_coordenadas steps : list json) (distancia_m duracion_s : Z),
    result = JDict [("ruta", JList ruta_coordenadas);
                    ("distancia_m", JInt distancia_m);
                    ("duracion_s", JInt duracion_s);
                    ("instrucciones", JList steps);
                    ("steps_count", JInt (Z.of_nat (length steps)));
                    ("current_step_index", JInt 0)] /\
    (length steps <= MAX_ROUTE_STEPS)%nat.

Definition normalized_ok (r : pyres json) : Prop :=
  match r with
  | Ok result => is_route result
  | Err e => normalizer_status e
  end.

(** A value that refers to nothing below the address [n]. *)
Definition fresh_from (n : nat) (v : pval) : Prop :=
  match v with
  | VRef l => (n <= l)%nat
  | _ => True
  end.

(** What [deepcopy] is to give on a value that reads as a tree: the heap
    grows at its end, the copy reads as the same tree, and it is an atom or a
    new address. *)
Definition copy_ok (fuel : nat) : Prop :=
  forall (h : heap) (v : pval) (j : json),
    reify fuel h v = Some j ->
    exists (ext : heap) (v' : pval),
      deepcopy fuel h v = Some (h ++ ext, v') /\
      reify fuel (h ++ ext) v' = Some j /\
      fresh_from (length h) v'.

(** The raw steps that are dicts, each with its index in the raw list,
    counted from [idx]. *)
Fixpoint dict_steps (idx : Z) (raw_steps : list json)
  : list (Z * list (string * json)) :=
  match raw_steps with
  | [] => []
  | JDict step :: rest => (idx, step) :: dict_steps (idx + 1) rest
  | _ :: rest => dict_steps (idx + 1) rest
  end.

(** [parsed] is what [_parse_steps] makes of the raw step [step] found at
    the index [idx]: the index as [orden], the text of
    [_normalize_step_text] for the step number [idx + 1], the two
    quantities, which are not negative, and the location. *)
Definition is_parsed_step (lib : PyLib) (ruta_coordenadas : list json)
           (indexed : Z * list (string * json)) (parsed : json) : Prop :=
  let '(idx, step) := indexed in
  exists (distance duration : Z) (location : option json),
    step_quantity lib (default (JInt 0) (dict_get "distance" step)) = Ok distance /\
    step_quantity lib (default (JInt 0) (dict_get "duration" step)) = Ok duration /\
    _extract_step_location lib step ruta_coordenadas = Ok location /\
    0 <= distance /\ 0 <= duration /\
    parsed =
    JDict [("orden", JInt idx);
           ("texto",
            JStr (_normalize_step_text
                    (default JNull (dict_get "instruction" step))
                    (default JNull (dict_get "name" step)) (idx + 1)));
           ("distance_m", JInt distance); ("duration_s", JInt duration);
           ("location", default JNull location)].

(** A provider whose 503 comes with a body that is not UTF-8. *)
Definition server_undecodable : upstream :=
  fun _ _ _ => ResponseUndecodable 503 "?".

(* ===================================================================== *)
(** * Part II: properties                                                 *)
(* ===================================================================== *)

(** ** Cache locks *)

Section LockProperties.

Implicit Types (c : SQLiteCache) (key token : string).

Lemma sqlite_lock_free_cases c key :
  default false (_locks c !! key) = false <->
  _locks c !! key = None \/ _locks c !! key = Some false.
Proof.
  destruct (_locks c !! key) as [[|]|]; simpl; split; intros H;
    try destruct H; try discriminate; auto.
Qed.

End LockProperties.

(** C2, as stated, fails for the local backend: on a key whose lock is held,
    [SQLiteCache.acquire_lock] does not return [None]; the call stays
    suspended in [lock.acquire()]. *)
Lemma C2_counterexample :
  _locks sqlite_held !! "route:k" = Some true /\
  fst (SQLiteCache_acquire_lock "route:k" 30 sqlite_held) <> Return None /\
  fst (SQLiteCache_acquire_lock "route:k" 30 sqlite_held) = Blocked.
Proof.
  split; [vm_compute; reflexivity|].
  split; [vm_compute; discriminate | vm_compute; reflexivity].
Qed.

(** C2, amended (local backend). [SQLiteCache.acquire_lock] on a key whose
    lock is held does not return [None]: it waits in [lock.acquire()] for
    the holder to release, and the backend is left as it was. On a free lock
    it returns the key as token and the lock is held afterwards. *)
Theorem C2_sqlite_acquire_lock_waits_when_held :
  forall (c : SQLiteCache) (key : string) (ttl_seconds : Z),
    (_locks c !! key = Some true ->
     fst (SQLiteCache_acquire_lock key ttl_seconds c) = Blocked /\
     _locks (snd (SQLiteCache_acquire_lock key ttl_seconds c)) = _locks c) /\
    (_locks c !! key <> Some true ->
     fst (SQLiteCache_acquire_lock key ttl_seconds c) = Return (Some key) /\
     _locks (snd (SQLiteCache_acquire_lock key ttl_seconds c)) !! key = Some true).
Proof.
  intros c key ttl. unfold SQLiteCache_acquire_lock, Lock_acquire. split.
  - intros H. rewrite H. simpl. split; [reflexivity|].
    apply insert_id. exact H.
  - intros H. destruct (_locks c !! key) as [[|]|] eqn:E; try congruence;
      simpl; (split; [reflexivity | apply lookup_insert_eq]).
Qed.

(** C10. [SQLiteCache.release_lock] frees a held lock whatever the token, and
    returns without raising, leaving the backend as it was, when the lock
    does not exist or is free. *)
Theorem C10_sqlite_release_lock_ignores_token :
  forall (c : SQLiteCache) (key token : string),
    fst (SQLiteCache_release_lock key token c) = Return tt /\
    (_locks c !! key = Some true ->
     _locks (snd (SQLiteCache_release_lock key token c)) !! key = Some false) /\
    (_locks c !! key <> Some true ->
     snd (SQLiteCache_release_lock key token c) = c) /\
    (forall token', SQLiteCache_release_lock key token' c
                    = SQLiteCache_release_lock key token c).
Proof.
  intros c key token. unfold SQLiteCache_release_lock, Lock_locked, Lock_release.
  destruct (_locks c !! key) as [[|]|] eqn:E; simpl;
    (split; [reflexivity|]); (split; [|split]); intros; try done.
  apply lookup_insert_eq.
Qed.

Lemma C2_sqlite_acquire_lock_waits_when_held_witness :
  fst (SQLiteCache_acquire_lock "route:k" 30 sqlite_held) = Blocked /\
  fst (SQLiteCache_acquire_lock "route:k" 30 sqlite_empty) = Return (Some "route:k").
Proof.
  split.
  - apply (C2_sqlite_acquire_lock_waits_when_held sqlite_held "route:k" 30).
    vm_compute. reflexivity.
  - apply (C2_sqlite_acquire_lock_waits_when_held sqlite_empty "route:k" 30).
    vm_compute. discriminate.
Defined.

Lemma C10_sqlite_release_lock_ignores_token_witness :
  _locks (snd (SQLiteCache_release_lock "route:k" "not-the-token" sqlite_held))
    !! "route:k" = Some false /\
  snd (SQLiteCache_release_lock "route:k" "any" sqlite_empty) = sqlite_empty.
Proof.
  split.
  - apply (C10_sqlite_release_lock_ignores_token sqlite_held "route:k").
    vm_compute. reflexivity.
  - apply (C10_sqlite_release_lock_ignores_token sqlite_empty "route:k").
    vm_compute. discriminate.
Defined.

(** ** Generic facts on dicts *)

Lemma dict_get_set_eq {A} (k : string) (v : A) (d : list (string * A)) :
  dict_get k (dict_set k v d) = Some v.
Proof.
  induction d as [|[k' v'] d IH]; simpl.
  - rewrite String.eqb_refl. reflexivity.
  - destruct (String.eqb k k') eqn:E; simpl.
    + rewrite String.eqb_refl. reflexivity.
    + rewrite E. exact IH.
Qed.

Lemma dict_get_set_ne {A} (k k' : string) (v : A) (d : list (string * A)) :
  k <> k' -> dict_get k (dict_set k' v d) = dict_get k d.
Proof.
  intros Hne. induction d as [|[k0 v0] d IH]; simpl.
  - destruct (String.eqb k k') eqn:E; [|reflexivity].
    apply String.eqb_eq in E. contradiction.
  - destruct (String.eqb k' k0) eqn:E'; simpl.
    + apply String.eqb_eq in E'. subst k0.
      destruct (String.eqb k k') eqn:E; [|reflexivity].
      apply String.eqb_eq in E. contradiction.
    + destruct (String.eqb k k0); [reflexivity | exact IH].
Qed.

(** ** Retries of the upstream client *)

Lemma with_code_code (ors_detail : list (string * json)) (code dflt : string) :
  exists d, with_code ors_detail code dflt = DetailDict d /\
            dict_get "code" d = Some (JStr code).
Proof.
  unfold with_code, dict_update. simpl. eexists. split; [reflexivity|].
  rewrite dict_get_set_ne by discriminate. apply dict_get_set_eq.
Qed.

Section Retries.

Variable backoff_factor : Q.
Variable post : Z -> http_reply.
Hypothesis Hfactor : (0 <= backoff_factor)%Q.
Hypothesis Hpost : always_5xx post.

(** A sleep in range, with the fallback of one second, is made and ends. *)
Lemma retry_wait_in_range (attempt : Z) :
  sleep_in_range backoff_factor attempt ->
  retry_wait false backoff_factor attempt
  = Return [EvSleep (retry_sleep backoff_factor attempt)].
Proof.
  intros [Hpow Hprod]. unfold retry_wait, backoff_sleep, retry_sleep.
  destruct (Z.leb_spec FLOAT_LIMIT (2 ^ (attempt - 1))) as [Hge|_]; [lia|].
  set (product := (backoff_factor * inject_Z (2 ^ (attempt - 1)))%Q) in *.
  assert (Hnonneg : (0 <= product)%Q).
  { apply Qmult_le_0_compat; [exact Hfactor|].
    change 0%Q with (inject_Z 0). rewrite <- Zle_Qle. apply Z.pow_nonneg. lia. }
  destruct (Qle_bool (inject_Z FLOAT_LIMIT) product) eqn:E1.
  { apply Qle_bool_iff in E1. exfalso. apply (Qlt_irrefl product).
    eapply Qlt_le_trans; [exact Hprod | exact E1]. }
  destruct (Qle_bool product (- inject_Z FLOAT_LIMIT)) eqn:E2.
  { apply Qle_bool_iff in E2. exfalso.
    assert (Hlim : (- inject_Z FLOAT_LIMIT < 0)%Q) by reflexivity.
    apply (Qlt_irrefl 0). eapply Qle_lt_trans; [exact Hnonneg|].
    eapply Qle_lt_trans; [exact E2 | exact Hlim]. }
  unfold or_one. cbn [float_is_zero].
  destruct (Qeq_bool product 0); reflexivity.
Qed.

(** One turn of the loop on a 5xx response. *)
Lemma peticion_loop_step_5xx (n : nat) (attempt attempts st : Z)
      (body : option json) (text : string) :
  post attempt = Response st body text ->
  500 <= st < 600 ->
  sleep_in_range backoff_factor attempt ->
  peticion_loop (S n) attempt attempts backoff_factor post =
  if attempt <? attempts
  then (let '(r, evs) :=
          peticion_loop n (attempt + 1) attempts backoff_factor post in
        (r, EvPost attempt
              :: [EvSleep (retry_sleep backoff_factor attempt)] ++ evs))
  else (Raise (HTTPException 502
                 (with_code (_extract_ors_error_detail st body text)
                    "ors_unavailable"
                    ("OpenRouteService no est" +:+ chr 225 +:+ " disponible"))),
        [EvPost attempt]).
Proof.
  intros Hp Hst Hrange. cbn [peticion_loop]. rewrite Hp.
  destruct (Z.eqb_spec st 200); [lia|].
  destruct (Z.eqb_spec st 400); [lia|].
  destruct (Z.eqb_spec st 401); [lia|].
  destruct (Z.eqb_spec st 403); [lia|].
  destruct (Z.eqb_spec st 429); [lia|].
  destruct (Z.eqb_spec st 404); [lia|].
  replace (500 <=? st) with true by (symmetry; apply Z.leb_le; lia).
  replace (st <? 600) with true by (symmetry; apply Z.ltb_lt; lia).
  cbn [andb orb]. rewrite (retry_wait_in_range _ Hrange). reflexivity.
Qed.

(** Under a provider that always answers 5xx, the loop makes every attempt
    it has left, sleeps between two attempts, and ends with the error of the
    last attempt. *)
Lemma peticion_loop_5xx (n : nat) :
  forall attempt attempts,
    attempts = attempt + Z.of_nat n ->
    (forall a, attempt <= a < attempts -> sleep_in_range backoff_factor a) ->
    exists d,
      peticion_loop (S n) attempt attempts backoff_factor post
      = (Raise (HTTPException 502 (DetailDict d)),
         retry_events (S n) attempt backoff_factor) /\
      dict_get "code" d = Some (JStr "ors_unavailable").
Proof.
  induction n as [|n IH]; intros attempt attempts Hatt Hrange;
    destruct (Hpost attempt) as (st & body & text & Hp & Hst).
  - cbn [peticion_loop]. rewrite Hp.
    destruct (Z.eqb_spec st 200); [lia|].
    destruct (Z.eqb_spec st 400); [lia|].
    destruct (Z.eqb_spec st 401); [lia|].
    destruct (Z.eqb_spec st 403); [lia|].
    destruct (Z.eqb_spec st 429); [lia|].
    destruct (Z.eqb_spec st 404); [lia|].
    replace (500 <=? st) with true by (symmetry; apply Z.leb_le; lia).
    replace (st <? 600) with true by (symmetry; apply Z.ltb_lt; lia).
    cbn [andb orb].
    replace (attempt <? attempts) with false by (symmetry; apply Z.ltb_ge; lia).
    destruct (with_code_code (_extract_ors_error_detail st body text)
                "ors_unavailable"
                ("OpenRouteService no est" +:+ chr 225 +:+ " disponible"))
      as (d & Hd & Hc).
    exists d. rewrite Hd. split; [reflexivity | exact Hc].
  - rewrite (peticion_loop_step_5xx _ _ _ _ _ _ Hp Hst) by (apply Hrange; lia).
    destruct (IH (attempt + 1) attempts ltac:(lia)
                 ltac:(intros a Ha; apply Hrange; lia))
      as (d & Hloop & Hc).
    replace (attempt <? attempts) with true by (symmetry; apply Z.ltb_lt; lia).
    rewrite Hloop. exists d. split; [reflexivity | exact Hc].
Qed.

Lemma retry_events_posts (n : nat) :
  forall attempt,
    posts_of (retry_events n attempt backoff_factor) = py_range attempt n.
Proof.
  induction n as [|[|n] IH]; intros attempt; [reflexivity | reflexivity |].
  change (retry_events (S (S n)) attempt backoff_factor)
    with (EvPost attempt
          :: EvSleep (retry_sleep backoff_factor attempt)
          :: retry_events (S n) (attempt + 1) backoff_factor).
  cbn [posts_of py_range]. rewrite IH. reflexivity.
Qed.

Lemma retry_events_sleeps (n : nat) :
  forall attempt,
    sleeps_of (retry_events (S n) attempt backoff_factor)
    = map (retry_sleep backoff_factor) (py_range attempt n).
Proof.
  induction n as [|n IH]; intros attempt; [reflexivity|].
  change (retry_events (S (S n)) attempt backoff_factor)
    with (EvPost attempt
          :: EvSleep (retry_sleep backoff_factor attempt)
          :: retry_events (S n) (attempt + 1) backoff_factor).
  cbn [sleeps_of py_range map]. rewrite IH. reflexivity.
Qed.

End Retries.

Section Backoff.

Variable backoff_factor : Q.

Lemma pow2_pos (k : Z) : 0 <= k -> (0 < inject_Z (2 ^ k))%Q.
Proof.
  intros Hk. change 0%Q with (inject_Z 0). rewrite <- Zlt_Qlt.
  apply Z.pow_pos_nonneg; lia.
Qed.

(** With a positive factor the sleep after attempt [n] is
    [backoff_factor * 2^(n-1)] itself, and the next one is longer. *)
Lemma retry_sleep_positive (attempt : Z) :
  (0 < backoff_factor)%Q -> 1 <= attempt ->
  retry_sleep backoff_factor attempt
  = (backoff_factor * inject_Z (2 ^ (attempt - 1)))%Q /\
  (retry_sleep backoff_factor attempt
   < retry_sleep backoff_factor (attempt + 1))%Q.
Proof.
  intros Hb Ha.
  assert (Hnz : forall a, 1 <= a ->
             retry_sleep backoff_factor a
             = (backoff_factor * inject_Z (2 ^ (a - 1)))%Q).
  { intros a Ha'. unfold retry_sleep.
    destruct (Qeq_bool (backoff_factor * inject_Z (2 ^ (a - 1))) 0) eqn:E;
      [|reflexivity].
    apply Qeq_bool_iff in E. exfalso.
    assert (Hpos : (0 < backoff_factor * inject_Z (2 ^ (a - 1)))%Q)
      by (apply Qmult_lt_0_compat; [exact Hb | apply pow2_pos; lia]).
    rewrite E in Hpos. exact (Qlt_irrefl 0 Hpos). }
  split; [apply Hnz, Ha|].
  rewrite !Hnz by lia.
  apply Qmult_lt_l; [exact Hb|]. rewrite <- Zlt_Qlt.
  apply Z.pow_lt_mono_r; lia.
Qed.

(** With a factor of zero every sleep is the fallback of one second. *)
Lemma retry_sleep_zero (attempt : Z) :
  (backoff_factor == 0)%Q -> retry_sleep backoff_factor attempt = 1%Q.
Proof.
  intros Hb. unfold retry_sleep.
  replace (Qeq_bool (backoff_factor * inject_Z (2 ^ (attempt - 1))) 0) with true;
    [reflexivity|].
  symmetry. apply Qeq_bool_iff. rewrite Hb. apply Qmult_0_l.
Qed.

Lemma retry_sleeps_increasing (n : nat) :
  forall attempt,
    (0 < backoff_factor)%Q -> 1 <= attempt ->
    strictly_increasing (map (retry_sleep backoff_factor) (py_range attempt n)).
Proof.
  induction n as [|n IH]; intros attempt Hb Ha; [exact I|].
  specialize (IH (attempt + 1) Hb ltac:(lia)).
  destruct n as [|n]; [exact I|].
  cbn [py_range map] in IH |- *. cbn [strictly_increasing]. split; [|exact IH].
  apply retry_sleep_positive; assumption.
Qed.

Lemma retry_sleeps_scaled (n : nat) :
  forall attempt,
    (0 < backoff_factor)%Q -> 1 <= attempt ->
    map (retry_sleep backoff_factor) (py_range attempt n)
    = map (fun a => (backoff_factor * inject_Z (2 ^ (a - 1)))%Q)
          (py_range attempt n).
Proof.
  induction n as [|n IH]; intros attempt Hb Ha; [reflexivity|].
  cbn [py_range map]. rewrite IH by (assumption || lia).
  f_equal. apply retry_sleep_positive; assumption.
Qed.

Lemma retry_sleeps_constant (n : nat) :
  forall attempt,
    (backoff_factor == 0)%Q ->
    map (retry_sleep backoff_factor) (py_range attempt n) = repeat 1%Q n.
Proof.
  induction n as [|n IH]; intros attempt Hb; [reflexivity|].
  cbn [py_range map repeat]. rewrite IH by exact Hb.
  rewrite retry_sleep_zero by exact Hb. reflexivity.
Qed.

End Backoff.

(** Under [backoff_in_range] every sleep the client computes between two
    attempts is in range. *)
Lemma backoff_in_range_sleeps (settings : Settings) (attempt : Z) :
  backoff_in_range settings ->
  1 <= attempt < Z.max 1 (ORS_MAX_RETRIES settings + 1) ->
  sleep_in_range (Qmax 0 (ORS_BACKOFF_FACTOR settings)) attempt.
Proof.
  intros [Hret Hprod] Ha.
  assert (Hpow : 2 ^ (attempt - 1) <= 2 ^ (ORS_MAX_RETRIES settings - 1))
    by (apply Z.pow_le_mono_r; lia).
  split.
  - unfold FLOAT_LIMIT. apply Z.pow_lt_mono_r; lia.
  - eapply Qle_lt_trans; [|exact Hprod].
    rewrite !(Qmult_comm (Qmax 0 (ORS_BACKOFF_FACTOR settings))).
    apply Qmult_le_compat_r; [rewrite <- Zle_Qle; exact Hpow | apply Q.le_max_l].
Qed.




(** ** Step texts *)

Section StepTextProperties.
Import PyStr.

Lemma of_chars_length (l : list ascii) : String.length (of_chars l) = length l.
Proof. induction l as [|c l IH]; simpl; [reflexivity | rewrite IH; reflexivity]. Qed.

Lemma chars_of_chars (l : list ascii) : chars (of_chars l) = l.
Proof. apply list_ascii_of_string_of_list_ascii. Qed.

Lemma lstrip_suffix (s : list ascii) : exists p, s = p ++ lstrip s.
Proof.
  induction s as [|c s [p IH]]; [exists []; reflexivity|].
  simpl. destruct (isspace c).
  - exists (c :: p). simpl. rewrite <- IH. reflexivity.
  - exists []. reflexivity.
Qed.

Lemma rstrip_prefix (s : list ascii) : exists q, s = rstrip s ++ q.
Proof.
  unfold rstrip. destruct (lstrip_suffix (rev s)) as [p Hp].
  exists (rev p). rewrite <- rev_app_distr, <- Hp. symmetry. apply rev_involutive.
Qed.

Lemma rstrip_length (s : list ascii) : (length (rstrip s) <= length s)%nat.
Proof.
  destruct (rstrip_prefix s) as [q Hq]. rewrite Hq at 2.
  rewrite length_app. lia.
Qed.

Lemma ws_collapsed_app_inv (a b : list ascii) :
  ws_collapsed (a ++ b) -> ws_collapsed a /\ ws_collapsed b.
Proof.
  induction a as [|c a IH]; simpl; [auto|].
  intros [Hc Hr]. destruct (IH Hr) as [Ha Hb]. split; [|exact Hb].
  split; [|exact Ha]. intros Hsp. destruct (Hc Hsp) as [Heq Hnext].
  split; [exact Heq|]. destruct a; [exact I | exact Hnext].
Qed.

Lemma ws_collapsed_app (a b : list ascii) :
  ws_collapsed a -> ws_collapsed b ->
  match b with [] => True | d :: _ => isspace d = false end ->
  ws_collapsed (a ++ b).
Proof.
  intros Ha Hb Hhead. induction a as [|c a IH]; simpl; [exact Hb|].
  destruct Ha as [Hc Ha]. split; [|apply IH; exact Ha].
  intros Hsp. destruct (Hc Hsp) as [Heq Hnext]. split; [exact Heq|].
  destruct a; simpl; [exact Hhead | exact Hnext].
Qed.

Lemma re_sub_ws_collapsed (s : list ascii) :
  forall in_run,
    ws_collapsed (re_sub_ws in_run s) /\
    (in_run = true ->
     match re_sub_ws in_run s with
     | [] => True
     | d :: _ => isspace d = false
     end).
Proof.
  induction s as [|c s IH]; intros in_run; simpl; [auto|].
  destruct (isspace c) eqn:Ec.
  - destruct in_run.
    + apply IH.
    + split; [|discriminate]. simpl. destruct (IH true) as [Hcol Hhead].
      split; [|exact Hcol]. intros _. split; [reflexivity|].
      apply Hhead. reflexivity.
  - split.
    + simpl. split; [|apply IH]. rewrite Ec. discriminate.
    + intros _. exact Ec.
Qed.

Lemma strip_collapsed (s : list ascii) : ws_collapsed s -> ws_collapsed (strip s).
Proof.
  intros Hs. unfold strip.
  destruct (lstrip_suffix s) as [p Hp]. rewrite Hp in Hs.
  apply ws_collapsed_app_inv in Hs as [_ Hl].
  destruct (rstrip_prefix (lstrip s)) as [q Hq]. rewrite Hq in Hl.
  apply ws_collapsed_app_inv in Hl as [Hr _]. exact Hr.
Qed.

Lemma truncate_text_collapsed (s : list ascii) :
  ws_collapsed s -> ws_collapsed (truncate_text s).
Proof.
  intros Hs. unfold truncate_text.
  destruct (MAX_STEP_TEXT_LENGTH <? length s)%nat; [|exact Hs].
  apply ws_collapsed_app.
  - rewrite <- (take_drop (MAX_STEP_TEXT_LENGTH - 3) s) in Hs.
    apply ws_collapsed_app_inv in Hs as [Ht _].
    destruct (rstrip_prefix (take (MAX_STEP_TEXT_LENGTH - 3) s)) as [q Hq].
    rewrite Hq in Ht. apply ws_collapsed_app_inv in Ht as [Hr _]. exact Hr.
  - simpl. repeat split; discriminate.
  - reflexivity.
Qed.

Lemma truncate_text_length (s : list ascii) :
  (length (truncate_text s) <= MAX_STEP_TEXT_LENGTH)%nat.
Proof.
  unfold truncate_text.
  destruct (Nat.ltb_spec MAX_STEP_TEXT_LENGTH (length s)) as [Hlt|Hle];
    [|exact Hle].
  rewrite length_app.
  pose proof (rstrip_length (take (MAX_STEP_TEXT_LENGTH - 3) s)) as Hr.
  rewrite length_take in Hr.
  assert (Hdots : length (chars "...") = 3%nat) by reflexivity.
  rewrite Hdots. unfold MAX_STEP_TEXT_LENGTH in *. lia.
Qed.

Lemma truncate_text_ellipsis (s : list ascii) :
  (MAX_STEP_TEXT_LENGTH < length s)%nat ->
  exists kept, truncate_text s = kept ++ chars "..." /\
               kept = rstrip (take (MAX_STEP_TEXT_LENGTH - 3) s).
Proof.
  intros Hlt. unfold truncate_text.
  destruct (Nat.ltb_spec MAX_STEP_TEXT_LENGTH (length s)) as [_|Hle]; [|lia].
  eexists. split; reflexivity.
Qed.

Lemma startswith_self (s : list ascii) : startswith s s = true.
Proof.
  induction s as [|c s IH]; simpl; [reflexivity|].
  rewrite Ascii.eqb_refl. exact IH.
Qed.

Lemma contains_suffix (needle p : list ascii) :
  contains needle (p ++ needle) = true.
Proof.
  induction p as [|c p IH]; simpl.
  - destruct needle as [|a needle]; [reflexivity|].
    cbn [contains]. rewrite startswith_self. reflexivity.
  - rewrite IH. apply orb_true_r.
Qed.

Lemma step_base_nonempty (instruction : json) (step_index : Z) :
  step_base instruction step_index <> [].
Proof.
  unfold step_base. destruct (stripped_if_str instruction); discriminate.
Qed.

(** The text before white space is collapsed: the name is appended, after
    [" en "], exactly when it is not empty and not already in the
    instruction, compared in lower case. *)
Lemma step_text_raw_cases (instruction name : json) (step_index : Z) :
  step_text_raw instruction name step_index =
  let base := step_base instruction step_index in
  let step_name := stripped_if_str name in
  match step_name with
  | [] => base
  | _ => if contains (lower step_name) (lower base) then base
         else base ++ chars " en " ++ step_name
  end.
Proof.
  unfold step_text_raw, step_base. cbv zeta.
  destruct (stripped_if_str instruction) as [|a l];
    destruct (stripped_if_str name) as [|c nm]; try reflexivity.
  - destruct (contains (lower (c :: nm))
                (lower (chars "Paso " ++ str_of_int step_index)));
      reflexivity.
  - destruct (contains (lower (c :: nm)) (lower (a :: l))); reflexivity.
Qed.

Lemma step_text_raw_has_name (instruction name : json) (step_index : Z) :
  contains (lower (stripped_if_str name))
           (lower (step_text_raw instruction name step_index)) = true.
Proof.
  rewrite step_text_raw_cases. cbv zeta.
  destruct (stripped_if_str name) as [|c nm] eqn:En.
  - simpl. destruct (lower (step_base instruction step_index)); reflexivity.
  - destruct (contains (lower (c :: nm)) (lower (step_base instruction step_index)))
      eqn:Ec; [exact Ec|].
    unfold lower. rewrite app_assoc, map_app. apply contains_suffix.
Qed.

(** *** White space at the ends and inside *)

Lemma isspace_lower_char (c : ascii) : isspace (lower_char c) = isspace c.
Proof. destruct c as [[] [] [] [] [] [] [] []]; vm_compute; reflexivity. Qed.

Lemma lower_re_sub_ws (s : list ascii) :
  forall in_run, lower (re_sub_ws in_run s) = re_sub_ws in_run (lower s).
Proof.
  unfold lower. induction s as [|c s IH]; intros in_run; [reflexivity|].
  cbn [re_sub_ws map]. rewrite isspace_lower_char.
  destruct (isspace c) eqn:Ec; [destruct in_run|]; cbn [map];
    rewrite ?IH; reflexivity.
Qed.

Lemma head_rev (s : list ascii) : head (rev s) = last s.
Proof.
  induction s as [|x l _] using rev_ind; [reflexivity|].
  rewrite rev_unit, last_snoc. reflexivity.
Qed.

Lemma lstrip_solid (s : list ascii) (c : ascii) :
  head (lstrip s) = Some c -> isspace c = false.
Proof.
  induction s as [|a s IH]; simpl; [discriminate|].
  destruct (isspace a) eqn:Ea; [exact IH|]. simpl. intros [= <-]. exact Ea.
Qed.

Lemma lstrip_id (s : list ascii) :
  (forall c, head s = Some c -> isspace c = false) -> lstrip s = s.
Proof.
  destruct s as [|a s]; simpl; [reflexivity|].
  intros Hh. rewrite (Hh a eq_refl). reflexivity.
Qed.

Lemma rstrip_solid (s : list ascii) (c : ascii) :
  last (rstrip s) = Some c -> isspace c = false.
Proof.
  unfold rstrip. rewrite <- head_rev, rev_involutive. apply lstrip_solid.
Qed.

Lemma rstrip_id (s : list ascii) :
  (forall c, last s = Some c -> isspace c = false) -> rstrip s = s.
Proof.
  intros Hl. unfold rstrip. rewrite lstrip_id; [apply rev_involutive|].
  intros c Hc. apply Hl. rewrite <- head_rev. exact Hc.
Qed.

Lemma strip_stripped (s : list ascii) : stripped (strip s).
Proof.
  split; intros c Hc.
  - unfold strip in Hc. destruct (rstrip_prefix (lstrip s)) as [q Hq].
    apply (lstrip_solid s). rewrite Hq.
    destruct (rstrip (lstrip s)); [discriminate | exact Hc].
  - apply (rstrip_solid (lstrip s)). exact Hc.
Qed.

Lemma strip_id (s : list ascii) : stripped s -> strip s = s.
Proof.
  intros [Hh Hl]. unfold strip. rewrite (lstrip_id s Hh). apply rstrip_id, Hl.
Qed.

Lemma stripped_app (a m b : list ascii) :
  stripped a -> stripped b -> a <> [] -> b <> [] -> stripped (a ++ m ++ b).
Proof.
  intros [Ha _] [_ Hb] Hane Hbne. split; intros c Hc.
  - destruct a as [|x a]; [contradiction|]. apply Ha. exact Hc.
  - apply Hb. destruct b as [|y b]; [contradiction|].
    rewrite app_assoc, last_app_cons in Hc. exact Hc.
Qed.

Lemma lower_stripped (s : list ascii) : stripped s -> stripped (lower s).
Proof.
  intros [Hh Hl]. unfold lower. split; intros c Hc.
  - destruct s as [|a s]; [discriminate|]. simpl in Hc. injection Hc as <-.
    rewrite isspace_lower_char. apply Hh. reflexivity.
  - destruct (last s) as [d|] eqn:E.
    + pose proof (Hl d eq_refl) as Hd. apply last_Some in E as [s' ->].
      rewrite map_app in Hc. simpl in Hc. rewrite last_snoc in Hc.
      injection Hc as <-. rewrite isspace_lower_char. exact Hd.
    + apply last_None in E. subst s. discriminate.
Qed.

Lemma re_sub_ws_app_solid (p s : list ascii) (c : ascii) :
  isspace c = false ->
  forall in_run,
    re_sub_ws in_run (p ++ c :: s) = re_sub_ws in_run p ++ c :: re_sub_ws false s.
Proof.
  intros Hc. induction p as [|a p IH]; intros in_run; simpl.
  - rewrite Hc. reflexivity.
  - destruct (isspace a); [destruct in_run|]; simpl; rewrite IH; reflexivity.
Qed.

Lemma re_sub_ws_app (p s : list ascii) :
  (forall c, last p = Some c -> isspace c = false) -> p <> [] ->
  forall in_run,
    re_sub_ws in_run (p ++ s) = re_sub_ws in_run p ++ re_sub_ws false s.
Proof.
  intros Hl Hne in_run. destruct (last p) as [c|] eqn:E.
  - pose proof (Hl c eq_refl) as Hc. apply last_Some in E as [p' ->].
    rewrite <- app_assoc. simpl.
    rewrite (re_sub_ws_app_solid p' s c Hc), (re_sub_ws_app_solid p' [] c Hc).
    simpl. rewrite <- app_assoc. reflexivity.
  - apply last_None in E. contradiction.
Qed.

Lemma re_sub_ws_true_solid (s : list ascii) :
  (forall c, head s = Some c -> isspace c = false) ->
  re_sub_ws true s = re_sub_ws false s.
Proof.
  destruct s as [|a s]; simpl; [reflexivity|].
  intros Hh. rewrite (Hh a eq_refl). reflexivity.
Qed.

Lemma re_sub_ws_stripped (s : list ascii) :
  stripped s -> stripped (re_sub_ws false s).
Proof.
  intros [Hh Hl]. split; intros c Hc.
  - destruct s as [|a s]; [discriminate|]. simpl in Hc.
    rewrite (Hh a eq_refl) in Hc. simpl in Hc. injection Hc as <-.
    apply Hh. reflexivity.
  - destruct (last s) as [d|] eqn:E.
    + pose proof (Hl d eq_refl) as Hd. apply last_Some in E as [s' ->].
      rewrite (re_sub_ws_app_solid s' [] d Hd) in Hc. simpl in Hc.
      rewrite last_snoc in Hc. injection Hc as <-. exact Hd.
    + apply last_None in E. subst s. discriminate.
Qed.

Lemma re_sub_ws_en (s : list ascii) :
  re_sub_ws false (chars " en " ++ s) = chars " en " ++ re_sub_ws true s.
Proof. reflexivity. Qed.

(** *** Substrings *)

Lemma startswith_app (needle q : list ascii) :
  startswith needle (needle ++ q) = true.
Proof.
  induction needle as [|c needle IH]; simpl; [reflexivity|].
  rewrite Ascii.eqb_refl. exact IH.
Qed.

Lemma startswith_inv (needle s : list ascii) :
  startswith needle s = true -> exists q, s = needle ++ q.
Proof.
  revert s. induction needle as [|c needle IH]; intros s; simpl.
  - intros _. exists s. reflexivity.
  - destruct s as [|a s]; [discriminate|].
    intros Hs. apply andb_true_iff in Hs as [Hc Hs].
    apply Ascii.eqb_eq in Hc. subst a.
    destruct (IH s Hs) as [q ->]. exists q. reflexivity.
Qed.

Lemma contains_unfold (needle hay : list ascii) :
  contains needle hay =
  startswith needle hay ||
  match hay with
  | [] => false
  | _ :: r => contains needle r
  end.
Proof. destruct hay; reflexivity. Qed.

Lemma contains_middle (needle p q : list ascii) :
  contains needle (p ++ needle ++ q) = true.
Proof.
  induction p as [|c p IH].
  - simpl. rewrite contains_unfold, startswith_app. reflexivity.
  - simpl. rewrite IH. apply orb_true_r.
Qed.

Lemma contains_inv (needle hay : list ascii) :
  contains needle hay = true -> exists p q, hay = p ++ needle ++ q.
Proof.
  induction hay as [|a hay IH]; simpl; intros Hc;
    apply orb_true_iff in Hc as [Hs|Hc].
  - destruct (startswith_inv _ _ Hs) as [q Hq]. exists [], q. exact Hq.
  - discriminate.
  - destruct (startswith_inv _ _ Hs) as [q Hq]. exists [], q. exact Hq.
  - destruct (IH Hc) as (p & q & ->). exists (a :: p), q. reflexivity.
Qed.

(** A stripped name that occurs in a text still occurs in it, with its
    white space collapsed, after the white space of the text is collapsed. *)
Lemma contains_re_sub_ws (needle hay : list ascii) :
  stripped needle -> needle <> [] ->
  contains needle hay = true ->
  contains (re_sub_ws false needle) (re_sub_ws false hay) = true.
Proof.
  intros [Hh Hl] Hne Hc. apply contains_inv in Hc as (p & q & ->).
  destruct needle as [|c needle]; [contradiction|].
  pose proof (Hh c eq_refl) as Hcs.
  change (p ++ (c :: needle) ++ q) with (p ++ c :: (needle ++ q)).
  rewrite (re_sub_ws_app_solid p (needle ++ q) c Hcs).
  assert (Hstep : c :: re_sub_ws false (needle ++ q)
                  = re_sub_ws false ((c :: needle) ++ q))
    by (simpl; rewrite Hcs; reflexivity).
  rewrite Hstep, (re_sub_ws_app (c :: needle) q Hl) by discriminate.
  apply contains_middle.
Qed.

(** *** The text before it is cut *)

Lemma uint_solid (d : Decimal.uint) :
  Forall (fun c => isspace c = false) (chars (NilEmpty.string_of_uint d)).
Proof.
  induction d; simpl; constructor; try reflexivity; assumption.
Qed.

Lemma nilzero_uint_solid (d : Decimal.uint) :
  Forall (fun c => isspace c = false) (chars (NilZero.string_of_uint d)) /\
  chars (NilZero.string_of_uint d) <> [].
Proof.
  destruct d; simpl; (split; [|discriminate]);
    try (constructor; [reflexivity|]); try apply uint_solid.
  constructor.
Qed.

Lemma str_of_int_solid (n : Z) :
  Forall (fun c => isspace c = false) (str_of_int n) /\ str_of_int n <> [].
Proof.
  unfold str_of_int. destruct (Z.to_int n) as [d|d]; simpl.
  - apply nilzero_uint_solid.
  - split; [|discriminate]. constructor; [reflexivity|].
    apply nilzero_uint_solid.
Qed.

Lemma stripped_if_str_stripped (x : json) : stripped (stripped_if_str x).
Proof.
  destruct x; simpl; try apply strip_stripped; split; intros c; discriminate.
Qed.

Lemma step_base_stripped (instruction : json) (step_index : Z) :
  stripped (step_base instruction step_index).
Proof.
  unfold step_base.
  destruct (stripped_if_str instruction) as [|a l] eqn:E.
  - destruct (str_of_int_solid step_index) as [Hall Hne]. split; intros c Hc.
    + simpl in Hc. injection Hc as <-. reflexivity.
    + destruct (last (str_of_int step_index)) as [d|] eqn:El.
      * rewrite last_app, El in Hc. injection Hc as <-.
        apply last_Some in El as [l' El]. rewrite El in Hall.
        apply Forall_app in Hall as [_ Hd]. inversion Hd. assumption.
      * apply last_None in El. contradiction.
  - rewrite <- E. apply stripped_if_str_stripped.
Qed.

(** The text that is cut to the limit: the instruction with its white space
    collapsed, followed by [" en "] and the name with its white space
    collapsed when the name is not in the instruction. *)
Lemma step_text_full (instruction name : json) (step_index : Z) :
  strip (re_sub_ws false (step_text_raw instruction name step_index)) =
  let base := step_base instruction step_index in
  let step_name := stripped_if_str name in
  if contains (lower step_name) (lower base)
  then re_sub_ws false base
  else re_sub_ws false base ++ chars " en " ++ re_sub_ws false step_name.
Proof.
  rewrite step_text_raw_cases. cbv zeta.
  pose proof (step_base_stripped instruction step_index) as Hbase.
  pose proof (step_base_nonempty instruction step_index) as Hne.
  pose proof (stripped_if_str_stripped name) as Hname.
  destruct (stripped_if_str name) as [|c nm] eqn:En.
  - replace (contains (lower []) (lower (step_base instruction step_index)))
      with true by (destruct (lower (step_base instruction step_index));
                    reflexivity).
    apply strip_id, re_sub_ws_stripped, Hbase.
  - destruct (contains (lower (c :: nm))
                (lower (step_base instruction step_index))).
    + apply strip_id, re_sub_ws_stripped, Hbase.
    + rewrite strip_id
        by (apply re_sub_ws_stripped, stripped_app;
            [exact Hbase | exact Hname | exact Hne | discriminate]).
      rewrite (re_sub_ws_app _ _ (proj2 Hbase) Hne), re_sub_ws_en.
      rewrite (re_sub_ws_true_solid _ (proj1 Hname)). reflexivity.
Qed.

(** The name, with its white space collapsed, is in that text. *)
Lemma step_text_full_has_name (instruction name : json) (step_index : Z) :
  contains
    (lower (re_sub_ws false (stripped_if_str name)))
    (lower (strip (re_sub_ws false
                     (step_text_raw instruction name step_index)))) = true.
Proof.
  rewrite step_text_full. cbv zeta.
  pose proof (stripped_if_str_stripped name) as Hname.
  destruct (contains (lower (stripped_if_str name))
              (lower (step_base instruction step_index))) eqn:Ec.
  - destruct (stripped_if_str name) as [|c nm] eqn:En.
    + simpl. rewrite contains_unfold. reflexivity.
    + rewrite !lower_re_sub_ws. apply contains_re_sub_ws;
        [apply lower_stripped, Hname | discriminate | exact Ec].
  - unfold lower. rewrite app_assoc, map_app. apply contains_suffix.
Qed.

End StepTextProperties.

(** C8, as stated, fails on the parenthesis: the name is only appended when
    it is missing, but nothing makes it occur once. An instruction that
    already names the place twice keeps both; a name appended to a long
    instruction is cut away with the end of the text; and a name with a run
    of white space is in the text only with that run collapsed. *)
Lemma C8_counterexample :
  _normalize_step_text (JStr "Pasillo A y Pasillo A") (JStr "Pasillo A") 1
    = "Pasillo A y Pasillo A" /\
  PyStr.occurrences (PyStr.chars "Pasillo A")
    (PyStr.chars (_normalize_step_text (JStr "Pasillo A y Pasillo A")
                                       (JStr "Pasillo A") 1)) = 2%nat /\
  PyStr.occurrences (PyStr.chars "Pasillo A")
    (PyStr.chars (_normalize_step_text long_instruction
                                       (JStr "Pasillo A") 1)) = 0%nat /\
  _normalize_step_text (JStr "Gira") (JStr "Pasillo  A") 1
    = "Gira en Pasillo A".
Proof. repeat split; vm_compute; reflexivity. Qed.

(** C8, amended. Let base be the stripped instruction (["Paso <n>"] when it
    is empty or not a string) and let the name be stripped. The text before
    it is cut is base with its white-space runs collapsed to single spaces
    when the name is a substring of base, compared in lower case (an empty
    name always is), and otherwise that followed by [" en "] and the name
    with its white-space runs collapsed. The returned text is this text when
    it has at most 240 characters, and otherwise its first 237 characters,
    stripped of white space at the end, followed by ["..."]. So the name,
    with its white space collapsed, occurs at least once in the text before
    it is cut, compared in lower case, and in the returned text whenever
    nothing had to be cut; the returned text has its white space collapsed
    and at most 240 characters. For the instruction and name of the
    specification the name occurs once, whether or not the instruction
    already had it. *)
Theorem C8_step_text_normalized :
  forall (instruction name : json) (step_index : Z),
    let collapse := PyStr.re_sub_ws false in
    let base := step_base instruction step_index in
    let step_name := stripped_if_str name in
    let full :=
      if PyStr.contains (PyStr.lower step_name) (PyStr.lower base)
      then collapse base
      else collapse base ++ PyStr.chars " en " ++ collapse step_name in
    let texto := _normalize_step_text instruction name step_index in
    PyStr.chars texto
      = (if (240 <? length full)%nat
         then PyStr.rstrip (take 237 full) ++ PyStr.chars "..."
         else full) /\
    PyStr.contains (PyStr.lower (collapse step_name)) (PyStr.lower full)
      = true /\
    ((length full <= 240)%nat ->
     PyStr.chars texto = full /\
     PyStr.contains (PyStr.lower (collapse step_name))
                    (PyStr.lower (PyStr.chars texto)) = true) /\
    ws_collapsed (PyStr.chars texto) /\
    (String.length texto <= 240)%nat /\
    ((240 < length full)%nat ->
     exists kept, PyStr.chars texto = kept ++ PyStr.chars "..." /\
                  kept = PyStr.rstrip (take 237 full)) /\
    _normalize_step_text (JStr "Gira a la izquierda") (JStr "Pasillo A") 1
      = "Gira a la izquierda en Pasillo A" /\
    _normalize_step_text (JStr "Gira a la izquierda en pasillo a")
                         (JStr "Pasillo A") 1
      = "Gira a la izquierda en pasillo a".
Proof.
  intros instruction name step_index collapse base step_name full texto.
  assert (Hfull : PyStr.strip (PyStr.re_sub_ws false
                    (step_text_raw instruction name step_index)) = full)
    by apply step_text_full.
  assert (Hname : PyStr.contains (PyStr.lower (collapse step_name))
                                 (PyStr.lower full) = true)
    by (rewrite <- Hfull; apply step_text_full_has_name).
  assert (Htexto : PyStr.chars texto = truncate_text full).
  { unfold texto, _normalize_step_text. rewrite chars_of_chars, Hfull.
    reflexivity. }
  assert (Hlen : String.length texto = length (truncate_text full)).
  { unfold texto, _normalize_step_text. rewrite of_chars_length, Hfull.
    reflexivity. }
  assert (Hcollapsed : ws_collapsed full).
  { rewrite <- Hfull.
    apply strip_collapsed, re_sub_ws_collapsed. }
  split; [rewrite Htexto; reflexivity|].
  split; [exact Hname|].
  split; [|split; [|split; [|split; [|split]]]].
  - intros Hshort.
    assert (Hsame : PyStr.chars texto = full).
    { rewrite Htexto. unfold truncate_text.
      destruct (Nat.ltb_spec MAX_STEP_TEXT_LENGTH (length full)) as [Hlt|_];
        [unfold MAX_STEP_TEXT_LENGTH in Hlt; lia | reflexivity]. }
    split; [exact Hsame|]. rewrite Hsame. exact Hname.
  - rewrite Htexto. apply truncate_text_collapsed. exact Hcollapsed.
  - rewrite Hlen. apply truncate_text_length.
  - intros Hlong. rewrite Htexto. apply truncate_text_ellipsis. exact Hlong.
  - vm_compute. reflexivity.
  - vm_compute. reflexivity.
Qed.

Lemma C8_step_text_normalized_witness :
  (exists kept,
     PyStr.chars (_normalize_step_text long_instruction (JStr "Pasillo A") 1)
     = kept ++ PyStr.chars "..." /\
     kept = repeat "a"%char 237) /\
  PyStr.chars (_normalize_step_text (JStr "Gira  a la izquierda")
                                    (JStr "Pasillo  A") 7)
  = PyStr.chars "Gira a la izquierda en Pasillo A".
Proof.
  destruct (C8_step_text_normalized long_instruction (JStr "Pasillo A") 1)
    as (_ & _ & _ & _ & _ & Hcut & _).
  destruct (C8_step_text_normalized (JStr "Gira  a la izquierda")
                                    (JStr "Pasillo  A") 7)
    as (_ & _ & Hshort & _).
  split.
  - destruct (Hcut ltac:(vm_compute; lia)) as (kept & Htext & Hkept).
    exists kept. split; [exact Htext|]. rewrite Hkept. vm_compute. reflexivity.
  - destruct (Hshort ltac:(vm_compute; lia)) as [Htext _]. rewrite Htext.
    vm_compute. reflexivity.
Defined.

(** ** Error details *)

Section ErrorDetails.

Variable lib : PyLib.

Lemma invalid_payload_detail (message : string) :
  message <> "" ->
  exists d, invalid_payload message = HTTPException 400 d /\
            has_code_and_message d.
Proof.
  intros Hne. eexists. split; [reflexivity|].
  exists [("code", JStr "invalid_payload"); ("message", JStr message);
          ("field", JStr "coordinates")], "invalid_payload", message.
  repeat split; try reflexivity. exact Hne.
Qed.

Lemma float_of_int_errors (n : Z) (e : exn) :
  float_of_int n = Err e -> e = OverflowError.
Proof.
  unfold float_of_int.
  match goal with |- context [if ?c then _ else _] => destruct c end;
    [intros [= <-]; reflexivity | discriminate].
Qed.

Lemma py_float_errors (x : json) (e : exn) :
  py_float lib x = Err e -> e = TypeError \/ e = ValueError \/ e = OverflowError.
Proof.
  destruct x; cbn [py_float]; try (intros [= <-]; auto); try discriminate.
  - intros He. right. right. exact (float_of_int_errors _ _ He).
  - destruct (float_of_str lib s); [discriminate | intros [= <-]; auto].
Qed.

Lemma validate_pairs_errors (context : string) (pairs : list json) :
  forall idx e,
    validate_pairs lib context idx pairs = Err e ->
    (exists d, e = HTTPException 400 d /\ has_code_and_message d) \/
    e = OverflowError.
Proof.
  induction pairs as [|par rest IH]; intros idx e; [discriminate|].
  cbn [validate_pairs].
  assert (Hbad : forall tail e',
             @Err (list (list pyfloat))
                  (invalid_payload ("Coordenada #" +:+ tail)) = Err e' ->
             (exists d, e' = HTTPException 400 d /\ has_code_and_message d) \/
             e' = OverflowError).
  { intros tail e' [= <-]. left. apply invalid_payload_detail. discriminate. }
  destruct par as [| | | | |l|]; try (apply Hbad).
  destruct l as [|x0 [|x1 l]]; try (apply Hbad).
  destruct (py_float lib x0) as [lon|e0] eqn:E0.
  - destruct (py_float lib x1) as [lat|e1] eqn:E1.
    + match goal with |- context [if ?c then _ else _] => destruct c end.
      * apply Hbad.
      * destruct (validate_pairs lib context (idx + 1) rest) as [san|e2] eqn:E2;
          simpl; [discriminate|].
        intros [= <-]. eapply IH. exact E2.
    + destruct (py_float_errors _ _ E1) as [-> | [-> | ->]];
        [apply Hbad | apply Hbad | intros [= <-]; right; reflexivity].
  - destruct (py_float_errors _ _ E0) as [-> | [-> | ->]];
      [apply Hbad | apply Hbad | intros [= <-]; right; reflexivity].
Qed.

(** An error of [_validate_coordinates] is a 400 whose detail has a code
    and a message, or the bare [OverflowError] of [float] on an integer
    beyond the doubles. *)
Lemma validate_coordinates_errors (coordenadas : json) (source : string) (e : exn) :
  _validate_coordinates lib coordenadas source = Err e ->
  (exists d, e = HTTPException 400 d /\ has_code_and_message d) \/
  e = OverflowError.
Proof.
  unfold _validate_coordinates.
  assert (Hbad : forall tail e',
             @Err (list (list pyfloat))
                  (invalid_payload
                     ("Se requieren al menos dos puntos [lon, lat]" +:+ tail))
             = Err e' ->
             (exists d, e' = HTTPException 400 d /\ has_code_and_message d) \/
             e' = OverflowError).
  { intros tail e' [= <-]. left. apply invalid_payload_detail. discriminate. }
  destruct coordenadas as [| | | | |l|]; try (apply Hbad).
  destruct l as [|p0 [|p1 l]]; try (apply Hbad).
  apply validate_pairs_errors.
Qed.

(** The error of [normalize_profile] has a code, the allow-list and the
    value received, and no message. *)
Lemma normalize_profile_errors (settings : Settings) (profile : option string)
      (allowed_profiles : option (list string)) (e : exn) :
  normalize_profile settings profile allowed_profiles = Err e ->
  exists d, e = HTTPException 400 d /\ is_invalid_profile_detail d /\
            ~ has_code_and_message d.
Proof.
  unfold normalize_profile.
  match goal with |- context [if ?c then _ else _] => destruct c end;
    [discriminate|].
  intros [= <-]. eexists. split; [reflexivity|]. split.
  - eexists _, _. reflexivity.
  - intros (items & code & message & [= <-] & _ & Hmsg & _). discriminate.
Qed.

Lemma good_detail_set_other (k : string) (v : json) (d : list (string * json)) :
  k <> "code" -> k <> "message" -> good_detail d -> good_detail (dict_set k v d).
Proof.
  intros Hc Hm (code & message & H1 & H2 & H3). exists code, message.
  rewrite !dict_get_set_ne by congruence. auto.
Qed.

Lemma good_detail_set_message (m : string) (d : list (string * json)) :
  m <> "" -> good_detail d -> good_detail (dict_set "message" (JStr m) d).
Proof.
  intros Hm (code & message & H1 & H2 & H3). exists code, m.
  rewrite dict_get_set_ne by discriminate. rewrite dict_get_set_eq. auto.
Qed.

Lemma good_detail_set_code (c : string) (d : list (string * json)) :
  good_detail d -> good_detail (dict_set "code" (JStr c) d).
Proof.
  intros (code & message & H1 & H2 & H3). exists c, message.
  rewrite dict_get_set_eq. rewrite dict_get_set_ne by discriminate. auto.
Qed.

Lemma eqb_empty_false (s : string) : String.eqb s "" = false -> s <> "".
Proof. intros H ->. discriminate. Qed.

Lemma extract_ors_error_detail_good (status_code : Z) (body : option json)
      (text : string) :
  good_detail (_extract_ors_error_detail status_code body text).
Proof.
  unfold _extract_ors_error_detail.
  set (detail0 := [("code", JStr "ors_error"); _; _]).
  assert (H0 : good_detail detail0).
  { eexists _, _. repeat split; try reflexivity. discriminate. }
  clearbody detail0.
  destruct body as [payload|].
  - destruct payload as [| | | | | |payload]; try exact H0.
    set (detail1 := match dict_get "error" payload with
                    | Some (JDict _) => _
                    | Some (JStr _) => _
                    | _ => detail0
                    end).
    assert (H1 : good_detail detail1).
    { unfold detail1. destruct (dict_get "error" payload) as [ep|]; [|exact H0].
      destruct ep as [| | | |e| |ep]; try exact H0.
      - destruct (String.eqb (str_strip e) "") eqn:E; [exact H0|].
        apply good_detail_set_message; [apply eqb_empty_false, E | exact H0].
      - set (d1 := match dict_get "message" ep with
                   | Some (JStr _) => _
                   | _ => detail0
                   end).
        assert (Hd1 : good_detail d1).
        { unfold d1. destruct (dict_get "message" ep) as [m|]; [|exact H0].
          destruct m; try exact H0.
          destruct (String.eqb (str_strip s) "") eqn:E; [exact H0|].
          apply good_detail_set_message; [apply eqb_empty_false, E | exact H0]. }
        clearbody d1.
        set (d2 := match dict_get "code" ep with
                   | Some (JInt _) => _
                   | Some (JBool _) => _
                   | Some (JStr _) => _
                   | _ => d1
                   end).
        assert (Hd2 : good_detail d2).
        { unfold d2. destruct (dict_get "code" ep) as [c|]; [|exact Hd1].
          destruct c; try exact Hd1;
            apply good_detail_set_other; (discriminate || exact Hd1). }
        clearbody d2.
        destruct (dict_get "details" ep) as [dd|]; [|exact Hd2].
        destruct dd; try exact Hd2;
          apply good_detail_set_other; (discriminate || exact Hd2). }
    clearbody detail1.
    set (detail2 := match dict_get "message" detail1, dict_get "message" payload with
                    | None, Some (JStr _) => _
                    | _, _ => detail1
                    end).
    assert (H2 : good_detail detail2).
    { unfold detail2. destruct H1 as (c & m & Hc & Hm & Hne).
      rewrite Hm. exists c, m. auto. }
    clearbody detail2.
    destruct (dict_get "details" detail2); [exact H2|].
    destruct (dict_get "details" payload) as [dd|]; [|exact H2].
    destruct dd; try exact H2;
      apply good_detail_set_other; (discriminate || exact H2).
  - destruct (String.eqb (String.substring 0 200 text) ""); [exact H0|].
    apply good_detail_set_other; (discriminate || exact H0).
Qed.

Lemma with_code_good (ors_detail : list (string * json)) (code dflt : string) :
  good_detail ors_detail ->
  has_code_and_message (with_code ors_detail code dflt).
Proof.
  intros Hg. unfold with_code, dict_update. simpl fold_left.
  destruct Hg as (c & m & Hc & Hm & Hne).
  eexists _, code, m. split; [reflexivity|]. rewrite Hm. simpl default.
  rewrite dict_get_set_ne by discriminate.
  rewrite !dict_get_set_eq. auto.
Qed.

Lemma literal_detail_good (items : list (string * json)) :
  good_detail items -> has_code_and_message (DetailDict items).
Proof.
  intros (c & m & Hc & Hm & Hne). exists items, c, m. auto.
Qed.

(** Every error of the retry loop is an HTTP error whose detail has a code
    and a message. *)
(** The product of the backoff is a number: finite or infinite. *)
Lemma backoff_sleep_not_nan (backoff_factor : Q) (attempt : Z) :
  backoff_sleep backoff_factor attempt <> Ok NaN.
Proof.
  unfold backoff_sleep.
  repeat match goal with |- context [if ?c then _ else _] => destruct c end;
    discriminate.
Qed.

(** The wait before a retry raises nothing but the [OverflowError] of the
    conversion of the power of two. *)
Lemma retry_wait_errors (guarded : bool) (backoff_factor : Q) (attempt : Z)
      (e : exn) :
  retry_wait guarded backoff_factor attempt = Raise e -> e = OverflowError.
Proof.
  unfold retry_wait.
  pose proof (backoff_sleep_not_nan backoff_factor attempt) as Hnan.
  destruct (backoff_sleep backoff_factor attempt) as [x|e0] eqn:Eb.
  - destruct guarded.
    + destruct (float_pos x); [|discriminate].
      destruct x; cbn [asyncio_sleep]; try discriminate. congruence.
    + unfold or_one. destruct (float_is_zero x); [discriminate|].
      destruct x; cbn [asyncio_sleep]; try discriminate. congruence.
  - intros [= <-]. unfold backoff_sleep in Eb.
    repeat match type of Eb with context [if ?c then _ else _] => destruct c end;
      congruence.
Qed.

(** A wait that ends has made no sleep, or one. *)
Lemma retry_wait_sleeps (guarded : bool) (backoff_factor : Q) (attempt : Z)
      (sleeps : list event) :
  retry_wait guarded backoff_factor attempt = Return sleeps ->
  sleeps = [] \/ exists seconds, sleeps = [EvSleep seconds].
Proof.
  unfold retry_wait.
  destruct (backoff_sleep backoff_factor attempt) as [x|e0]; [|discriminate].
  assert (Hs : forall y, asyncio_sleep y = Return sleeps ->
                         sleeps = [] \/ exists seconds, sleeps = [EvSleep seconds]).
  { intros [seconds| | |]; cbn [asyncio_sleep]; try discriminate;
      intros [= <-]; eauto. }
  destruct guarded.
  - destruct (float_pos x); [apply Hs | intros [= <-]; left; reflexivity].
  - apply Hs.
Qed.

(** An error of the loop is an HTTP error whose detail has a code and a
    message, or one of two bare exceptions: the [UnicodeDecodeError] of a
    body that cannot be decoded, or the [OverflowError] of the backoff. *)
Lemma peticion_loop_errors (backoff_factor : Q) (post : Z -> http_reply)
      (n : nat) :
  forall attempt attempts e evs,
    peticion_loop n attempt attempts backoff_factor post = (Raise e, evs) ->
    (exists st d, e = HTTPException st d /\ has_code_and_message d) \/
    e = OverflowError \/ e = UnicodeDecodeError.
Proof.
  induction n as [|n IH]; intros attempt attempts e evs; [discriminate|].
  cbn [peticion_loop].
  assert (Hnext : forall guarded,
             match retry_wait guarded backoff_factor attempt with
             | Return sleeps =>
                 let '(r, evs0) :=
                   peticion_loop n (attempt + 1) attempts backoff_factor post in
                 (r, EvPost attempt :: sleeps ++ evs0)
             | Raise e0 => (Raise e0, [EvPost attempt])
             | Blocked => (Blocked, [EvPost attempt])
             end = (Raise e, evs) ->
             (exists st d, e = HTTPException st d /\ has_code_and_message d) \/
             e = OverflowError \/ e = UnicodeDecodeError).
  { intros guarded.
    destruct (retry_wait guarded backoff_factor attempt) as [sleeps|e0|] eqn:Ew.
    - destruct (peticion_loop n (attempt + 1) attempts backoff_factor post)
        as [r evs0] eqn:E.
      intros [= -> _]. eapply IH. exact E.
    - intros [= <- _]. right. left. exact (retry_wait_errors _ _ _ _ Ew).
    - discriminate. }
  assert (Hlit : forall st items,
             good_detail items ->
             (@Raise json (HTTPException st (DetailDict items)), [EvPost attempt])
             = (Raise e, evs) ->
             (exists st d, e = HTTPException st d /\ has_code_and_message d) \/
             e = OverflowError \/ e = UnicodeDecodeError).
  { intros st items Hg [= <- _]. left. eexists _, _. split; [reflexivity|].
    apply literal_detail_good, Hg. }
  assert (Hwith : forall st code dflt status_code body text,
             (@Raise json (HTTPException st
                             (with_code (_extract_ors_error_detail status_code
                                           body text) code dflt)),
              [EvPost attempt]) = (Raise e, evs) ->
             (exists st d, e = HTTPException st d /\ has_code_and_message d) \/
             e = OverflowError \/ e = UnicodeDecodeError).
  { intros st code dflt sc body text [= <- _]. left. eexists _, _.
    split; [reflexivity|]. apply with_code_good, extract_ors_error_detail_good. }
  destruct (post attempt) as [| |status_code body text|status_code text].
  - destruct (attempt <? attempts); [apply Hnext|].
    apply Hlit. eexists _, _. repeat split; try reflexivity. discriminate.
  - destruct (attempt <? attempts); [apply Hnext|].
    apply Hlit. eexists _, _. repeat split; try reflexivity. discriminate.
  - destruct (status_code =? 200).
    { destruct body; [discriminate|].
      apply Hlit. eexists _, _. repeat split; try reflexivity. discriminate. }
    destruct (status_code =? 400); [apply Hwith|].
    destruct (status_code =? 401); [apply Hwith|].
    destruct (status_code =? 403); [apply Hwith|].
    destruct (status_code =? 429).
    { destruct (attempt <? attempts); [apply Hnext | apply Hwith]. }
    destruct (status_code =? 404); [apply Hwith|].
    match goal with |- context [if ?c then _ else _] => destruct c end.
    { destruct (attempt <? attempts); [apply Hnext | apply Hwith]. }
    apply Hlit. apply extract_ors_error_detail_good.
  - intros [= <- _]. right. right. reflexivity.
Qed.

Lemma hacer_peticion_ors_errors (settings : Settings) (server : upstream)
      (coordenadas : list (list pyfloat)) (profile : string) (e : exn)
      (evs : list event) :
  _hacer_peticion_ors lib settings server coordenadas profile = (Raise e, evs) ->
  (exists st d, e = HTTPException st d /\ has_code_and_message d) \/
  e = OverflowError \/ e = UnicodeDecodeError.
Proof.
  unfold _hacer_peticion_ors.
  destruct (_validate_coordinates lib (coords_json coordenadas) "internal")
    as [normalized|e0] eqn:Ev.
  - apply peticion_loop_errors.
  - intros [= <- _].
    destruct (validate_coordinates_errors _ _ _ Ev) as [(d & -> & Hd) | ->];
      [left; eauto | right; left; reflexivity].
Qed.

Lemma text_detail_bind {A B} (r : pyres A) (k : A -> pyres B) :
  text_detail_res r -> (forall a, text_detail_res (k a)) ->
  text_detail_res (pybind r k).
Proof. destruct r; simpl; auto. Qed.

Ltac text_detail :=
  repeat first
    [ exact I
    | apply text_detail_bind; [|intros ?]
    | match goal with
      | |- text_detail_res (match ?x with _ => _ end) => destruct x
      | |- text_detail_res (if ?c then _ else _) => destruct c
      end
    | progress simpl text_detail_res ].

Lemma py_len_text (x : json) : text_detail_res (py_len x).
Proof. destruct x; exact I. Qed.

Lemma py_index_text (x : json) (i : nat) : text_detail_res (py_index x i).
Proof. unfold py_index. text_detail. Qed.

Lemma py_in_text (k : string) (x : json) : text_detail_res (py_in k x).
Proof. destruct x; exact I. Qed.

Lemma py_getitem_text (x : json) (k : string) : text_detail_res (py_getitem x k).
Proof. unfold py_getitem. text_detail. Qed.

Lemma py_get_text (x : json) (k : string) (dflt : json) :
  text_detail_res (py_get x k dflt).
Proof. destruct x; exact I. Qed.

Lemma py_iter_text (x : json) : text_detail_res (py_iter x).
Proof. destruct x; exact I. Qed.

Lemma py_float_text (x : json) : text_detail_res (py_float lib x).
Proof. unfold py_float, float_of_int. text_detail. Qed.

Lemma py_round_text (f : pyfloat) : text_detail_res (py_round f).
Proof. destruct f; exact I. Qed.

Lemma py_int_text (x : json) : text_detail_res (py_int lib x).
Proof. unfold py_int, int_of_float. text_detail. Qed.

Lemma float_pair_text (lng lat : json) (on_error : pyres (option json)) :
  text_detail_res on_error -> text_detail_res (float_pair lib lng lat on_error).
Proof.
  intros Hon. unfold float_pair.
  pose proof (py_float_text lng) as Hlng. pose proof (py_float_text lat) as Hlat.
  destruct (py_float lib lng) as [flng|e1].
  - destruct (py_float lib lat) as [flat|e2]; [exact I|].
    destruct e2; try exact Hon; exact Hlat.
  - destruct e1; try exact Hon; exact Hlng.
Qed.

Lemma extract_step_location_text (step : list (string * json))
      (ruta_coordenadas : list json) :
  text_detail_res (_extract_step_location lib step ruta_coordenadas).
Proof.
  unfold _extract_step_location.
  assert (Hc : text_detail_res
                 match dict_get "coordinate" step with
                 | Some (JList (c0 :: c1 :: _)) => float_pair lib c0 c1 (Ok None)
                 | _ => Ok None
                 end).
  { destruct (dict_get "coordinate" step) as [[| | | | |[|c0 [|c1 l]]|]|];
      try exact I. apply float_pair_text. exact I. }
  assert (Hi : forall candidate,
             text_detail_res
               (if (0 <=? candidate) && (candidate <? Z.of_nat (length ruta_coordenadas))
                then match ruta_coordenadas !! Z.to_nat candidate with
                     | Some (JDict coord) =>
                         match dict_get "lat" coord, dict_get "lng" coord with
                         | Some lat, Some lng =>
                             if is_number lat && is_number lng
                             then float_pair lib lng lat (Err TypeError)
                             else match dict_get "coordinate" step with
                                  | Some (JList (c0 :: c1 :: _)) =>
                                      float_pair lib c0 c1 (Ok None)
                                  | _ => Ok None
                                  end
                         | _, _ => match dict_get "coordinate" step with
                                   | Some (JList (c0 :: c1 :: _)) =>
                                       float_pair lib c0 c1 (Ok None)
                                   | _ => Ok None
                                   end
                         end
                     | _ => match dict_get "coordinate" step with
                            | Some (JList (c0 :: c1 :: _)) =>
                                float_pair lib c0 c1 (Ok None)
                            | _ => Ok None
                            end
                     end
                else match dict_get "coordinate" step with
                     | Some (JList (c0 :: c1 :: _)) =>
                         float_pair lib c0 c1 (Ok None)
                     | _ => Ok None
                     end)).
  { intros candidate.
    destruct ((0 <=? candidate) && (candidate <? Z.of_nat (length ruta_coordenadas)));
      [|exact Hc].
    destruct (ruta_coordenadas !! Z.to_nat candidate) as [[| | | | | |coord]|];
      try exact Hc.
    destruct (dict_get "lat" coord) as [lat|]; [|exact Hc].
    destruct (dict_get "lng" coord) as [lng|]; [|exact Hc].
    destruct (is_number lat && is_number lng); [|exact Hc].
    apply float_pair_text. exact I. }
  destruct (dict_get "way_points" step) as [[| | | | |[|[] l]|]|];
    try exact Hc; apply Hi.
Qed.

Lemma step_quantity_text (x : json) : text_detail_res (step_quantity lib x).
Proof.
  unfold step_quantity.
  set (y := if py_truthy x then x else JInt 0).
  assert (Hb : text_detail_res (pybind (py_float lib y) py_round)).
  { apply text_detail_bind; [apply py_float_text | apply py_round_text]. }
  destruct (pybind (py_float lib y) py_round) as [n|e]; [exact I|].
  destruct e; try exact I; exact Hb.
Qed.

Lemma parse_steps_loop_text (ruta_coordenadas : list json) (raw_steps : list json) :
  forall idx parsed,
    text_detail_res (parse_steps_loop lib ruta_coordenadas idx parsed raw_steps).
Proof.
  induction raw_steps as [|step rest IH]; intros idx parsed; [exact I|].
  cbn [parse_steps_loop]. destruct step; try apply IH.
  apply text_detail_bind; [apply step_quantity_text | intros distance].
  apply text_detail_bind; [apply step_quantity_text | intros duration].
  apply text_detail_bind; [apply extract_step_location_text | intros location].
  destruct (MAX_ROUTE_STEPS <=? S parsed)%nat; [exact I|].
  apply text_detail_bind; [apply IH | intros more; exact I].
Qed.

Lemma parse_steps_text (raw_steps : json) (ruta_coordenadas : list json) :
  text_detail_res (_parse_steps lib raw_steps ruta_coordenadas).
Proof. destruct raw_steps; try exact I. apply parse_steps_loop_text. Qed.

Lemma decodificar_polyline_text (encoded : string) :
  text_detail_res (_decodificar_polyline lib encoded).
Proof. unfold _decodificar_polyline. destruct (polyline_decode lib encoded); exact I. Qed.

Lemma geojson_points_text (coordinates : list json) :
  text_detail_res (geojson_points coordinates).
Proof.
  induction coordinates as [|coord rest IH]; [exact I|].
  cbn [geojson_points].
  apply text_detail_bind; [apply py_len_text | intros n].
  destruct (2 <=? n)%nat; [|exact IH].
  apply text_detail_bind; [apply py_index_text | intros lng].
  apply text_detail_bind; [apply py_index_text | intros lat].
  apply text_detail_bind; [exact IH | intros more; exact I].
Qed.

Lemma procesar_body_text (ors_response : json) :
  text_detail_res (procesar_body lib ors_response).
Proof.
  unfold procesar_body. destruct ors_response; try exact I.
  destruct (dict_get "routes" d) as [routes|]; [|exact I].
  destruct (negb (py_truthy routes)); [exact I|].
  apply text_detail_bind; [apply py_len_text | intros n].
  destruct (n =? 0)%nat; [exact I|].
  apply text_detail_bind; [apply py_index_text | intros route].
  apply text_detail_bind; [apply py_in_text | intros has_geometry].
  destruct (negb has_geometry); [exact I|].
  apply text_detail_bind; [apply py_getitem_text | intros geometry].
  apply text_detail_bind.
  { destruct geometry; try exact I; [apply decodificar_polyline_text|].
    destruct (dict_get "coordinates" d0); [|exact I].
    apply text_detail_bind; [apply py_iter_text | apply geojson_points_text]. }
  intros ruta_coordenadas.
  apply text_detail_bind; [apply py_in_text | intros has_summary].
  destruct (negb has_summary); [exact I|].
  apply text_detail_bind; [apply py_getitem_text | intros summary].
  apply text_detail_bind;
    [apply text_detail_bind; [apply py_get_text | apply py_int_text]
    | intros distancia_m].
  apply text_detail_bind;
    [apply text_detail_bind; [apply py_get_text | apply py_int_text]
    | intros duracion_s].
  apply text_detail_bind; [apply py_get_text | intros segments].
  apply text_detail_bind; [|intros steps; exact I].
  destruct segments as [| | | | |[|seg0 l]|]; try exact I.
  destruct seg0; apply parse_steps_text.
Qed.

(** An HTTP error of [_procesar_respuesta_ors] has a text for detail, and so
    no code. *)
Lemma procesar_respuesta_ors_text (ors_response : json) :
  text_detail_res (_procesar_respuesta_ors lib ors_response).
Proof.
  unfold _procesar_respuesta_ors.
  pose proof (procesar_body_text ors_response) as Hb.
  destruct (procesar_body lib ors_response) as [r|e]; [exact I|].
  destruct e; try exact I; exact Hb.
Qed.

End ErrorDetails.

(** ** What the orchestrator raises *)

Section Raises.

Context {S : Type} `{CacheService S}.
Variable P : exn -> Prop.

Lemma raises_only_ret {A} (a : A) : raises_only P (@mret S A a).
Proof. intros w e w'. discriminate. Qed.

Lemma raises_only_raise {A} (e : exn) : P e -> raises_only P (@mraise S A e).
Proof. intros He w e' w' [= <- _]. exact He. Qed.

Lemma raises_only_bind {A B} (m : M S A) (k : A -> M S B) :
  raises_only P m -> (forall a, raises_only P (k a)) ->
  raises_only P (mbind m k).
Proof.
  intros Hm Hk w e w'. unfold mbind.
  destruct (m w) as [[a|e0|] w1] eqn:E.
  - apply Hk.
  - intros [= <- _]. eapply Hm. exact E.
  - discriminate.
Qed.

Lemma raises_only_try {A} (m : M S A) (handler : exn -> M S A) :
  (forall e, raises_only P (handler e)) -> raises_only P (try_except m handler).
Proof.
  intros Hh w e w'. unfold try_except.
  destruct (m w) as [[a|e0|] w1]; try discriminate. apply Hh.
Qed.

Lemma raises_only_lift {A} (r : pyres A) :
  (forall e, r = Err e -> P e) -> raises_only P (@lift_pyres S A r).
Proof.
  intros Hr. destruct r as [a|e]; simpl.
  - apply raises_only_ret.
  - apply raises_only_raise. apply Hr. reflexivity.
Qed.

Lemma raises_only_emit (ev : event) : raises_only P (@emit S ev).
Proof. intros w e w'. discriminate. Qed.

Lemma raises_only_emit_all (evs : list event) : raises_only P (@emit_all S evs).
Proof. intros w e w'. discriminate. Qed.

Lemma raises_only_alloc (j : json) : raises_only P (@m_alloc S j).
Proof.
  intros w e w'. unfold m_alloc. destruct (alloc_json j (w_heap w)). discriminate.
Qed.

Lemma raises_only_deepcopy (v : pval) :
  P RuntimeError -> raises_only P (@m_deepcopy S v).
Proof.
  intros HP w e w'. unfold m_deepcopy.
  destruct (deepcopy (length (w_heap w)) (w_heap w) v) as [[h' v']|];
    [discriminate|].
  intros [= <- _]. exact HP.
Qed.

Lemma raises_only_read {A} (f : world S -> M S A) :
  (forall w, raises_only P (f w)) -> raises_only P (fun w => f w w).
Proof. intros Hf w e w'. apply Hf. Qed.

Variables (lib : PyLib) (settings : Settings) (server : upstream).

Lemma lookup_block_raises (enabled : bool) (profile : string)
      (coords : list (list pyfloat)) :
  raises_only P (lookup_block lib enabled profile coords).
Proof.
  unfold lookup_block. destruct enabled; [|apply raises_only_ret].
  apply raises_only_try. intros e. apply raises_only_ret.
Qed.

Lemma lock_block_raises (enabled : bool) (cache_key : option string) :
  raises_only P (lock_block settings enabled cache_key).
Proof.
  unfold lock_block. destruct enabled, cache_key; try apply raises_only_ret.
  apply raises_only_try. intros e. apply raises_only_ret.
Qed.

Lemma release_block_raises (cache_key token : string) :
  raises_only P (release_block cache_key token).
Proof. apply raises_only_try. intros e. apply raises_only_ret. Qed.

Lemma store_block_raises (enabled : bool) (ttl : Z)
      (cache_key lock_token : option string) (resultado : pval) :
  raises_only P (store_block enabled ttl cache_key lock_token resultado).
Proof.
  unfold store_block. destruct enabled, cache_key as [k|].
  - apply raises_only_bind.
    + apply raises_only_try. intros e. apply raises_only_ret.
    + intros _. destruct lock_token; [apply release_block_raises | apply raises_only_ret].
  - intros w e w'. destruct (w_cache w), lock_token; discriminate.
  - intros w e w'. destruct (w_cache w); [destruct lock_token|];
      try discriminate; apply release_block_raises.
  - intros w e w'. destruct (w_cache w), lock_token; discriminate.
Qed.

End Raises.

Section ErrorShapes.

Context {S : Type} `{CacheService S}.
Variables (lib : PyLib) (settings : Settings) (server : upstream).

Lemma text_detail_shape (e : exn) : text_detail_exn e -> error_shape e.
Proof.
  destruct e as [st [s|d]| | | | | | | | | |]; simpl; try (intros; exact I).
  - intros _. right. right. exists s. reflexivity.
  - intros [].
Qed.

Lemma resolve_block_raises (profile : string) (coords : list (list pyfloat)) :
  raises_only error_shape (resolve_block (S := S) lib settings server profile coords).
Proof.
  unfold resolve_block. apply raises_only_bind.
  - destruct (ORSService_init settings) as [msg|].
    + apply raises_only_raise. right. right. exists msg. reflexivity.
    + apply raises_only_ret.
  - intros _.
    destruct (_hacer_peticion_ors lib settings server coords profile)
      as [response evs] eqn:Ereq.
    apply raises_only_bind; [apply raises_only_emit_all | intros _].
    apply raises_only_bind.
    + intros w0 e w1. unfold lift_outcome. intros [= -> _].
      destruct (hacer_peticion_ors_errors lib _ _ _ _ _ _ Ereq)
        as [(st & d & -> & Hd) | [-> | ->]]; [left; exact Hd | exact I | exact I].
    + intros ors_response. apply raises_only_bind.
      * apply raises_only_lift. intros e He. apply text_detail_shape.
        pose proof (procesar_respuesta_ors_text lib ors_response) as Ht.
        rewrite He in Ht. exact Ht.
      * intros resultado.
        destruct resultado; try (apply raises_only_raise; exact I).
        destruct (head coords) as [[|o0 [|o1 o]]|];
          try (apply raises_only_raise; exact I);
          destruct (last coords) as [[|d0 [|d1 dd]]|];
          try (apply raises_only_raise; exact I).
        apply raises_only_alloc.
Qed.

(** Every HTTP error the orchestrator raises has a detail of one of the
    three shapes. *)
Lemma obtener_ruta_raises (coordenadas : json) (profile : option string)
      (cache_ttl : option Z) (allowed_profiles : option (list string)) :
  raises_only error_shape
    (obtener_ruta_ors_por_coordenadas (S := S) lib settings server coordenadas
       profile cache_ttl allowed_profiles).
Proof.
  unfold obtener_ruta_ors_por_coordenadas. apply raises_only_bind.
  { apply raises_only_lift. intros e He.
    destruct (validate_coordinates_errors lib _ _ _ He) as [(d & -> & Hd) | ->];
      [left; exact Hd | exact I]. }
  intros sanitized. apply raises_only_bind.
  { apply raises_only_lift. intros e He.
    destruct (normalize_profile_errors _ _ _ _ He) as (d & -> & Hd & _).
    right. left. exact Hd. }
  intros normalized_profile.
  apply (raises_only_read error_shape
           (fun w0 => mbind (lookup_block lib
                               (caching_enabled (w_cache w0)
                                  (_resolve_cache_ttl settings cache_ttl))
                               normalized_profile sanitized) _)).
  intros w0. apply raises_only_bind; [apply lookup_block_raises|].
  intros [copy|cache_key]; [apply raises_only_ret|].
  apply raises_only_bind.
  { destruct (caching_enabled (w_cache w0) (_resolve_cache_ttl settings cache_ttl)),
      cache_key; try apply raises_only_ret.
    apply raises_only_bind; [|intros; apply raises_only_ret].
    apply raises_only_lift. intros e He. unfold _build_cache_key in He.
    destruct (head sanitized) as [[|o0 [|o1 o]]|];
      try (injection He as <-; exact I);
      destruct (last sanitized) as [[|d0 [|d1 dd]]|];
      try (injection He as <-; exact I); discriminate. }
  intros cache_key'. apply raises_only_bind; [apply lock_block_raises|].
  intros [copy|lock_token]; [apply raises_only_ret|].
  apply raises_only_bind; [apply resolve_block_raises|].
  intros resultado. apply raises_only_bind; [apply store_block_raises|].
  intros _. apply raises_only_deepcopy. exact I.
Qed.

End ErrorShapes.




(** ** The events of the orchestrator *)

Section Events.

Context {S : Type} `{CacheService S}.
Variable Q : event -> Prop.

Lemma emits_only_ret {A} (a : A) : emits_only Q (@mret S A a).
Proof.
  intros w r w' [= <- <-]. exists []. rewrite app_nil_r. split; [reflexivity | constructor].
Qed.

Lemma emits_only_raise {A} (e : exn) : emits_only Q (@mraise S A e).
Proof.
  intros w r w' [= <- <-]. exists []. rewrite app_nil_r. split; [reflexivity | constructor].
Qed.

Lemma emits_only_bind {A B} (m : M S A) (k : A -> M S B) :
  emits_only Q m -> (forall a, emits_only Q (k a)) -> emits_only Q (mbind m k).
Proof.
  intros Hm Hk w r w'. unfold mbind.
  destruct (m w) as [[a|e|] w1] eqn:E; destruct (Hm _ _ _ E) as (evs1 & Ht1 & Hq1).
  - intros Hk'. destruct (Hk _ _ _ _ Hk') as (evs2 & Ht2 & Hq2).
    exists (evs1 ++ evs2). rewrite Ht2, Ht1, app_assoc.
    split; [reflexivity | apply Forall_app; auto].
  - intros [= <- <-]. eauto.
  - intros [= <- <-]. eauto.
Qed.

Lemma emits_only_try {A} (m : M S A) (handler : exn -> M S A) :
  emits_only Q m -> (forall e, emits_only Q (handler e)) ->
  emits_only Q (try_except m handler).
Proof.
  intros Hm Hh w r w'. unfold try_except.
  destruct (m w) as [[a|e|] w1] eqn:E; destruct (Hm _ _ _ E) as (evs1 & Ht1 & Hq1).
  - intros [= <- <-]. eauto.
  - intros Hh'. destruct (Hh _ _ _ _ Hh') as (evs2 & Ht2 & Hq2).
    exists (evs1 ++ evs2). rewrite Ht2, Ht1, app_assoc.
    split; [reflexivity | apply Forall_app; auto].
  - intros [= <- <-]. eauto.
Qed.

Lemma emits_only_lift {A} (r : pyres A) : emits_only Q (@lift_pyres S A r).
Proof. destruct r; [apply emits_only_ret | apply emits_only_raise]. Qed.

Lemma emits_only_emit (ev : event) : Q ev -> emits_only Q (@emit S ev).
Proof.
  intros Hq w r w' [= <- <-]. exists [ev]. split; [reflexivity|].
  constructor; [exact Hq | constructor].
Qed.

Lemma emits_only_emit_all (evs : list event) :
  Forall Q evs -> emits_only Q (@emit_all S evs).
Proof. intros Hq w r w' [= <- <-]. exists evs. split; [reflexivity | exact Hq]. Qed.

Lemma emits_only_call_heap {A} (op : S -> heap -> outcome A * S * heap) :
  emits_only Q (call_heap op).
Proof.
  intros w r w'. unfold call_heap. destruct (w_cache w) as [c|].
  - destruct (op c (w_heap w)) as [[r0 c'] h']. intros [= <- <-].
    exists []. simpl. rewrite app_nil_r. split; [reflexivity | constructor].
  - intros [= <- <-]. exists []. rewrite app_nil_r. split; [reflexivity | constructor].
Qed.

Lemma emits_only_call_cache {A} (op : S -> outcome A * S) :
  emits_only Q (call_cache op).
Proof. apply emits_only_call_heap. Qed.

Lemma emits_only_deepcopy (v : pval) : emits_only Q (@m_deepcopy S v).
Proof.
  intros w r w'. unfold m_deepcopy.
  destruct (deepcopy (length (w_heap w)) (w_heap w) v) as [[h' v']|];
    intros [= <- <-]; exists []; simpl; rewrite app_nil_r;
    (split; [reflexivity | constructor]).
Qed.

Lemma emits_only_alloc (j : json) : emits_only Q (@m_alloc S j).
Proof.
  intros w r w'. unfold m_alloc. destruct (alloc_json j (w_heap w)) as [h' v].
  intros [= <- <-]. exists []. simpl. rewrite app_nil_r.
  split; [reflexivity | constructor].
Qed.

End Events.

Section LockLeak.

Context {S : Type} `{CacheService S}.
Variables (lib : PyLib) (settings : Settings) (server : upstream).

Lemma before_lock_get (key : string) : before_lock (EvCacheGet key).
Proof. split; [split; reflexivity | discriminate]. Qed.

Lemma client_event_before_lock (ev : event) :
  is_client_event ev = true -> before_lock ev.
Proof. destruct ev; try discriminate; intros _; (split; [split; reflexivity | discriminate]). Qed.

Lemma lookup_block_events (enabled : bool) (profile : string)
      (coords : list (list pyfloat)) :
  emits_only before_lock (lookup_block (S := S) lib enabled profile coords).
Proof.
  unfold lookup_block. destruct enabled; [|apply emits_only_ret].
  apply emits_only_try; [|intros; apply emits_only_ret].
  apply emits_only_bind; [apply emits_only_lift | intros cache_key].
  apply emits_only_bind; [apply emits_only_emit, before_lock_get | intros _].
  apply emits_only_bind; [apply emits_only_call_heap | intros [payload|]].
  - apply emits_only_bind; [apply emits_only_deepcopy | intros; apply emits_only_ret].
  - apply emits_only_ret.
Qed.

(** The events of the lock block are quiet, and a lock is reported as
    acquired only when the block goes on with its token. *)
Lemma lock_block_events (enabled : bool) (cache_key : option string)
      (w w' : world S) (r : outcome (pval + option string)) :
  lock_block settings enabled cache_key w = (r, w') ->
  exists evs,
    w_trace w' = w_trace w ++ evs /\ Forall quiet evs /\
    (forall key token,
        In (EvLockAcquired key token) evs -> r = Return (inr (Some token))).
Proof.
  assert (Hnil : forall (w0 : world S) (r0 : outcome (pval + option string)),
             exists evs, w_trace w0 = w_trace w0 ++ evs /\ Forall quiet evs /\
               (forall key token, In (EvLockAcquired key token) evs ->
                                  r0 = Return (inr (Some token)))).
  { intros w0 r0. exists []. rewrite app_nil_r.
    split; [reflexivity|]. split; [constructor | intros ? ? []]. }
  unfold lock_block. destruct enabled; [|intros [= <- <-]; apply Hnil].
  destruct cache_key as [key|]; [|intros [= <- <-]; apply Hnil].
  unfold try_except, mbind, emit, call_cache, call_heap, mret. cbn [w_cache w_heap w_trace].
  assert (Hq1 : quiet (EvAcquireLock key)) by (split; reflexivity).
  assert (Hq2 : forall t, quiet (EvLockAcquired key t)) by (split; reflexivity).
  assert (Hq3 : quiet (EvWaitForValue key)) by (split; reflexivity).
  destruct (w_cache w) as [c|].
  2:{ intros [= <- <-]. exists [EvAcquireLock key]. cbn.
      split; [reflexivity|]. split; [repeat constructor; assumption|].
      intros k t [Hin|[]]. discriminate. }
  destruct (cs_acquire_lock key (CACHE_LOCK_TIMEOUT_SECONDS settings) c)
    as [[[token|]|e|] c1]; cbn [w_cache w_heap w_trace].
  - intros [= <- <-]. exists [EvAcquireLock key; EvLockAcquired key token]. cbn.
    rewrite <- app_assoc. split; [reflexivity|].
    split; [repeat constructor; auto|].
    intros k t [Hin|[Hin|[]]]; [discriminate|]. injection Hin as <- <-. reflexivity.
  - destruct (cs_wait_for_value key c1 (w_heap w)) as [[[[payload|]|e|] c2] h2];
      cbn [w_cache w_heap w_trace].
    + unfold m_deepcopy. cbn [w_cache w_heap w_trace].
      destruct (deepcopy (length h2) h2 payload) as [[h3 v3]|];
        intros [= <- <-]; exists [EvAcquireLock key; EvWaitForValue key]; cbn;
        rewrite <- app_assoc;
        (split; [reflexivity|]); (split; [repeat constructor; auto|]);
        intros k t [Hin|[Hin|[]]]; discriminate.
    + intros [= <- <-]. exists [EvAcquireLock key; EvWaitForValue key]. cbn.
      rewrite <- app_assoc. split; [reflexivity|].
      split; [repeat constructor; auto|].
      intros k t [Hin|[Hin|[]]]; discriminate.
    + intros [= <- <-]. exists [EvAcquireLock key; EvWaitForValue key]. cbn.
      rewrite <- app_assoc. split; [reflexivity|].
      split; [repeat constructor; auto|].
      intros k t [Hin|[Hin|[]]]; discriminate.
    + intros [= <- <-]. exists [EvAcquireLock key; EvWaitForValue key]. cbn.
      rewrite <- app_assoc. split; [reflexivity|].
      split; [repeat constructor; auto|].
      intros k t [Hin|[Hin|[]]]; discriminate.
  - intros [= <- <-]. exists [EvAcquireLock key]. cbn.
    split; [reflexivity|]. split; [repeat constructor; auto|].
    intros k t [Hin|[]]. discriminate.
  - intros [= <- <-]. exists [EvAcquireLock key]. cbn.
    split; [reflexivity|]. split; [repeat constructor; auto|].
    intros k t [Hin|[]]. discriminate.
Qed.

Lemma peticion_loop_events (backoff_factor : Q) (post : Z -> http_reply)
      (n : nat) :
  forall attempt attempts r evs,
    peticion_loop n attempt attempts backoff_factor post = (r, evs) ->
    Forall (fun ev => is_client_event ev = true) evs.
Proof.
  induction n as [|n IH]; intros attempt attempts r evs.
  - intros [= <- <-]. constructor.
  - cbn [peticion_loop].
    assert (Hone : forall r0 : outcome json,
               (r0, [EvPost attempt]) = (r, evs) ->
               Forall (fun ev => is_client_event ev = true) evs).
    { intros r0 [= <- <-]. repeat constructor. }
    assert (Hnext : forall guarded,
               match retry_wait guarded backoff_factor attempt with
               | Return sleeps =>
                   let '(r0, evs0) :=
                     peticion_loop n (attempt + 1) attempts backoff_factor post in
                   (r0, EvPost attempt :: sleeps ++ evs0)
               | Raise e0 => (Raise e0, [EvPost attempt])
               | Blocked => (Blocked, [EvPost attempt])
               end = (r, evs) ->
               Forall (fun ev => is_client_event ev = true) evs).
    { intros guarded.
      destruct (retry_wait guarded backoff_factor attempt) as [sleeps|e0|] eqn:Ew;
        [|apply Hone..].
      destruct (peticion_loop n (attempt + 1) attempts backoff_factor post)
        as [r0 evs0] eqn:E.
      intros [= <- <-]. constructor; [reflexivity|].
      apply Forall_app. split; [|eapply IH; exact E].
      destruct (retry_wait_sleeps _ _ _ _ Ew) as [-> | [seconds ->]];
        repeat constructor. }
    destruct (post attempt) as [| |status_code body text|status_code text].
    + destruct (attempt <? attempts); [apply Hnext | apply Hone].
    + destruct (attempt <? attempts); [apply Hnext | apply Hone].
    + destruct (status_code =? 200); [destruct body; apply Hone|].
      destruct (status_code =? 400); [apply Hone|].
      destruct (status_code =? 401); [apply Hone|].
      destruct (status_code =? 403); [apply Hone|].
      destruct (status_code =? 429).
      { destruct (attempt <? attempts); [apply Hnext | apply Hone]. }
      destruct (status_code =? 404); [apply Hone|].
      match goal with |- context [if ?c then _ else _] => destruct c end;
        [|apply Hone].
      destruct (attempt <? attempts); [apply Hnext | apply Hone].
    + apply Hone.
Qed.

Lemma hacer_peticion_ors_events (coords : list (list pyfloat)) (profile : string)
      (r : outcome json) (evs : list event) :
  _hacer_peticion_ors lib settings server coords profile = (r, evs) ->
  Forall before_lock evs.
Proof.
  unfold _hacer_peticion_ors.
  destruct (_validate_coordinates lib (coords_json coords) "internal").
  - intros Hloop. apply peticion_loop_events in Hloop.
    eapply Forall_impl; [exact Hloop|]. apply client_event_before_lock.
  - intros [= <- <-]. constructor.
Qed.

(** When the upstream request or the normalization fails, the resolve block
    raises that error; it leaves the heap and the cache as they were and
    adds only events of the client. *)
Lemma resolve_block_fails (profile : string) (coords : list (list pyfloat))
      (e : exn) (w : world S) :
  upstream_fails lib settings server coords profile e ->
  exists evs,
    resolve_block lib settings server profile coords w
    = (Raise e, {| w_heap := w_heap w; w_cache := w_cache w;
                   w_trace := w_trace w ++ evs |}) /\
    Forall before_lock evs.
Proof.
  intros [Hinit Hfail]. unfold resolve_block. rewrite Hinit.
  destruct Hfail as [(evs & Hreq) | (resp & evs & Hreq & Hnorm)];
    exists evs; (split; [|eapply hacer_peticion_ors_events; exact Hreq]);
    unfold mbind at 1; cbn [mret]; rewrite Hreq;
    unfold mbind, emit_all, lift_outcome, lift_pyres, mraise, mret; cbn.
  - reflexivity.
  - rewrite Hnorm. reflexivity.
Qed.

Lemma before_lock_quiet (evs : list event) :
  Forall before_lock evs -> Forall quiet evs.
Proof.
  intros Hall. eapply Forall_impl; [exact Hall|]. intros ev [Hq _]. exact Hq.
Qed.

Lemma before_lock_not_acquired (evs : list event) (key token : string) :
  Forall before_lock evs -> ~ In (EvLockAcquired key token) evs.
Proof.
  intros Hall Hin. rewrite List.Forall_forall in Hall.
  destruct (Hall _ Hin) as [_ Hne]. exact (Hne key token eq_refl).
Qed.

(** A call whose upstream request or normalization fails: whatever the cache
    does, the call neither writes to the cache nor releases a lock, and when
    it did acquire a lock it ends with the error of the upstream. *)
Lemma obtener_ruta_upstream_failure (coordenadas : json)
      (profile : option string) (cache_ttl : option Z)
      (allowed_profiles : option (list string))
      (sanitized : list (list pyfloat)) (p : string) (e : exn)
      (w w' : world S) (r : outcome pval) :
  _validate_coordinates lib coordenadas "payload" = Ok sanitized ->
  normalize_profile settings profile allowed_profiles = Ok p ->
  upstream_fails lib settings server sanitized p e ->
  obtener_ruta_ors_por_coordenadas lib settings server
    coordenadas profile cache_ttl allowed_profiles w = (r, w') ->
  exists evs,
    w_trace w' = w_trace w ++ evs /\ Forall quiet evs /\
    (forall key token, In (EvLockAcquired key token) evs -> r = Raise e).
Proof.
  intros Hv Hp Hf. unfold obtener_ruta_ors_por_coordenadas.
  unfold mbind at 1. rewrite Hv. cbn [lift_pyres mret].
  unfold mbind at 1. rewrite Hp. cbn [lift_pyres mret].
  set (enabled := caching_enabled (w_cache w) (_resolve_cache_ttl settings cache_ttl)).
  unfold mbind at 1.
  destruct (lookup_block lib enabled p sanitized w) as [[looked|e1|] w1] eqn:El;
    destruct (lookup_block_events _ _ _ _ _ _ El) as (evs1 & Ht1 & Hq1).
  2,3: intros [= <- <-]; exists evs1;
       (split; [exact Ht1|]); (split; [apply before_lock_quiet, Hq1|]);
       intros k t Hin; destruct (before_lock_not_acquired _ _ _ Hq1 Hin).
  destruct looked as [copy|cache_key].
  { intros [= <- <-]. exists evs1.
    split; [exact Ht1|]. split; [apply before_lock_quiet, Hq1|].
    intros k t Hin. destruct (before_lock_not_acquired _ _ _ Hq1 Hin). }
  unfold mbind at 1.
  set (mkey := match enabled, cache_key with
               | true, None => _ | _, _ => _ end).
  assert (Hkey : exists rk, mkey w1 = (rk, w1)).
  { subst mkey. destruct enabled, cache_key as [k|]; try (eexists; reflexivity).
    unfold mbind, lift_pyres.
    destruct (_build_cache_key lib p sanitized "coords"); eexists; reflexivity. }
  destruct Hkey as (rk & Ek). rewrite Ek.
  destruct rk as [cache_key'|e2|].
  2,3: intros [= <- <-]; exists evs1;
       (split; [exact Ht1|]); (split; [apply before_lock_quiet, Hq1|]);
       intros k t Hin; destruct (before_lock_not_acquired _ _ _ Hq1 Hin).
  unfold mbind at 1.
  destruct (lock_block settings enabled cache_key' w1) as [[locked|e3|] w2] eqn:Elk;
    destruct (lock_block_events _ _ _ _ _ Elk) as (evs2 & Ht2 & Hq2 & Hacq).
  2,3: intros [= <- <-]; exists (evs1 ++ evs2); rewrite Ht2, Ht1, app_assoc;
       (split; [reflexivity|]);
       (split; [apply Forall_app; split; [apply before_lock_quiet, Hq1 | exact Hq2]|]);
       intros k t Hin; apply in_app_or in Hin; destruct Hin as [Hin|Hin];
       [destruct (before_lock_not_acquired _ _ _ Hq1 Hin)
       | discriminate (Hacq _ _ Hin)].
  destruct locked as [copy|lock_token].
  { intros [= <- <-]. exists (evs1 ++ evs2). rewrite Ht2, Ht1, app_assoc.
    split; [reflexivity|].
    split; [apply Forall_app; split; [apply before_lock_quiet, Hq1 | exact Hq2]|].
    intros k t Hin. apply in_app_or in Hin. destruct Hin as [Hin|Hin].
    - destruct (before_lock_not_acquired _ _ _ Hq1 Hin).
    - discriminate (Hacq _ _ Hin). }
  destruct (resolve_block_fails p sanitized e w2 Hf) as (evs3 & Er & Hq3).
  unfold mbind at 1. rewrite Er. intros [= <- <-]. cbn [w_trace].
  exists (evs1 ++ evs2 ++ evs3). rewrite Ht2, Ht1, !app_assoc.
  split; [reflexivity|]. split; [|reflexivity].
  repeat (apply Forall_app; split); auto using before_lock_quiet.
Qed.

End LockLeak.

(** The events of the client are requests and sleeps. *)
Lemma peticion_events_client (lib : PyLib) (settings : Settings)
      (server : upstream) (coords : list (list pyfloat)) (profile : string)
      (r : outcome json) (evs : list event) :
  _hacer_peticion_ors lib settings server coords profile = (r, evs) ->
  Forall (fun ev => is_client_event ev = true) evs.
Proof.
  unfold _hacer_peticion_ors.
  destruct (_validate_coordinates lib (coords_json coords) "internal").
  - apply peticion_loop_events.
  - intros [= <- <-]. constructor.
Qed.

(** ** A call without caching *)

Section CachingOff.

Context {S : Type} `{CacheService S}.
Variables (lib : PyLib) (settings : Settings) (server : upstream).

(** The resolve block adds only events of the client and leaves the cache
    as it is. *)
Lemma resolve_block_trace (profile : string) (coords : list (list pyfloat))
      (w w' : world S) (r : outcome pval) :
  resolve_block lib settings server profile coords w = (r, w') ->
  exists evs,
    w_trace w' = w_trace w ++ evs /\
    Forall (fun ev => is_client_event ev = true) evs /\
    w_cache w' = w_cache w.
Proof.
  assert (Hnil : forall w0 : world S,
             exists evs, w_trace w0 = w_trace w0 ++ evs /\
               Forall (fun ev => is_client_event ev = true) evs /\
               w_cache w0 = w_cache w0).
  { intros w0. exists []. rewrite app_nil_r. repeat split. constructor. }
  unfold resolve_block. unfold mbind at 1.
  destruct (ORSService_init settings) as [msg|]; cbn [mraise mret].
  { intros [= <- <-]. apply Hnil. }
  destruct (_hacer_peticion_ors lib settings server coords profile)
    as [response evs] eqn:Ereq.
  pose proof (peticion_events_client _ _ _ _ _ _ _ Ereq) as Hevs.
  unfold mbind, emit_all, lift_outcome, lift_pyres, mraise, mret, m_alloc.
  cbn [w_heap w_cache w_trace].
  assert (Hdone : forall (r0 : outcome pval) (h0 : heap),
             (r0, {| w_heap := h0; w_cache := w_cache w;
                     w_trace := w_trace w ++ evs |}) = (r, w') ->
             exists evs0, w_trace w' = w_trace w ++ evs0 /\
               Forall (fun ev => is_client_event ev = true) evs0 /\
               w_cache w' = w_cache w).
  { intros r0 h0 [= <- <-]. exists evs. repeat split. exact Hevs. }
  destruct response as [ors_response|e|]; [|apply Hdone..].
  destruct (_procesar_respuesta_ors lib ors_response) as [resultado|e];
    cbn [w_heap w_cache w_trace]; [|apply Hdone].
  destruct resultado; try apply Hdone.
  destruct (head coords) as [[|o0 [|o1 o]]|]; try apply Hdone;
    destruct (last coords) as [[|d0 [|d1 dd]]|]; try apply Hdone.
  cbn [w_heap w_cache w_trace].
  match goal with |- context [alloc_json ?j ?h] => destruct (alloc_json j h) end.
  apply Hdone.
Qed.

(** With caching off, that is without cache or with a TTL that is not
    positive, a call makes no request to a cache: its events are those of
    the client, and the cache, if there is one, is left as it is. *)
Lemma obtener_ruta_caching_off (coordenadas : json) (profile : option string)
      (cache_ttl : option Z) (allowed_profiles : option (list string))
      (w w' : world S) (r : outcome pval) :
  caching_enabled (w_cache w) (_resolve_cache_ttl settings cache_ttl) = false ->
  obtener_ruta_ors_por_coordenadas lib settings server
    coordenadas profile cache_ttl allowed_profiles w = (r, w') ->
  exists evs,
    w_trace w' = w_trace w ++ evs /\
    Forall (fun ev => is_client_event ev = true) evs /\
    w_cache w' = w_cache w.
Proof.
  intros Hoff. unfold obtener_ruta_ors_por_coordenadas.
  assert (Hnil : forall (r0 : outcome pval),
             (r0, w) = (r, w') ->
             exists evs, w_trace w' = w_trace w ++ evs /\
               Forall (fun ev => is_client_event ev = true) evs /\
               w_cache w' = w_cache w).
  { intros r0 [= <- <-]. exists []. rewrite app_nil_r. repeat split. constructor. }
  unfold mbind at 1.
  destruct (_validate_coordinates lib coordenadas "payload") as [sanitized|e];
    cbn [lift_pyres mret mraise]; [|apply Hnil].
  unfold mbind at 1.
  destruct (normalize_profile settings profile allowed_profiles) as [p|e];
    cbn [lift_pyres mret mraise]; [|apply Hnil].
  rewrite Hoff. unfold lookup_block, lock_block.
  unfold mbind at 1. cbn [mret]. unfold mbind at 1. cbn [mret].
  unfold mbind at 1. cbn [mret]. unfold mbind at 1.
  destruct (resolve_block lib settings server p sanitized w) as [[resultado|e|] w1] eqn:Er;
    destruct (resolve_block_trace _ _ _ _ _ Er) as (evs & Ht & Hc & Hcache).
  2,3: intros [= <- <-]; exists evs; repeat split; assumption.
  unfold store_block, mbind, mret, m_deepcopy.
  destruct (w_cache w1) eqn:Ecache; cbn [w_heap w_cache w_trace];
    destruct (deepcopy (length (w_heap w1)) (w_heap w1) resultado) as [[h2 v2]|];
    intros [= <- <-]; exists evs; cbn [w_heap w_cache w_trace];
    repeat split; try assumption; congruence.
Qed.

End CachingOff.

(** ** The effective TTL *)

Lemma resolve_cache_ttl_formula (settings : Settings) (override_ttl : option Z) :
  0 <= CACHE_MAX_TTL_SECONDS settings ->
  _resolve_cache_ttl settings override_ttl =
  Z.min (match override_ttl with
         | Some o => Z.max 0 o
         | None => CACHE_TTL_SECONDS settings
         end) (CACHE_MAX_TTL_SECONDS settings).
Proof.
  intros Hmax. unfold _resolve_cache_ttl.
  destruct (Z.eqb_spec (match override_ttl with
                        | Some o => Z.max 0 o
                        | None => CACHE_TTL_SECONDS settings
                        end) 0) as [E|E].
  - rewrite E. lia.
  - reflexivity.
Qed.

(** C3, as stated, fails for a negative override: it is raised to 0 before
    the minimum is taken, so the result is 0 and not the override. *)
Lemma C3_counterexample :
  _resolve_cache_ttl settings_test (Some (-5))
  <> ttl_as_specified settings_test (Some (-5)).
Proof. vm_compute. discriminate. Qed.

(** C3, amended. Let ttl be the override raised to at least 0, or the
    configured default when there is no override. The effective TTL is 0
    when ttl is 0 and the minimum of ttl and of the configured maximum
    otherwise, whatever the sign of the maximum; with a maximum that is not
    negative it is that minimum in both cases. For an override that is not
    negative (or none), and ttl not 0 or a maximum that is not negative, this
    is the minimum the specification gives. When the effective TTL is 0 or
    less, a call of the orchestrator with it makes no request to the cache,
    whatever the backend: no lookup, no lock, no store and no release; its
    only events are the requests and sleeps of the client and the cache is
    left as it was. An override of 9999 under a maximum of 60 resolves
    to 60. *)
Theorem C3_resolve_cache_ttl_clamped :
  forall (settings : Settings) (override_ttl : option Z),
    let ttl := match override_ttl with
               | Some o => Z.max 0 o
               | None => CACHE_TTL_SECONDS settings
               end in
    (ttl = 0 -> _resolve_cache_ttl settings override_ttl = 0) /\
    (ttl <> 0 ->
     _resolve_cache_ttl settings override_ttl
       = Z.min ttl (CACHE_MAX_TTL_SECONDS settings)) /\
    (0 <= CACHE_MAX_TTL_SECONDS settings ->
     _resolve_cache_ttl settings override_ttl
       = Z.min ttl (CACHE_MAX_TTL_SECONDS settings)) /\
    ((forall o, override_ttl = Some o -> 0 <= o) ->
     ttl <> 0 \/ 0 <= CACHE_MAX_TTL_SECONDS settings ->
     _resolve_cache_ttl settings override_ttl
       = ttl_as_specified settings override_ttl) /\
    (_resolve_cache_ttl settings override_ttl <= 0 ->
     forall (S : Type) (service : CacheService S) (lib : PyLib)
            (server : upstream) (coordenadas : json) (profile : option string)
            (allowed_profiles : option (list string))
            (w w' : world S) (r : outcome pval),
       obtener_ruta_ors_por_coordenadas lib settings server
         coordenadas profile override_ttl allowed_profiles w = (r, w') ->
       exists evs,
         w_trace w' = w_trace w ++ evs /\
         Forall (fun ev => is_client_event ev = true) evs /\
         w_cache w' = w_cache w) /\
    (CACHE_MAX_TTL_SECONDS settings = 60 ->
     _resolve_cache_ttl settings (Some 9999) = 60).
Proof.
  intros settings override_ttl ttl.
  assert (Hzero : ttl = 0 -> _resolve_cache_ttl settings override_ttl = 0).
  { intros E. unfold _resolve_cache_ttl. fold ttl. rewrite E. reflexivity. }
  assert (Hmin : ttl <> 0 ->
                 _resolve_cache_ttl settings override_ttl
                 = Z.min ttl (CACHE_MAX_TTL_SECONDS settings)).
  { intros E. unfold _resolve_cache_ttl. fold ttl.
    destruct (Z.eqb_spec ttl 0); [contradiction | reflexivity]. }
  split; [exact Hzero|]. split; [exact Hmin|].
  split; [intros Hmax; apply resolve_cache_ttl_formula; exact Hmax|].
  split; [|split].
  - intros Hpos Hcase.
    assert (Ettl : ttl = default (CACHE_TTL_SECONDS settings) override_ttl).
    { subst ttl. destruct override_ttl as [o|]; simpl; [|reflexivity].
      specialize (Hpos o eq_refl). lia. }
    unfold ttl_as_specified. rewrite <- Ettl.
    destruct (Z.eq_dec ttl 0) as [E|E].
    + rewrite (Hzero E). destruct Hcase as [Hne|Hmax]; [contradiction|].
      rewrite E. lia.
    + apply Hmin. exact E.
  - intros Hoff S service lib server coordenadas profile allowed_profiles w w' r.
    apply obtener_ruta_caching_off. unfold caching_enabled.
    replace (0 <? _resolve_cache_ttl settings override_ttl) with false
      by (symmetry; apply Z.ltb_ge; exact Hoff).
    apply andb_false_r.
  - intros H60. unfold _resolve_cache_ttl. rewrite H60. reflexivity.
Qed.

Lemma C3_resolve_cache_ttl_clamped_witness :
  _resolve_cache_ttl settings_test (Some 9999) = 60 /\
  _resolve_cache_ttl settings_test (Some (-5)) = 0 /\
  exists evs,
    w_trace (snd (obtener_ruta_ors_por_coordenadas lib_test settings_test
                    server_ok coords_test None (Some (-5)) None
                    (world0 (Some sqlite_empty)))) = [] ++ evs /\
    Forall (fun ev => is_client_event ev = true) evs /\
    w_cache (snd (obtener_ruta_ors_por_coordenadas lib_test settings_test
                    server_ok coords_test None (Some (-5)) None
                    (world0 (Some sqlite_empty)))) = Some sqlite_empty.
Proof.
  destruct (C3_resolve_cache_ttl_clamped settings_test (Some 9999))
    as (_ & _ & _ & _ & _ & Hclamp).
  destruct (C3_resolve_cache_ttl_clamped settings_test (Some (-5)))
    as (Hzero & _ & _ & _ & Hoff & _).
  split; [apply Hclamp; reflexivity|].
  split; [apply Hzero; reflexivity|].
  apply (Hoff ltac:(vm_compute; discriminate)
              SQLiteCache SQLiteCache_service lib_test server_ok coords_test
              None None (world0 (Some sqlite_empty)) _
              (fst (obtener_ruta_ors_por_coordenadas lib_test settings_test
                      server_ok coords_test None (Some (-5)) None
                      (world0 (Some sqlite_empty))))).
  apply surjective_pairing.
Defined.


(** Claim C1. In [obtener_ruta_ors_por_coordenadas], for every call whose
    upstream request or response normalization fails with an error [e], and
    in which a lock was acquired: the error [e] propagates to the caller and
    no cache write occurs, but the release of the lock is NOT attempted: the
    events of the call hold no [EvReleaseLock] (the request and the
    normalization run outside every [try], and the only releases are on the
    path after a successful normalization). *)
Theorem C1_upstream_failure_leaves_lock_held
        {S : Type} `{CacheService S}
        (lib : PyLib) (settings : Settings) (server : upstream)
        (coordenadas : json) (profile : option string) (cache_ttl : option Z)
        (allowed_profiles : option (list string))
        (sanitized : list (list pyfloat)) (p : string) (e : exn)
        (w w' : world S) (r : outcome pval) :
  _validate_coordinates lib coordenadas "payload" = Ok sanitized ->
  normalize_profile settings profile allowed_profiles = Ok p ->
  upstream_fails lib settings server sanitized p e ->
  obtener_ruta_ors_por_coordenadas lib settings server
    coordenadas profile cache_ttl allowed_profiles w = (r, w') ->
  exists evs,
    w_trace w' = w_trace w ++ evs /\
    forall key token,
      In (EvLockAcquired key token) evs ->
      r = Raise e /\
      Forall (fun ev => is_cache_write ev = false) evs /\
      Forall (fun ev => is_release ev = false) evs.
Proof.
  intros Hv Hp Hf Hcall.
  destruct (obtener_ruta_upstream_failure lib settings server _ _ _ _ _ _ _ _ _ _
              Hv Hp Hf Hcall) as (evs & Ht & Hq & Hacq).
  exists evs. split; [exact Ht|]. intros key token Hin.
  split; [exact (Hacq _ _ Hin)|].
  split; (eapply Forall_impl; [exact Hq|]); intros ev [Hw Hr]; assumption.
Qed.

Lemma C1_upstream_failure_leaves_lock_held_witness :
  exists evs,
    w_trace (snd (failing_call (world0 (Some sqlite_empty)))) = [] ++ evs /\
    forall key token,
      In (EvLockAcquired key token) evs ->
      fst (failing_call (world0 (Some sqlite_empty))) = Raise error_404 /\
      Forall (fun ev => is_cache_write ev = false) evs /\
      Forall (fun ev => is_release ev = false) evs.
Proof.
  apply (C1_upstream_failure_leaves_lock_held
           lib_test settings_test server_404 coords_test None None None
           [[Finite (-110); Finite 29]; [Finite (-1101 # 10); Finite (291 # 10)]]
           "foot-walking" error_404
           (world0 (Some sqlite_empty))
           (snd (failing_call (world0 (Some sqlite_empty))))
           (fst (failing_call (world0 (Some sqlite_empty))))).
  - vm_compute. reflexivity.
  - vm_compute. reflexivity.
  - split; [reflexivity|]. left. exists [EvPost 1]. vm_compute. reflexivity.
  - unfold failing_call. apply surjective_pairing.
Defined.

(** The same call, run: with the local backend and a provider that answers
    404, the call acquires the lock of its key, raises the 404 of the client
    without any release, and leaves the lock of the key held in the backend;
    the next call for the same key then stays suspended in [acquire_lock]. *)
Lemma failing_call_leaves_sqlite_lock_held :
  let first := failing_call (world0 (Some sqlite_empty)) in
  fst first = Raise error_404 /\
  w_trace (snd first)
  = [EvCacheGet key_test; EvAcquireLock key_test;
     EvLockAcquired key_test key_test; EvPost 1] /\
  (exists c, w_cache (snd first) = Some c /\ _locks c !! key_test = Some true) /\
  fst (failing_call (snd first)) = Blocked.
Proof.
  cbv zeta. split; [vm_compute; reflexivity|].
  split; [vm_compute; reflexivity|].
  split; [|vm_compute; reflexivity].
  destruct (w_cache (snd (failing_call (world0 (Some sqlite_empty))))) as [c|] eqn:E.
  - exists c. split; [reflexivity|].
    assert (Hl : (w_cache (snd (failing_call (world0 (Some sqlite_empty))))
                  ≫= fun c => _locks c !! key_test) = Some true)
      by (vm_compute; reflexivity).
    rewrite E in Hl. exact Hl.
  - exfalso.
    assert (Hs : is_Some (w_cache (snd (failing_call (world0 (Some sqlite_empty))))))
      by (vm_compute; eauto).
    rewrite E in Hs. destruct Hs as [? Hs]. discriminate.
Qed.

(* ===================================================================== *)
(** * Part III: further properties of the cache backends                   *)
(* ===================================================================== *)

(** ** The locks of the local backend *)

(** Extra X1. [SQLiteCache]: the locks of different keys are independent, and
    a lock that was released can be taken again. Whatever the state of the
    lock of another key, [acquire_lock] on a key whose lock is not held
    returns the key as token; [release_lock] then returns, and the next
    [acquire_lock] on the key returns the token again. Neither operation
    touches the table of routes or the lock of any other key. *)
Theorem sqlite_lock_acquire_release_acquire :
  forall (c : SQLiteCache) (key token : string) (ttl ttl' : Z),
    _locks c !! key <> Some true ->
    exists c1 c2 c3,
      SQLiteCache_acquire_lock key ttl c = (Return (Some key), c1) /\
      SQLiteCache_release_lock key token c1 = (Return tt, c2) /\
      SQLiteCache_acquire_lock key ttl' c2 = (Return (Some key), c3) /\
      routes_cache c3 = routes_cache c /\
      forall other, other <> key -> _locks c3 !! other = _locks c !! other.
Proof.
  intros c key token ttl ttl' Hfree.
  unfold SQLiteCache_acquire_lock, SQLiteCache_release_lock,
    Lock_acquire, Lock_release, Lock_locked.
  assert (Hdef : default false (_locks c !! key) = false)
    by (destruct (_locks c !! key) as [[|]|]; [congruence | reflexivity..]).
  rewrite Hdef. cbn [_locks routes_cache sqlite_now].
  do 3 eexists. split; [reflexivity|]. cbn [_locks routes_cache sqlite_now].
  rewrite lookup_insert_eq. cbn [_locks routes_cache sqlite_now].
  split; [reflexivity|]. cbn [_locks routes_cache sqlite_now].
  rewrite lookup_insert_eq. cbn [default _locks routes_cache sqlite_now].
  split; [reflexivity|]. cbn [_locks routes_cache sqlite_now].
  split; [reflexivity|].
  intros other Hne. rewrite !lookup_insert_ne by congruence. reflexivity.
Qed.

Lemma sqlite_lock_acquire_release_acquire_witness :
  exists c1 c2 c3,
    SQLiteCache_acquire_lock "route:j" 30 sqlite_held = (Return (Some "route:j"), c1) /\
    SQLiteCache_release_lock "route:j" "t" c1 = (Return tt, c2) /\
    SQLiteCache_acquire_lock "route:j" 5 c2 = (Return (Some "route:j"), c3) /\
    routes_cache c3 = routes_cache sqlite_held /\
    forall other, other <> "route:j" ->
                  _locks c3 !! other = _locks sqlite_held !! other.
Proof.
  apply (sqlite_lock_acquire_release_acquire sqlite_held "route:j" "t" 30 5).
  vm_compute. discriminate.
Defined.

(** ** The keys of the Redis backend *)

Lemma lock_key_not_route_key (key digest : string) :
  "route:" +:+ digest <> _LOCK_KEY_PREFIX +:+ key.
Proof. unfold _LOCK_KEY_PREFIX. cbn. discriminate. Qed.

Lemma build_cache_key_prefix (lib : PyLib) (profile variant : string)
      (coordenadas : list (list pyfloat)) (cache_key : string) :
  _build_cache_key lib profile coordenadas variant = Ok cache_key ->
  exists digest, cache_key = "route:" +:+ digest.
Proof.
  unfold _build_cache_key.
  destruct (head coordenadas) as [[|o0 [|o1 ?]]|]; try discriminate;
    destruct (last coordenadas) as [[|d0 [|d1 ?]]|]; try discriminate.
  intros [= <-]. eauto.
Qed.



(** ** Payloads in the heap *)

Section Payloads.

(** Induction on JSON trees, through the lists of their containers. *)
Lemma json_induction (P : json -> Prop) :
  P JNull -> (forall b, P (JBool b)) -> (forall n, P (JInt n)) ->
  (forall f, P (JFloat f)) -> (forall s, P (JStr s)) ->
  (forall l, Forall P l -> P (JList l)) ->
  (forall d, Forall (fun kv => P (snd kv)) d -> P (JDict d)) ->
  forall j, P j.
Proof.
  intros Hnull Hbool Hint Hfloat Hstr Hlist Hdict.
  fix IH 1. intros [ |b|n|f|s|l|d].
  - exact Hnull.
  - apply Hbool.
  - apply Hint.
  - apply Hfloat.
  - apply Hstr.
  - apply Hlist. induction l as [|x l IHl]; constructor; [apply IH | exact IHl].
  - apply Hdict. induction d as [|[k x] d IHd]; constructor;
      [apply IH | exact IHd].
Qed.

(** Reading an object graph back does not depend on what is allocated
    later, nor on spare fuel. *)
Lemma reify_extend (fuel : nat) :
  forall (h ext : heap) (v : pval) (j : json),
    reify fuel h v = Some j -> reify fuel (h ++ ext) v = Some j.
Proof.
  induction fuel as [|fuel IH]; intros h ext v j; destruct v; cbn [reify];
    try (intros; assumption).
  destruct (h !! l) as [o|] eqn:El; [|discriminate].
  rewrite (lookup_app_l_Some _ _ _ _ El).
  destruct o as [vs|kvs].
  - destruct (mapM (reify fuel h) vs) as [js|] eqn:Em; [|discriminate].
    intros [= <-].
    assert (mapM (reify fuel (h ++ ext)) vs = Some js) as ->; [|reflexivity].
    apply mapM_Some in Em. apply mapM_Some.
    eapply Forall2_impl; [exact Em|]. intros x y Hxy. apply IH, Hxy.
  - destruct (mapM (fun kv => pair kv.1 <$> reify fuel h kv.2) kvs)
      as [js|] eqn:Em; [|discriminate].
    intros [= <-].
    assert (mapM (fun kv => pair kv.1 <$> reify fuel (h ++ ext) kv.2) kvs
            = Some js) as ->; [|reflexivity].
    apply mapM_Some in Em. apply mapM_Some.
    eapply Forall2_impl; [exact Em|]. intros [k x] y. cbn [fst snd].
    destruct (reify fuel h x) as [jx|] eqn:Ex; [|discriminate].
    rewrite (IH _ ext _ _ Ex). intros Hxy; exact Hxy.
Qed.

Lemma reify_more_fuel (fuel : nat) :
  forall (fuel' : nat) (h : heap) (v : pval) (j : json),
    (fuel <= fuel')%nat -> reify fuel h v = Some j -> reify fuel' h v = Some j.
Proof.
  induction fuel as [|fuel IH]; intros fuel' h v j Hle; destruct v; cbn [reify];
    try (intros [= <-]; destruct fuel'; reflexivity); try discriminate.
  destruct fuel' as [|fuel']; [lia|]. cbn [reify].
  destruct (h !! l) as [[vs|kvs]|]; [| |discriminate].
  - destruct (mapM (reify fuel h) vs) as [js|] eqn:Em; [|discriminate].
    intros [= <-].
    assert (mapM (reify fuel' h) vs = Some js) as ->; [|reflexivity].
    apply mapM_Some in Em. apply mapM_Some.
    eapply Forall2_impl; [exact Em|]. intros x y Hxy.
    apply (IH fuel'); [lia | exact Hxy].
  - destruct (mapM (fun kv => pair kv.1 <$> reify fuel h kv.2) kvs)
      as [js|] eqn:Em; [|discriminate].
    intros [= <-].
    assert (mapM (fun kv => pair kv.1 <$> reify fuel' h kv.2) kvs
            = Some js) as ->; [|reflexivity].
    apply mapM_Some in Em. apply mapM_Some.
    eapply Forall2_impl; [exact Em|]. intros [k x] y. cbn [fst snd].
    destruct (reify fuel h x) as [jx|] eqn:Ex; [|discriminate].
    rewrite (IH fuel' h x jx); [intros Hxy; exact Hxy | lia | exact Ex].
Qed.

End Payloads.

(** ** Building a payload in the heap and reading it back *)

Section PayloadRoundTrip.

Local Open Scope nat_scope.

Lemma alloc_list_ok (l : list json) :
  Forall alloc_ok l ->
  forall h,
    let go := fix go (l0 : list json) (h0 : heap) {struct l0} : heap * list pval :=
         match l0 with
         | [] => (h0, [])
         | x :: r =>
             let '(h1, v) := alloc_json x h0 in
             let '(h2, vs) := go r h1 in (h2, v :: vs)
         end in
    exists ext,
      (go l h).1 = h ++ ext /\ list_max (map json_depth l) <= length ext /\
      Forall2 (fun v x => reify (json_depth x) (h ++ ext) v = Some x) (go l h).2 l.
Proof.
  intros Hl. induction Hl as [|x l Hx Hl IH]; intros h go.
  - exists []. rewrite app_nil_r. cbn. split; [reflexivity|]. split; [apply Nat.le_refl|constructor].
  - specialize (Hx h). destruct Hx as (ext1 & Hh1 & Hd1 & Hr1).
    cbn [go]. fold go.
    destruct (alloc_json x h) as [h1 v] eqn:Ex. cbn [fst snd] in Hh1, Hr1. subst h1.
    specialize (IH (h ++ ext1)). cbv zeta in IH. fold go in IH.
    destruct IH as (ext2 & Hh2 & Hd2 & Hr2).
    destruct (go l (h ++ ext1)) as [h2 vs] eqn:El. cbn [fst snd] in *. subst h2.
    exists (ext1 ++ ext2). rewrite app_assoc. split; [reflexivity|].
    split.
    { cbn [map list_max]. rewrite length_app. apply Nat.max_lub.
      - apply Nat.le_trans with (length ext1); [exact Hd1 | apply Nat.le_add_r].
      - apply Nat.le_trans with (length ext2); [exact Hd2 | apply Nat.le_add_l]. }
    constructor.
    + rewrite <- app_assoc. rewrite app_assoc. apply reify_extend. exact Hr1.
    + exact Hr2.
Qed.

Lemma alloc_dict_ok (d : list (string * json)) :
  Forall (fun kv => alloc_ok kv.2) d ->
  forall h,
    let go := fix go (d0 : list (string * json)) (h0 : heap) {struct d0}
                : heap * list (string * pval) :=
         match d0 with
         | [] => (h0, [])
         | (k, x) :: r =>
             let '(h1, v) := alloc_json x h0 in
             let '(h2, kvs) := go r h1 in (h2, (k, v) :: kvs)
         end in
    exists ext,
      (go d h).1 = h ++ ext /\
      list_max (map (fun kv => json_depth kv.2) d) <= length ext /\
      Forall2 (fun kv kx => pair kv.1 <$> reify (json_depth kx.2) (h ++ ext) kv.2
                            = Some kx) (go d h).2 d.
Proof.
  intros Hd. induction Hd as [|[k x] d Hx Hd IH]; intros h go.
  - exists []. rewrite app_nil_r. cbn.
    split; [reflexivity|]. split; [apply Nat.le_refl|constructor].
  - specialize (Hx h). destruct Hx as (ext1 & Hh1 & Hd1 & Hr1).
    cbn [go]. fold go. cbn [fst snd] in Hh1, Hd1, Hr1.
    destruct (alloc_json x h) as [h1 v] eqn:Ex. cbn [fst snd] in Hh1, Hr1. subst h1.
    specialize (IH (h ++ ext1)). cbv zeta in IH. fold go in IH.
    destruct IH as (ext2 & Hh2 & Hd2 & Hr2).
    destruct (go d (h ++ ext1)) as [h2 kvs] eqn:El. cbn [fst snd] in *. subst h2.
    exists (ext1 ++ ext2). rewrite app_assoc. split; [reflexivity|].
    split.
    { cbn [map list_max fst snd]. rewrite length_app. apply Nat.max_lub.
      - apply Nat.le_trans with (length ext1); [exact Hd1 | apply Nat.le_add_r].
      - apply Nat.le_trans with (length ext2); [exact Hd2 | apply Nat.le_add_l]. }
    constructor.
    + cbn [fst snd]. rewrite (reify_extend _ _ ext2 _ _ Hr1). reflexivity.
    + exact Hr2.
Qed.

Lemma list_max_ge (l : list nat) (n : nat) : In n l -> n <= list_max l.
Proof.
  induction l as [|m l IH]; [intros []|].
  intros [->|Hin]; cbn [list_max].
  - apply Nat.le_max_l.
  - apply Nat.le_trans with (list_max l); [apply IH, Hin | apply Nat.le_max_r].
Qed.

Lemma Forall2_reify_lift (H : heap) (vs : list pval) (l : list json) :
  Forall2 (fun v x => reify (json_depth x) H v = Some x) vs l ->
  forall (m : nat) (ext2 : heap),
    (forall x, In x l -> json_depth x <= m) ->
    Forall2 (fun v x => reify m (H ++ ext2) v = Some x) vs l.
Proof.
  intros Hr m ext2. induction Hr as [|v x vs l Hvx Hr IH]; intros Hall;
    constructor.
  - apply reify_extend. eapply reify_more_fuel; [|exact Hvx].
    apply Hall. left. reflexivity.
  - apply IH. intros y Hy. apply Hall. right. exact Hy.
Qed.

Lemma Forall2_reify_lift_dict (H : heap) (kvs : list (string * pval))
      (d : list (string * json)) :
  Forall2 (fun kv kx => pair kv.1 <$> reify (json_depth kx.2) H kv.2 = Some kx)
          kvs d ->
  forall (m : nat) (ext2 : heap),
    (forall kx, In kx d -> json_depth kx.2 <= m) ->
    Forall2 (fun kv kx => pair kv.1 <$> reify m (H ++ ext2) kv.2 = Some kx) kvs d.
Proof.
  intros Hr m ext2. induction Hr as [|kv kx kvs d Hvx Hr IH]; intros Hall;
    constructor.
  - destruct (reify (json_depth kx.2) H kv.2) as [jx|] eqn:Ex; [|discriminate].
    rewrite (reify_extend _ _ ext2 _ jx); [exact Hvx|].
    eapply reify_more_fuel; [|exact Ex]. apply Hall. left. reflexivity.
  - apply IH. intros y Hy. apply Hall. right. exact Hy.
Qed.

Lemma alloc_json_reify : forall j, alloc_ok j.
Proof.
  apply json_induction;
    try (intros; intros h; exists []; rewrite app_nil_r; cbn;
         split; [reflexivity|]; split; [apply Nat.le_refl | reflexivity]).
  - intros l Hl h. destruct (alloc_list_ok l Hl h) as (ext & Hh & Hd & Hr).
    cbv zeta in Hh, Hr. cbn [alloc_json].
    match type of Hh with (?g l h).1 = _ =>
      destruct (g l h) as [h' vs] eqn:Eg end.
    cbn [fst snd] in *. subst h'.
    exists (ext ++ [OList vs]). rewrite app_assoc. split; [reflexivity|].
    split; [rewrite length_app; cbn [json_depth length];
            rewrite Nat.add_1_r; apply le_n_S, Hd|].
    cbn [json_depth reify]. unfold heap in *.
    rewrite list_lookup_middle by reflexivity.
    assert (mapM (reify (list_max (map json_depth l)) ((h ++ ext) ++ [OList vs])) vs
            = Some l) as ->; [|reflexivity].
    apply mapM_Some. apply Forall2_reify_lift; [exact Hr|].
    intros x Hin. apply list_max_ge, in_map, Hin.
  - intros d Hd' h. destruct (alloc_dict_ok d Hd' h) as (ext & Hh & Hd & Hr).
    cbv zeta in Hh, Hr. cbn [alloc_json].
    match type of Hh with (?g d h).1 = _ =>
      destruct (g d h) as [h' kvs] eqn:Eg end.
    cbn [fst snd] in *. subst h'.
    exists (ext ++ [ODict kvs]). rewrite app_assoc. split; [reflexivity|].
    split; [rewrite length_app; cbn [json_depth length];
            rewrite Nat.add_1_r; apply le_n_S, Hd|].
    cbn [json_depth reify]. unfold heap in *.
    rewrite list_lookup_middle by reflexivity.
    assert (mapM (fun kv => pair kv.1 <$>
                     reify (list_max (map (fun kv => json_depth kv.2) d))
                       ((h ++ ext) ++ [ODict kvs]) kv.2) kvs
            = Some d) as ->; [|reflexivity].
    apply mapM_Some. apply Forall2_reify_lift_dict; [exact Hr|].
    intros kx Hin. apply list_max_ge.
    apply (in_map (fun kv => json_depth kv.2)), Hin.
Qed.

(** [json.loads] after [json.dumps]: the tree built in the heap reads back as
    the document, with the fuel the backends use, and nothing that was in
    the heap is touched. *)
Lemma alloc_json_round_trip (j : json) (h : heap) :
  reify (length (alloc_json j h).1) (alloc_json j h).1 (alloc_json j h).2 = Some j /\
  exists ext, (alloc_json j h).1 = h ++ ext.
Proof.
  destruct (alloc_json_reify j h) as (ext & Hh & Hd & Hr).
  rewrite Hh. split; [|eauto].
  eapply reify_more_fuel; [|exact Hr].
  rewrite length_app. apply Nat.le_trans with (length ext);
    [exact Hd | apply Nat.le_add_l].
Qed.

End PayloadRoundTrip.

(** ** Storing and reading routes *)

(** Extra X5. [SQLiteCache]: [set], and a [get] some time later. For a
    payload that [json.dumps] accepts: when the time of expiry, now plus the
    TTL, does not fit the 64-bit integer column, [set] raises
    [OverflowError] and stores nothing. Otherwise [set] returns and keeps the
    heap, and a [get] of the key after [elapsed] seconds, with whatever heap
    there is then, gives: while [elapsed] is less than the TTL, a new object
    that reads as the stored document, every object that existed being left
    as it was; from then on (and at once when the TTL is zero or negative)
    [None], deleting the row. *)
Theorem sqlite_set_then_get :
  forall (c : SQLiteCache) (h : heap) (key : string) (payload : pval)
         (ttl : Z) (data : json),
    reify (length h) h payload = Some data ->
    (sqlite_integer (sqlite_now c + ttl) = false ->
     SQLiteCache_set key payload ttl c h = (Raise OverflowError, c, h)) /\
    (sqlite_integer (sqlite_now c + ttl) = true ->
     exists c1,
       SQLiteCache_set key payload ttl c h = (Return tt, c1, h) /\
       forall (elapsed : Z) (h2 : heap),
         (elapsed < ttl ->
          exists h' v,
            SQLiteCache_get key (sqlite_later elapsed c1) h2
            = (Return (Some v), sqlite_later elapsed c1, h') /\
            reify (length h') h' v = Some data /\
            exists ext, h' = h2 ++ ext) /\
         (ttl <= elapsed ->
          exists c2,
            SQLiteCache_get key (sqlite_later elapsed c1) h2
            = (Return None, c2, h2) /\
            routes_cache c2 !! key = None /\
            SQLiteCache_get key c2 h2 = (Return None, c2, h2))).
Proof.
  intros c h key payload ttl data Hdata. unfold SQLiteCache_set. rewrite Hdata.
  split; [intros ->; reflexivity|]. intros ->.
  eexists. split; [reflexivity|]. intros elapsed h2. split.
  - intros Hlt. unfold SQLiteCache_get, sqlite_later.
    cbn [routes_cache sqlite_now _locks]. rewrite lookup_insert_eq.
    destruct (Z.leb_spec (sqlite_now c + ttl) (sqlite_now c + elapsed)); [lia|].
    pose proof (alloc_json_round_trip data h2) as [Hr Hext].
    destruct (alloc_json data h2) as [h' v]. cbn [fst snd] in Hr, Hext.
    exists h', v. split; [reflexivity|]. split; assumption.
  - intros Hge. unfold SQLiteCache_get at 1. unfold sqlite_later.
    cbn [routes_cache sqlite_now _locks]. rewrite lookup_insert_eq.
    destruct (Z.leb_spec (sqlite_now c + ttl) (sqlite_now c + elapsed)); [|lia].
    eexists. split; [reflexivity|]. cbn [routes_cache].
    split; [apply lookup_delete_eq|].
    unfold SQLiteCache_get. cbn [routes_cache]. rewrite lookup_delete_eq.
    reflexivity.
Qed.

Lemma sqlite_set_then_get_witness :
  (sqlite_integer (sqlite_now sqlite_empty + 60) = false ->
   SQLiteCache_set "route:k" (VRef 0) 60 sqlite_empty heap_test
   = (Raise OverflowError, sqlite_empty, heap_test)) /\
  (sqlite_integer (sqlite_now sqlite_empty + 60) = true ->
   exists c1,
     SQLiteCache_set "route:k" (VRef 0) 60 sqlite_empty heap_test
     = (Return tt, c1, heap_test) /\
     forall (elapsed : Z) (h2 : heap),
       (elapsed < 60 ->
        exists h' v,
          SQLiteCache_get "route:k" (sqlite_later elapsed c1) h2
          = (Return (Some v), sqlite_later elapsed c1, h') /\
          reify (length h') h' v = Some data_test /\
          exists ext, h' = h2 ++ ext) /\
       (60 <= elapsed ->
        exists c2,
          SQLiteCache_get "route:k" (sqlite_later elapsed c1) h2
          = (Return None, c2, h2) /\
          routes_cache c2 !! "route:k" = None /\
          SQLiteCache_get "route:k" c2 h2 = (Return None, c2, h2))).
Proof.
  apply (sqlite_set_then_get sqlite_empty heap_test "route:k" (VRef 0) 60 data_test).
  vm_compute. reflexivity.
Defined.

(** ** Validated coordinates *)

Section Validated.

Variable lib : PyLib.

Lemma float_le_range (lo hi : Q) (f : pyfloat) :
  float_le (Finite lo) f && float_le f (Finite hi) = true ->
  exists q, f = Finite q /\ (lo <= q)%Q /\ (q <= hi)%Q.
Proof.
  destruct f as [q| | |]; cbn; try discriminate.
  intros H. apply andb_prop in H as [H1 H2].
  apply Qle_bool_iff in H1. apply Qle_bool_iff in H2. eauto.
Qed.

Lemma validate_pairs_ok (context : string) (pairs : list json) :
  forall (idx : Z) (sanitized : list (list pyfloat)),
    validate_pairs lib context idx pairs = Ok sanitized ->
    length sanitized = length pairs /\ Forall valid_pair sanitized.
Proof.
  induction pairs as [|par rest IH]; intros idx sanitized; cbn [validate_pairs].
  - intros [= <-]. split; [reflexivity | constructor].
  - destruct par as [ | | | | |[|x0 [|x1 xs]]| ]; try discriminate.
    destruct (py_float lib x0) as [lon|[]]; try discriminate;
      destruct (py_float lib x1) as [lat|[]]; try discriminate.
    destruct (float_le (Finite (-180)) lon && float_le lon (Finite 180)) eqn:Elon;
      [|discriminate].
    destruct (float_le (Finite (-90)) lat && float_le lat (Finite 90)) eqn:Elat;
      [|discriminate].
    cbn [negb orb].
    destruct (validate_pairs lib context (idx + 1) rest) as [tail|e] eqn:Er;
      [|discriminate].
    cbn [pybind]. intros [= <-].
    destruct (IH _ _ Er) as [Hlen Hall].
    split; [cbn [length]; rewrite Hlen; reflexivity|].
    constructor; [|exact Hall].
    apply float_le_range in Elon as (qlon & -> & ? & ?).
    apply float_le_range in Elat as (qlat & -> & ? & ?).
    exists qlon, qlat. auto.
Qed.

Lemma validate_pairs_sanitized (context : string)
      (sanitized : list (list pyfloat)) :
  Forall valid_pair sanitized ->
  forall idx,
    validate_pairs lib context idx (map (fun par => JList (map JFloat par)) sanitized)
    = Ok sanitized.
Proof.
  induction 1 as [|par rest (lon & lat & -> & H1 & H2 & H3 & H4) _ IH];
    intros idx; cbn [validate_pairs map]; [reflexivity|].
  cbn [py_float float_le].
  apply Qle_bool_iff in H1, H2, H3, H4. rewrite H1, H2, H3, H4. cbn [andb negb orb].
  rewrite IH. reflexivity.
Qed.

End Validated.

(** What a successful validation gives, for the proofs below. *)
Lemma validate_coordinates_ok_parts (lib : PyLib) (coordenadas : json)
      (source : string) (sanitized : list (list pyfloat)) :
  _validate_coordinates lib coordenadas source = Ok sanitized ->
  (2 <= length sanitized)%nat /\ Forall valid_pair sanitized.
Proof.
  unfold _validate_coordinates.
  destruct coordenadas as [ | | | | |[|p0 [|p1 rest]]| ]; try discriminate.
  intros Hv. apply validate_pairs_ok in Hv as [Hlen Hall].
  split; [rewrite Hlen; cbn [length]; lia | exact Hall].
Qed.

(** Extra X7. What [_validate_coordinates] returns: one pair for each point
    of the request, at least two of them, each of exactly two finite floats,
    a longitude in [-180, 180] and a latitude in [-90, 90]. *)
Theorem validate_coordinates_ok :
  forall (lib : PyLib) (coordenadas : json) (source : string)
         (sanitized : list (list pyfloat)),
    _validate_coordinates lib coordenadas source = Ok sanitized ->
    (exists pairs, coordenadas = JList pairs /\ length sanitized = length pairs) /\
    (2 <= length sanitized)%nat /\
    Forall valid_pair sanitized.
Proof.
  intros lib coordenadas source sanitized. unfold _validate_coordinates.
  destruct coordenadas as [ | | | | |[|p0 [|p1 rest]]| ]; try discriminate.
  intros Hv. apply validate_pairs_ok in Hv as [Hlen Hall].
  split; [eauto|]. split; [rewrite Hlen; cbn [length]; lia | exact Hall].
Qed.

Lemma validate_coordinates_ok_witness :
  (exists pairs, coords_test = JList pairs /\ length sanitized_test = length pairs) /\
  (2 <= length sanitized_test)%nat /\
  Forall valid_pair sanitized_test.
Proof.
  apply (validate_coordinates_ok lib_test coords_test "payload" sanitized_test).
  vm_compute. reflexivity.
Defined.

(** Extra X8. The output of [_validate_coordinates] is accepted again and
    unchanged by [_validate_coordinates] (so the second validation, inside
    the client, of what the orchestrator has validated never fails), and
    [_build_cache_key] builds a key from it, for every profile and variant. *)
Theorem validated_coordinates_are_stable :
  forall (lib : PyLib) (coordenadas : json) (source : string)
         (sanitized : list (list pyfloat)),
    _validate_coordinates lib coordenadas source = Ok sanitized ->
    (forall source',
        _validate_coordinates lib (coords_json sanitized) source' = Ok sanitized) /\
    (forall profile variant,
        exists cache_key,
          _build_cache_key lib profile sanitized variant = Ok cache_key).
Proof.
  intros lib coordenadas source sanitized Hv.
  apply validate_coordinates_ok_parts in Hv as [Hlen Hall]. split.
  - intros source'. unfold _validate_coordinates, coords_json.
    destruct sanitized as [|s0 [|s1 rest]]; cbn [length] in Hlen; try lia.
    cbn [map].
    apply (validate_pairs_sanitized lib _ (s0 :: s1 :: rest) Hall 0).
  - intros profile variant. unfold _build_cache_key.
    destruct sanitized as [|s0 rest]; [cbn [length] in Hlen; lia|].
    cbn [head].
    destruct (last (s0 :: rest)) as [sn|] eqn:El;
      [|apply last_None in El; discriminate].
    apply last_Some in El as [front Hfront].
    pose proof Hall as Hall'. rewrite Hfront in Hall'.
    apply Forall_app in Hall' as [_ Hn]. apply Forall_inv in Hn.
    apply Forall_inv in Hall.
    destruct Hall as (? & ? & -> & _). destruct Hn as (? & ? & -> & _).
    eauto.
Qed.

Lemma validated_coordinates_are_stable_witness :
  (forall source',
      _validate_coordinates lib_test (coords_json sanitized_test) source'
      = Ok sanitized_test) /\
  (forall profile variant,
      exists cache_key,
        _build_cache_key lib_test profile sanitized_test variant = Ok cache_key).
Proof.
  apply (validated_coordinates_are_stable lib_test coords_test "payload"
           sanitized_test).
  vm_compute. reflexivity.
Defined.

(** ** The cache key *)

(** Extra X9. [_build_cache_key] reads the first and the last pair only, each
    as written with six decimals: two coordinate lists that agree there (to
    six decimals), whatever their lengths and the points in between, get the
    same key under the same profile and variant. *)
Theorem build_cache_key_ignores_waypoints :
  forall (lib : PyLib) (profile variant : string)
         (c1 c2 : list (list pyfloat)),
    same_endpoints lib c1 c2 ->
    exists cache_key,
      _build_cache_key lib profile c1 variant = Ok cache_key /\
      _build_cache_key lib profile c2 variant = Ok cache_key.
Proof.
  intros lib profile variant c1 c2. unfold same_endpoints, _build_cache_key.
  intros Hsame.
  destruct (head c1) as [[|a0 [|a1 ?]]|]; try contradiction;
    destruct (head c2) as [[|b0 [|b1 ?]]|]; try contradiction;
    destruct (last c1) as [[|y0 [|y1 ?]]|]; try contradiction;
    destruct (last c2) as [[|z0 [|z1 ?]]|]; try contradiction.
  destruct Hsame as (H1 & H2 & H3 & H4). unfold _format_coord_pair.
  rewrite H1, H2, H3, H4. eauto.
Qed.

Lemma build_cache_key_ignores_waypoints_witness :
  exists cache_key,
    _build_cache_key lib_test "foot-walking" sanitized_test "coords" = Ok cache_key /\
    _build_cache_key lib_test "foot-walking" sanitized_test_via "coords" = Ok cache_key.
Proof.
  apply (build_cache_key_ignores_waypoints lib_test "foot-walking" "coords"
           sanitized_test sanitized_test_via).
  vm_compute. repeat split.
Defined.

(** ** Profiles *)

Section Profiles.
Import PyStr.

Lemma lower_char_idem (c : ascii) : lower_char (lower_char c) = lower_char c.
Proof. destruct c as [[] [] [] [] [] [] [] []]; reflexivity. Qed.

Lemma lower_idem (s : list ascii) : lower (lower s) = lower s.
Proof.
  unfold lower. rewrite map_map. apply map_ext. intros c. apply lower_char_idem.
Qed.

Lemma lstrip_lower (s : list ascii) : lstrip (lower s) = lower (lstrip s).
Proof.
  induction s as [|c s IH]; [reflexivity|].
  cbn [lower map lstrip]. rewrite isspace_lower_char.
  destruct (isspace c); [exact IH | reflexivity].
Qed.

Lemma rstrip_lower (s : list ascii) : rstrip (lower s) = lower (rstrip s).
Proof.
  unfold rstrip, lower. rewrite <- map_rev.
  change (map lower_char (rev s)) with (lower (rev s)).
  rewrite lstrip_lower. unfold lower. rewrite map_rev. reflexivity.
Qed.

Lemma strip_lower (s : list ascii) : strip (lower s) = lower (strip s).
Proof. unfold strip. rewrite lstrip_lower, rstrip_lower. reflexivity. Qed.

Lemma lstrip_idem (s : list ascii) : lstrip (lstrip s) = lstrip s.
Proof.
  induction s as [|c s IH]; [reflexivity|]. cbn [lstrip].
  destruct (isspace c) eqn:E; [exact IH|]. cbn [lstrip]. rewrite E. reflexivity.
Qed.

Lemma rstrip_idem (s : list ascii) : rstrip (rstrip s) = rstrip s.
Proof. unfold rstrip. rewrite rev_involutive, lstrip_idem. reflexivity. Qed.

Lemma lstrip_snoc (s : list ascii) (c : ascii) :
  isspace c = false -> lstrip (s ++ [c]) = lstrip s ++ [c].
Proof.
  intros Hc. induction s as [|a s IH]; cbn [app lstrip].
  - rewrite Hc. reflexivity.
  - destruct (isspace a); [exact IH | reflexivity].
Qed.

Lemma rstrip_cons (c : ascii) (s : list ascii) :
  isspace c = false -> rstrip (c :: s) = c :: rstrip s.
Proof.
  intros Hc. unfold rstrip. cbn [rev]. rewrite lstrip_snoc by exact Hc.
  rewrite rev_app_distr. reflexivity.
Qed.

Lemma lstrip_strip (s : list ascii) : lstrip (strip s) = strip s.
Proof.
  unfold strip. induction s as [|c s IH]; [reflexivity|]. cbn [lstrip].
  destruct (isspace c) eqn:E; [exact IH|].
  rewrite rstrip_cons by exact E. cbn [lstrip]. rewrite E. reflexivity.
Qed.

Lemma strip_idem (s : list ascii) : strip (strip s) = strip s.
Proof.
  unfold strip at 1. rewrite lstrip_strip. unfold strip. apply rstrip_idem.
Qed.

(** A profile in the form [normalize_profile] gives it: stripped, in lower
    case and not empty. *)
Lemma str_canonical (p : string) :
  str_strip p <> "" ->
  str_strip (str_lower (str_strip p)) = str_lower (str_strip p) /\
  str_lower (str_lower (str_strip p)) = str_lower (str_strip p) /\
  str_lower (str_strip p) <> "".
Proof.
  unfold str_strip, str_lower. intros Hne. rewrite !chars_of_chars.
  rewrite strip_lower, strip_idem, lower_idem.
  split; [reflexivity|]. split; [reflexivity|].
  intros Heq. apply Hne.
  destruct (strip (chars p)); [reflexivity | discriminate].
Qed.

End Profiles.

Lemma allowed_profiles_canonical (settings : Settings)
      (allowed_profiles : option (list string)) (x : string) :
  x ∈ normalize_allowed_profiles settings allowed_profiles -> canonical_profile x.
Proof.
  unfold normalize_allowed_profiles.
  set (profiles := default (ORS_ALLOWED_PROFILES settings) allowed_profiles).
  assert (Hmap : In x (map (fun profile => str_lower (str_strip profile))
                           (filter (fun profile => str_strip profile <> "") profiles)) ->
                 canonical_profile x).
  { intros Hin. apply in_map_iff in Hin as (y & <- & Hy).
    apply list_elem_of_In, list_elem_of_filter in Hy as [Hy _].
    destruct (str_canonical y Hy) as (H1 & H2 & H3). split; [|split]; assumption. }
  destruct (map _ (filter _ profiles)) as [|a l] eqn:E.
  - intros Hin. apply list_elem_of_In in Hin. destruct Hin as [<-|[]].
    split; [|split]; [reflexivity | reflexivity | discriminate].
  - intros Hin. apply Hmap. apply list_elem_of_In. exact Hin.
Qed.

Lemma allowed_profiles_head (settings : Settings)
      (allowed_profiles : option (list string)) :
  exists fallback,
    head (normalize_allowed_profiles settings allowed_profiles) = Some fallback /\
    fallback ∈ normalize_allowed_profiles settings allowed_profiles.
Proof.
  assert (Hne : normalize_allowed_profiles settings allowed_profiles <> []).
  { unfold normalize_allowed_profiles.
    destruct (map _ (filter _ _)); discriminate. }
  destruct (normalize_allowed_profiles settings allowed_profiles) as [|a l];
    [congruence|].
  exists a. split; [reflexivity | left].
Qed.

(** Extra X10. [normalize_profile]: the normalized allow-list is never
    empty, and a call without profile, or with a blank one, never raises: it
    gives the first profile of the normalized allow-list. Whatever
    [normalize_profile] returns is a member of the normalized allow-list, is
    stripped, in lower case and not empty, and is returned unchanged when it
    is normalized again. *)
Theorem normalize_profile_canonical :
  forall (settings : Settings) (allowed_profiles : option (list string)),
    (exists fallback,
        head (normalize_allowed_profiles settings allowed_profiles)
        = Some fallback /\
        normalize_profile settings None allowed_profiles = Ok fallback /\
        forall blank, str_strip blank = "" ->
          normalize_profile settings (Some blank) allowed_profiles = Ok fallback) /\
    forall (profile : option string) (candidate : string),
      normalize_profile settings profile allowed_profiles = Ok candidate ->
      candidate ∈ normalize_allowed_profiles settings allowed_profiles /\
      canonical_profile candidate /\
      normalize_profile settings (Some candidate) allowed_profiles = Ok candidate.
Proof.
  intros settings allowed_profiles.
  destruct (allowed_profiles_head settings allowed_profiles) as (fb & Hhead & Hfb).
  split.
  - exists fb. split; [exact Hhead|].
    unfold normalize_profile. rewrite Hhead. cbn [default].
    split.
    + rewrite bool_decide_eq_true_2 by exact Hfb. reflexivity.
    + intros blank ->. cbn [String.eqb].
      rewrite bool_decide_eq_true_2 by exact Hfb. reflexivity.
  - intros profile candidate. unfold normalize_profile at 1.
    match goal with |- context [bool_decide (?c ∈ _)] => set (cand := c) end.
    destruct (bool_decide (cand ∈ _)) eqn:Hin; [|discriminate].
    intros [= <-]. apply bool_decide_eq_true_1 in Hin.
    pose proof (allowed_profiles_canonical _ _ _ Hin) as Hcan.
    split; [exact Hin|]. split; [exact Hcan|].
    destruct Hcan as (Hs & Hl & Hne). unfold normalize_profile.
    rewrite Hs, Hl.
    destruct (String.eqb_spec cand ""); [contradiction|].
    rewrite bool_decide_eq_true_2 by exact Hin. reflexivity.
Qed.

(** With the allow-list [[" Driving-Car "; "cycling-regular"]], a call
    without profile gives ["driving-car"], the first entry normalized; and a
    call with [" Cycling-Regular "] gives ["cycling-regular"], which stays as
    it is when normalized again. *)
Lemma normalize_profile_canonical_witness :
  normalize_profile settings_test None (Some [" Driving-Car "; "cycling-regular"])
  = Ok "driving-car" /\
  ("cycling-regular"
     ∈ normalize_allowed_profiles settings_test
         (Some [" Driving-Car "; "cycling-regular"]) /\
   canonical_profile "cycling-regular" /\
   normalize_profile settings_test (Some "cycling-regular")
     (Some [" Driving-Car "; "cycling-regular"]) = Ok "cycling-regular").
Proof.
  destruct (normalize_profile_canonical settings_test
              (Some [" Driving-Car "; "cycling-regular"]))
    as [(fallback & Hhead & Hnone & _) Hcanon].
  split.
  - rewrite Hnone. f_equal.
    assert (Hh : head (normalize_allowed_profiles settings_test
                         (Some [" Driving-Car "; "cycling-regular"]))
                 = Some "driving-car") by (vm_compute; reflexivity).
    rewrite Hh in Hhead. injection Hhead as <-. reflexivity.
  - apply (Hcanon (Some " Cycling-Regular ") "cycling-regular").
    vm_compute. reflexivity.
Defined.

(** ** The requests of the client *)

Section ClientRequests.

Variables (backoff_factor : Q) (post : Z -> http_reply).

Lemma posts_of_app (a b : list event) : posts_of (a ++ b) = posts_of a ++ posts_of b.
Proof.
  induction a as [|ev a IH]; [reflexivity|].
  destruct ev; cbn [app posts_of]; rewrite IH; reflexivity.
Qed.

Lemma sleeps_of_app (a b : list event) :
  sleeps_of (a ++ b) = sleeps_of a ++ sleeps_of b.
Proof.
  induction a as [|ev a IH]; [reflexivity|].
  destruct ev; cbn [app sleeps_of]; rewrite IH; reflexivity.
Qed.

Lemma loop_outcome_one (attempt : Z) (n : nat) (r : outcome json) :
  match r with
  | Return payload => exists text, post attempt = Response 200 (Some payload) text
  | _ => True
  end ->
  loop_outcome post attempt n r [EvPost attempt].
Proof.
  intros Hr. exists O. rewrite Z.add_0_r.
  split; [lia|]. split; [reflexivity|]. split; [reflexivity|].
  split; [cbn; lia | exact Hr].
Qed.

Lemma loop_outcome_next (attempt : Z) (n : nat) (r : outcome json)
      (sleeps evs : list event) :
  posts_of sleeps = [] -> (length (sleeps_of sleeps) <= 1)%nat ->
  loop_outcome post (attempt + 1) n r evs ->
  loop_outcome post attempt (S n) r (EvPost attempt :: sleeps ++ evs).
Proof.
  intros Hp Hs (k & Hk & Hposts & Hlast & Hsl & Hr). exists (S k).
  replace (attempt + Z.of_nat (S k)) with (attempt + 1 + Z.of_nat k) by lia.
  split; [lia|]. split; [|split; [|split; [|exact Hr]]].
  - cbn [posts_of py_range]. rewrite posts_of_app, Hp, Hposts. reflexivity.
  - change (EvPost attempt :: sleeps ++ evs)
      with (([EvPost attempt] ++ sleeps) ++ evs).
    destruct evs as [|ev evs]; [discriminate|].
    rewrite last_app_cons. exact Hlast.
  - cbn [sleeps_of]. rewrite sleeps_of_app, length_app. lia.
Qed.

Lemma peticion_loop_outcome (n : nat) :
  forall attempt attempts r evs,
    attempts = attempt + Z.of_nat n ->
    peticion_loop (S n) attempt attempts backoff_factor post = (r, evs) ->
    loop_outcome post attempt n r evs.
Proof.
  induction n as [|n IH]; intros attempt attempts r evs Hatt.
  - (* the last attempt: nothing is retried *)
    cbn [peticion_loop].
    replace (attempt <? attempts) with false by (symmetry; apply Z.ltb_ge; lia).
    assert (Hone : forall r0 : outcome json,
               match r0 with
               | Return payload =>
                   exists text, post attempt = Response 200 (Some payload) text
               | _ => True
               end ->
               (r0, [EvPost attempt]) = (r, evs) ->
               loop_outcome post attempt 0 r evs).
    { intros r0 Hr0 [= <- <-]. apply loop_outcome_one, Hr0. }
    destruct (post attempt) as [| |status_code body text|status_code text] eqn:Ep;
      [apply Hone; exact I | apply Hone; exact I | | apply Hone; exact I].
    destruct (status_code =? 200) eqn:E200.
    { apply Z.eqb_eq in E200. subst status_code.
      destruct body; apply Hone; [eauto | exact I]. }
    repeat match goal with
           | |- context [if ?c then _ else _] => destruct c
           end; apply Hone; exact I.
  - (* a further attempt is left *)
    cbn [peticion_loop].
    assert (Hone : forall r0 : outcome json,
               match r0 with
               | Return payload =>
                   exists text, post attempt = Response 200 (Some payload) text
               | _ => True
               end ->
               (r0, [EvPost attempt]) = (r, evs) ->
               loop_outcome post attempt (S n) r evs).
    { intros r0 Hr0 [= <- <-]. apply loop_outcome_one, Hr0. }
    assert (Hnext : forall guarded,
               match retry_wait guarded backoff_factor attempt with
               | Return sleeps =>
                   let '(r0, evs0) :=
                     peticion_loop (S n) (attempt + 1) attempts backoff_factor post in
                   (r0, EvPost attempt :: sleeps ++ evs0)
               | Raise e0 => (Raise e0, [EvPost attempt])
               | Blocked => (Blocked, [EvPost attempt])
               end = (r, evs) ->
               loop_outcome post attempt (S n) r evs).
    { intros guarded.
      destruct (retry_wait guarded backoff_factor attempt) as [sleeps|e0|] eqn:Ew;
        [|apply Hone; exact I..].
      destruct (peticion_loop (S n) (attempt + 1) attempts backoff_factor post)
        as [r0 evs0] eqn:E.
      intros [= <- <-].
      apply loop_outcome_next; [| |eapply IH; [|exact E]; lia];
        destruct (retry_wait_sleeps _ _ _ _ Ew) as [-> | [seconds ->]];
        cbn; (reflexivity || lia). }
    destruct (post attempt) as [| |status_code body text|status_code text] eqn:Ep.
    + destruct (attempt <? attempts); [apply Hnext | apply Hone; exact I].
    + destruct (attempt <? attempts); [apply Hnext | apply Hone; exact I].
    + destruct (status_code =? 200) eqn:E200.
      { apply Z.eqb_eq in E200. subst status_code.
        destruct body; apply Hone; [eauto | exact I]. }
      destruct (status_code =? 400); [apply Hone; exact I|].
      destruct (status_code =? 401); [apply Hone; exact I|].
      destruct (status_code =? 403); [apply Hone; exact I|].
      destruct (status_code =? 429).
      { destruct (attempt <? attempts); [apply Hnext | apply Hone; exact I]. }
      destruct (status_code =? 404); [apply Hone; exact I|].
      match goal with |- context [if ?c then _ else _] => destruct c end;
        [|apply Hone; exact I].
      destruct (attempt <? attempts); [apply Hnext | apply Hone; exact I].
    + apply Hone; exact I.
Qed.

End ClientRequests.





(** ** The steps of a route *)

Section Steps.

Variable lib : PyLib.

Lemma steps_from_weaken (bound : Z) (steps : list json) :
  forall first first', first' <= first ->
    steps_from first bound steps -> steps_from first' bound steps.
Proof.
  destruct steps as [|step rest]; intros first first' Hle; [trivial|].
  cbn [steps_from].
  intros (orden & distance & duration & texto & location & -> & Ho & Hd & Ht & Hr).
  exists orden, distance, duration, texto, location.
  repeat split; try assumption; lia.
Qed.

Lemma step_quantity_nonneg (x : json) (n : Z) :
  step_quantity lib x = Ok n -> 0 <= n.
Proof.
  unfold step_quantity.
  destruct (pybind (py_float lib (if py_truthy x then x else JInt 0)) py_round)
    as [m|[]]; intros [= <-]; lia.
Qed.

Lemma parse_steps_loop_ok (ruta_coordenadas : list json) (raw_steps : list json) :
  forall (idx : Z) (parsed : nat) (steps : list json),
    (parsed < MAX_ROUTE_STEPS)%nat ->
    parse_steps_loop lib ruta_coordenadas idx parsed raw_steps = Ok steps ->
    (length steps + parsed <= MAX_ROUTE_STEPS)%nat /\
    steps_from idx (idx + Z.of_nat (length raw_steps)) steps.
Proof.
  induction raw_steps as [|raw rest IH]; intros idx parsed steps Hparsed;
    cbn [parse_steps_loop].
  - intros [= <-]. split; [cbn [length]; lia | exact I].
  - assert (Hskip : parse_steps_loop lib ruta_coordenadas (idx + 1) parsed rest
                    = Ok steps ->
                    (length steps + parsed <= MAX_ROUTE_STEPS)%nat /\
                    steps_from idx (idx + Z.of_nat (length (raw :: rest))) steps).
    { intros Hr. destruct (IH _ _ _ Hparsed Hr) as [Hlen Hfrom]. split; [exact Hlen|].
      apply (steps_from_weaken _ _ (idx + 1)); [lia|].
      replace (idx + Z.of_nat (length (raw :: rest)))
        with (idx + 1 + Z.of_nat (length rest)) by (cbn [length]; lia).
      exact Hfrom. }
    destruct raw as [ | | | | | |step]; try exact Hskip. clear Hskip.
    destruct (step_quantity lib (default (JInt 0) (dict_get "distance" step)))
      as [distance|e] eqn:Ed; [|discriminate].
    destruct (step_quantity lib (default (JInt 0) (dict_get "duration" step)))
      as [duration|e] eqn:Et; [|discriminate].
    destruct (_extract_step_location lib step ruta_coordenadas)
      as [location|e]; [|discriminate].
    cbn [pybind]. apply step_quantity_nonneg in Ed, Et.
    destruct (Nat.leb_spec MAX_ROUTE_STEPS (S parsed)) as [Hmax|Hmax].
    + intros [= <-]. split; [cbn [length]; lia|]. cbn [steps_from].
      do 5 eexists. split; [reflexivity|].
      repeat split; try assumption; cbn [length]; lia.
    + destruct (parse_steps_loop lib ruta_coordenadas (idx + 1) (S parsed) rest)
        as [more|e] eqn:Er; [|discriminate].
      cbn [pybind]. intros [= <-].
      destruct (IH _ _ _ Hmax Er) as [Hlen Hfrom].
      split; [cbn [length]; lia|]. cbn [steps_from].
      do 5 eexists. split; [reflexivity|].
      split; [cbn [length]; lia|]. split; [assumption|]. split; [assumption|].
      replace (idx + Z.of_nat (length (JDict step :: rest)))
        with (idx + 1 + Z.of_nat (length rest)) by (cbn [length]; lia).
      exact Hfrom.
Qed.

(** The steps parsed are those of the raw dicts, in their order, as many as
    the limit leaves room for. *)
Lemma parse_steps_loop_steps (ruta_coordenadas : list json) (raw_steps : list json) :
  forall (idx : Z) (parsed : nat) (steps : list json),
    (parsed < MAX_ROUTE_STEPS)%nat ->
    parse_steps_loop lib ruta_coordenadas idx parsed raw_steps = Ok steps ->
    Forall2 (is_parsed_step lib ruta_coordenadas)
            (take (MAX_ROUTE_STEPS - parsed) (dict_steps idx raw_steps)) steps.
Proof.
  induction raw_steps as [|raw rest IH]; intros idx parsed steps Hparsed;
    cbn [parse_steps_loop dict_steps].
  - intros [= <-]. rewrite take_nil. constructor.
  - assert (Hskip : parse_steps_loop lib ruta_coordenadas (idx + 1) parsed rest
                    = Ok steps ->
                    Forall2 (is_parsed_step lib ruta_coordenadas)
                            (take (MAX_ROUTE_STEPS - parsed)
                                  (dict_steps (idx + 1) rest)) steps)
      by (apply IH; exact Hparsed).
    destruct raw as [ | | | | | |step]; try exact Hskip. clear Hskip.
    destruct (step_quantity lib (default (JInt 0) (dict_get "distance" step)))
      as [distance|e] eqn:Ed; [|discriminate].
    destruct (step_quantity lib (default (JInt 0) (dict_get "duration" step)))
      as [duration|e] eqn:Et; [|discriminate].
    destruct (_extract_step_location lib step ruta_coordenadas)
      as [location|e] eqn:El; [|discriminate].
    cbn [pybind].
    assert (Hstep : is_parsed_step lib ruta_coordenadas (idx, step)
                      (JDict [("orden", JInt idx);
                              ("texto",
                               JStr (_normalize_step_text
                                       (default JNull (dict_get "instruction" step))
                                       (default JNull (dict_get "name" step))
                                       (idx + 1)));
                              ("distance_m", JInt distance);
                              ("duration_s", JInt duration);
                              ("location", default JNull location)])).
    { exists distance, duration, location.
      split; [exact Ed|]. split; [exact Et|]. split; [exact El|].
      split; [exact (step_quantity_nonneg _ _ Ed)|].
      split; [exact (step_quantity_nonneg _ _ Et) | reflexivity]. }
    destruct (Nat.leb_spec MAX_ROUTE_STEPS (S parsed)) as [Hmax|Hmax].
    + intros [= <-].
      replace (MAX_ROUTE_STEPS - parsed)%nat with 1%nat by lia.
      cbn [take]. rewrite take_0. constructor; [exact Hstep | constructor].
    + destruct (parse_steps_loop lib ruta_coordenadas (idx + 1) (S parsed) rest)
        as [more|e] eqn:Er; [|discriminate].
      cbn [pybind]. intros [= <-].
      replace (MAX_ROUTE_STEPS - parsed)%nat
        with (S (MAX_ROUTE_STEPS - S parsed))%nat by lia.
      cbn [take]. constructor; [exact Hstep|].
      apply IH; [exact Hmax | exact Er].
Qed.

End Steps.

Lemma parse_steps_length (lib : PyLib) (raw_steps : json)
      (ruta_coordenadas steps : list json) :
  _parse_steps lib raw_steps ruta_coordenadas = Ok steps ->
  (length steps <= MAX_ROUTE_STEPS)%nat.
Proof.
  unfold _parse_steps.
  destruct raw_steps as [ | | | | |l| ];
    try (intros [= <-]; cbn [length]; unfold MAX_ROUTE_STEPS; lia).
  intros Hloop. apply parse_steps_loop_ok in Hloop as [Hlen _];
    [lia | unfold MAX_ROUTE_STEPS; lia].
Qed.

(** Extra X13. What [_parse_steps] returns. Raw steps that are not a list
    give the empty list. Of a raw list, the elements that are not dicts are
    skipped, and the dicts are parsed in their order, up to
    [MAX_ROUTE_STEPS] (200) of them: the step made of the dict at index i of
    the raw list has exactly the fields [orden] = i, [texto] = the text
    [_normalize_step_text] gives for its instruction, its name and the
    number i + 1, [distance_m] and [duration_s], the two quantities of the
    raw step, which are integers that are not negative, and [location]. So
    the steps are at most 200, and [orden] grows from step to step and stays
    below the length of the raw list. *)
Theorem parse_steps_ok :
  forall (lib : PyLib) (raw_steps : json) (ruta_coordenadas steps : list json),
    _parse_steps lib raw_steps ruta_coordenadas = Ok steps ->
    Forall2 (is_parsed_step lib ruta_coordenadas)
            (take MAX_ROUTE_STEPS
                  (dict_steps 0 (match raw_steps with
                                 | JList l => l
                                 | _ => []
                                 end)))
            steps /\
    (length steps <= MAX_ROUTE_STEPS)%nat /\
    steps_from 0 (match raw_steps with
                  | JList l => Z.of_nat (length l)
                  | _ => 0
                  end) steps /\
    ((forall l, raw_steps <> JList l) -> steps = []).
Proof.
  intros lib raw_steps ruta_coordenadas steps. unfold _parse_steps.
  destruct raw_steps as [ | | | | |l| ];
    try (intros [= <-]; split; [constructor|];
         split; [cbn; lia | split; [exact I | reflexivity]]).
  intros Hloop. split.
  - apply parse_steps_loop_steps in Hloop; [|unfold MAX_ROUTE_STEPS; lia].
    rewrite Nat.sub_0_r in Hloop. exact Hloop.
  - apply parse_steps_loop_ok in Hloop as [Hlen Hfrom];
      [|unfold MAX_ROUTE_STEPS; lia].
    split; [lia|]. split; [exact Hfrom|]. intros Hno. destruct (Hno l eq_refl).
Qed.

(** On [steps_test] the two dicts, at the indices 0 and 2, give the steps
    with [orden] 0 and 2. *)
Lemma parse_steps_ok_witness :
  exists step0 step2,
    _parse_steps lib_test steps_test [] = Ok [step0; step2] /\
    dict_get "orden" (match step0 with JDict d => d | _ => [] end) = Some (JInt 0) /\
    dict_get "orden" (match step2 with JDict d => d | _ => [] end) = Some (JInt 2) /\
    Forall2 (is_parsed_step lib_test [])
            (take MAX_ROUTE_STEPS (dict_steps 0 (match steps_test with
                                                 | JList l => l
                                                 | _ => []
                                                 end)))
            [step0; step2].
Proof.
  eexists _, _. split; [reflexivity|]. split; [reflexivity|].
  split; [reflexivity|].
  apply (parse_steps_ok lib_test steps_test []). reflexivity.
Defined.

(** ** The normalizer *)

Section Normalizer.

Variable lib : PyLib.

Lemma status_bind {A B} (r : pyres A) (k : A -> pyres B) :
  status_res r -> (forall a, status_res (k a)) -> status_res (pybind r k).
Proof. destruct r; simpl; auto. Qed.

Ltac status :=
  repeat first
    [ exact I
    | apply status_bind; [|intros ?]
    | match goal with
      | |- status_res (match ?x with _ => _ end) => destruct x
      | |- status_res (if ?c then _ else _) => destruct c
      end
    | progress simpl status_res ].

Lemma py_len_status (x : json) : status_res (py_len x).
Proof. destruct x; exact I. Qed.

Lemma py_index_status (x : json) (i : nat) : status_res (py_index x i).
Proof. unfold py_index. status. Qed.

Lemma py_in_status (k : string) (x : json) : status_res (py_in k x).
Proof. destruct x; exact I. Qed.

Lemma py_getitem_status (x : json) (k : string) : status_res (py_getitem x k).
Proof. unfold py_getitem. status. Qed.

Lemma py_get_status (x : json) (k : string) (dflt : json) :
  status_res (py_get x k dflt).
Proof. destruct x; exact I. Qed.

Lemma py_iter_status (x : json) : status_res (py_iter x).
Proof. destruct x; exact I. Qed.

Lemma py_float_status (x : json) : status_res (py_float lib x).
Proof. unfold py_float, float_of_int. status. Qed.

Lemma py_round_status (f : pyfloat) : status_res (py_round f).
Proof. destruct f; exact I. Qed.

Lemma py_int_status (x : json) : status_res (py_int lib x).
Proof. unfold py_int, int_of_float. status. Qed.

Lemma float_pair_status (lng lat : json) (on_error : pyres (option json)) :
  status_res on_error -> status_res (float_pair lib lng lat on_error).
Proof.
  intros Hon. unfold float_pair.
  pose proof (py_float_status lng) as Hlng. pose proof (py_float_status lat) as Hlat.
  destruct (py_float lib lng) as [flng|e1].
  - destruct (py_float lib lat) as [flat|e2]; [exact I|].
    destruct e2; try exact Hon; exact Hlat.
  - destruct e1; try exact Hon; exact Hlng.
Qed.

Lemma extract_step_location_status (step : list (string * json))
      (ruta_coordenadas : list json) :
  status_res (_extract_step_location lib step ruta_coordenadas).
Proof.
  unfold _extract_step_location.
  repeat match goal with
         | |- status_res (float_pair _ _ _ _) => apply float_pair_status
         | |- status_res (match ?x with _ => _ end) => destruct x
         | |- status_res (if ?c then _ else _) => destruct c
         | |- status_res (Ok _) => exact I
         | |- status_res (Err TypeError) => exact I
         end.
Qed.

Lemma step_quantity_status (x : json) : status_res (step_quantity lib x).
Proof.
  unfold step_quantity.
  set (y := if py_truthy x then x else JInt 0).
  assert (Hb : status_res (pybind (py_float lib y) py_round)).
  { apply status_bind; [apply py_float_status | apply py_round_status]. }
  destruct (pybind (py_float lib y) py_round) as [n|e]; [exact I|].
  destruct e; try exact I; exact Hb.
Qed.

Lemma parse_steps_loop_status (ruta_coordenadas : list json) (raw_steps : list json) :
  forall idx parsed,
    status_res (parse_steps_loop lib ruta_coordenadas idx parsed raw_steps).
Proof.
  induction raw_steps as [|step rest IH]; intros idx parsed; [exact I|].
  cbn [parse_steps_loop]. destruct step; try apply IH.
  apply status_bind; [apply step_quantity_status | intros distance].
  apply status_bind; [apply step_quantity_status | intros duration].
  apply status_bind; [apply extract_step_location_status | intros location].
  destruct (MAX_ROUTE_STEPS <=? S parsed)%nat; [exact I|].
  apply status_bind; [apply IH | intros more; exact I].
Qed.

Lemma parse_steps_status (raw_steps : json) (ruta_coordenadas : list json) :
  status_res (_parse_steps lib raw_steps ruta_coordenadas).
Proof. destruct raw_steps; try exact I. apply parse_steps_loop_status. Qed.

Lemma decodificar_polyline_status (encoded : string) :
  status_res (_decodificar_polyline lib encoded).
Proof.
  unfold _decodificar_polyline. destruct (polyline_decode lib encoded);
    [exact I | right; reflexivity].
Qed.

Lemma geojson_points_status (coordinates : list json) :
  status_res (geojson_points coordinates).
Proof.
  induction coordinates as [|coord rest IH]; [exact I|].
  cbn [geojson_points].
  apply status_bind; [apply py_len_status | intros n].
  destruct (2 <=? n)%nat; [|exact IH].
  apply status_bind; [apply py_index_status | intros lng].
  apply status_bind; [apply py_index_status | intros lat].
  apply status_bind; [exact IH | intros more; exact I].
Qed.

(** A bind whose continuation gives a normalized route. *)
Lemma normalized_bind {A} (r : pyres A) (k : A -> pyres json) :
  status_res r -> (forall a, r = Ok a -> normalized_ok (k a)) ->
  normalized_ok (pybind r k).
Proof. destruct r; simpl; auto. Qed.

Lemma procesar_body_normalized (ors_response : json) :
  normalized_ok (procesar_body lib ors_response).
Proof.
  unfold procesar_body.
  destruct ors_response as [ | | | | | |response]; try (right; reflexivity).
  destruct (dict_get "routes" response) as [routes|]; [|right; reflexivity].
  destruct (negb (py_truthy routes)); [left; reflexivity|].
  apply normalized_bind; [apply py_len_status | intros n _].
  destruct (n =? 0)%nat; [left; reflexivity|].
  apply normalized_bind; [apply py_index_status | intros route _].
  apply normalized_bind; [apply py_in_status | intros has_geometry _].
  destruct (negb has_geometry); [right; reflexivity|].
  apply normalized_bind; [apply py_getitem_status | intros geometry _].
  apply normalized_bind.
  { destruct geometry as [ | | | |encoded| |g]; try (right; reflexivity).
    - apply decodificar_polyline_status.
    - destruct (dict_get "coordinates" g) as [coordinates|]; [|right; reflexivity].
      apply status_bind; [apply py_iter_status | apply geojson_points_status]. }
  intros ruta_coordenadas _.
  apply normalized_bind; [apply py_in_status | intros has_summary _].
  destruct (negb has_summary); [right; reflexivity|].
  apply normalized_bind; [apply py_getitem_status | intros summary _].
  apply normalized_bind;
    [apply status_bind; [apply py_get_status | apply py_int_status]
    | intros distancia_m _].
  apply normalized_bind;
    [apply status_bind; [apply py_get_status | apply py_int_status]
    | intros duracion_s _].
  apply normalized_bind; [apply py_get_status | intros segments _].
  apply normalized_bind.
  { destruct segments as [ | | | | |[|[] ?]| ]; try exact I;
      apply parse_steps_status. }
  intros steps Hsteps. cbn [normalized_ok].
  exists ruta_coordenadas, steps, distancia_m, duracion_s.
  split; [reflexivity|].
  destruct segments as [ | | | | |[|seg0 ?]| ];
    try (injection Hsteps as <-; cbn [length]; unfold MAX_ROUTE_STEPS; lia).
  destruct seg0; eapply parse_steps_length; exact Hsteps.
Qed.

End Normalizer.

(** Extra X14. What [ORSService._procesar_respuesta_ors] gives, for every
    response of the provider. When it returns, the result is a dict of exactly
    [ruta], [distancia_m], [duracion_s], [instrucciones], [steps_count] and
    [current_step_index], where [steps_count] is the number of
    [instrucciones], at most 200, and [current_step_index] is 0. When it
    raises, the error is never a [KeyError], [IndexError], [TypeError] or
    [ValueError] (those become an HTTP 500), and an HTTP error it raises has
    status 404 or 500. *)
Theorem procesar_respuesta_ors_ok :
  forall (lib : PyLib) (ors_response : json),
    match _procesar_respuesta_ors lib ors_response with
    | Ok result => is_route result
    | Err e =>
        e <> KeyError /\ e <> IndexError /\ e <> TypeError /\ e <> ValueError /\
        normalizer_status e
    end.
Proof.
  intros lib ors_response. unfold _procesar_respuesta_ors.
  pose proof (procesar_body_normalized lib ors_response) as Hbody.
  destruct (procesar_body lib ors_response) as [result|e]; [exact Hbody|].
  destruct e; cbn [normalized_ok normalizer_status] in *;
    repeat split; try discriminate; try exact Hbody; try exact I;
    right; reflexivity.
Qed.

(** ** Copies of payloads *)

Section Copies.

Local Open Scope nat_scope.

Lemma fresh_from_le (n m : nat) (v : pval) :
  n <= m -> fresh_from m v -> fresh_from n v.
Proof. destruct v; cbn; try trivial. intros Hnm Hm. exact (Nat.le_trans _ _ _ Hnm Hm). Qed.

Lemma copy_values_ok (fuel : nat) :
  copy_ok fuel ->
  forall (vs : list pval) (h : heap) (js : list json),
    Forall2 (fun v j => reify fuel h v = Some j) vs js ->
    exists (ext : heap) (vs' : list pval),
      copy_values (deepcopy fuel) h vs = Some (h ++ ext, vs') /\
      Forall2 (fun v' j => reify fuel (h ++ ext) v' = Some j) vs' js /\
      Forall (fresh_from (length h)) vs'.
Proof.
  intros Hcp vs. induction vs as [|v vs IH]; intros h js HF.
  - apply Forall2_nil_inv_l in HF as ->. exists [], []. rewrite app_nil_r.
    cbn [copy_values]. repeat split; constructor.
  - apply Forall2_cons_inv_l in HF as (j & js' & Hv & HF & ->).
    destruct (Hcp h v j Hv) as (ext1 & v1 & Hc1 & Hr1 & Hf1).
    assert (HF' : Forall2 (fun v j => reify fuel (h ++ ext1) v = Some j) vs js').
    { eapply Forall2_impl; [exact HF|]. intros x y Hxy. apply reify_extend, Hxy. }
    destruct (IH _ _ HF') as (ext2 & vs2 & Hc2 & Hr2 & Hf2).
    exists (ext1 ++ ext2), (v1 :: vs2). cbn [copy_values]. rewrite Hc1, Hc2.
    rewrite app_assoc. split; [reflexivity|]. split.
    + constructor; [apply reify_extend, Hr1 | exact Hr2].
    + constructor; [exact Hf1|].
      eapply Forall_impl; [exact Hf2|]. intros x. apply fresh_from_le.
      rewrite length_app. apply Nat.le_add_r.
Qed.

Lemma reify_items_split (R : pval -> option json)
      (kvs : list (string * pval)) (d : list (string * json)) :
  Forall2 (fun kv kx => pair kv.1 <$> R kv.2 = Some kx) kvs d ->
  map fst kvs = map fst d /\
  Forall2 (fun v j => R v = Some j) (map snd kvs) (map snd d).
Proof.
  induction 1 as [|[k v] [k' x] kvs d Hkv _ [IHk IHv]];
    [split; [reflexivity | constructor]|].
  cbn [fst snd] in Hkv. destruct (R v) as [jx|] eqn:Ev; [|discriminate].
  injection Hkv as <- <-. cbn [map fst snd]. rewrite IHk.
  split; [reflexivity | constructor; assumption].
Qed.

Lemma reify_items_zip (R : pval -> option json) (d : list (string * json)) :
  forall (vs' : list pval),
    Forall2 (fun v' j => R v' = Some j) vs' (map snd d) ->
    Forall2 (fun kv kx => pair kv.1 <$> R kv.2 = Some kx) (zip (map fst d) vs') d.
Proof.
  induction d as [|[k x] d IH]; intros vs' HF; cbn [map fst snd] in *.
  - apply Forall2_nil_inv_r in HF as ->. constructor.
  - apply Forall2_cons_inv_r in HF as (v' & vs'' & Hv & HF & ->).
    cbn [zip_with]. constructor; [|apply IH, HF].
    cbn [fst snd]. rewrite Hv. reflexivity.
Qed.

Lemma deepcopy_ok (fuel : nat) : copy_ok fuel.
Proof.
  induction fuel as [|fuel IH]; intros h v j Hr.
  - destruct v; try discriminate; eexists [], _; rewrite app_nil_r;
      repeat split; first [exact Hr | exact I].
  - destruct v as [ | | | | |l];
      try (eexists [], _; rewrite app_nil_r;
           repeat split; first [exact Hr | exact I]).
    cbn [reify] in Hr. cbn [deepcopy]. unfold heap in *.
    destruct (h !! l) as [[vs|kvs]|] eqn:El; [| |discriminate].
    + destruct (mapM (reify fuel h) vs) as [js|] eqn:Em; [|discriminate].
      injection Hr as <-. apply mapM_Some in Em.
      destruct (copy_values_ok fuel IH vs h js Em) as (ext & vs' & Hc & Hrs & _).
      rewrite Hc. exists (ext ++ [OList vs']), (VRef (length (h ++ ext))).
      rewrite app_assoc. split; [reflexivity|]. split.
      * cbn [reify]. unfold heap.
        rewrite (list_lookup_middle (h ++ ext) [] _ (length (h ++ ext)) eq_refl).
        assert (mapM (reify fuel ((h ++ ext) ++ [OList vs'])) vs' = Some js)
          as ->; [|reflexivity].
        apply mapM_Some. eapply Forall2_impl; [exact Hrs|].
        intros x y Hxy. apply reify_extend, Hxy.
      * cbn [fresh_from]. rewrite length_app. apply Nat.le_add_r.
    + destruct (mapM (fun kv => pair kv.1 <$> reify fuel h kv.2) kvs)
        as [d|] eqn:Em; [|discriminate].
      injection Hr as <-. apply mapM_Some in Em.
      apply reify_items_split in Em as [Hk Hv].
      destruct (copy_values_ok fuel IH _ h _ Hv) as (ext & vs' & Hc & Hrs & _).
      rewrite Hc.
      exists (ext ++ [ODict (zip (map fst kvs) vs')]), (VRef (length (h ++ ext))).
      rewrite app_assoc. split; [reflexivity|]. split.
      * cbn [reify]. unfold heap.
        rewrite (list_lookup_middle (h ++ ext) [] _ (length (h ++ ext)) eq_refl).
        assert (mapM (fun kv => pair kv.1 <$>
                         reify fuel ((h ++ ext) ++ [ODict (zip (map fst kvs) vs')])
                           kv.2)
                     (zip (map fst kvs) vs') = Some d) as ->; [|reflexivity].
        apply mapM_Some. rewrite Hk. apply reify_items_zip.
        eapply Forall2_impl; [exact Hrs|].
        intros x y Hxy. apply reify_extend, Hxy.
      * cbn [fresh_from]. rewrite length_app. apply Nat.le_add_r.
Qed.

End Copies.
